(** * angelix, [src/repair/project.py]: variant builds of one buggy source tree

    A shallow embedding of [project.py] and of the parts of Python's
    [posixpath] and [difflib] it calls, followed by the properties of the
    specification that were checked against it and by further properties
    of the code. *)

From Stdlib Require Import String Ascii List ZArith Lia Bool DecimalString.
From stdpp Require Import base strings list gmap.

Local Open Scope string_scope.
Local Open Scope list_scope.
Local Open Scope stdpp_scope.

(** ** Python [str] operations used by the program *)

Module PyStr.

(** [s.startswith(p)] *)
Definition startswith (s p : string) : bool := String.prefix p s.

(** [s.endswith('/')] *)
Fixpoint ends_with_sep (s : string) : bool :=
  match s with
  | EmptyString => false
  | String c EmptyString => Ascii.eqb c "/"
  | String _ r => ends_with_sep r
  end.

(** [s.split('/')]: one more piece than there are separators. *)
Fixpoint split_sep (s : string) : list string :=
  match s with
  | EmptyString => [EmptyString]
  | String c r =>
      if Ascii.eqb c "/" then EmptyString :: split_sep r
      else match split_sep r with
           | h :: t => String c h :: t
           | [] => [String c EmptyString]
           end
  end.

(** ['/'.join(l)] *)
Definition join_sep (l : list string) : string := String.concat "/" l.

(** [not s] for a [str]. *)
Definition is_empty (s : string) : bool :=
  match s with EmptyString => true | _ => false end.

(** [[x for x in l if x]] *)
Definition nonempty_items (l : list string) : list string :=
  List.filter (fun x => negb (is_empty x)) l.

(** [c.isspace()] on the code points below 256. *)
Definition isspace (c : ascii) : bool :=
  let n := nat_of_ascii c in
  (Nat.leb 9 n && Nat.leb n 13) || (Nat.leb 28 n && Nat.leb n 32)
  || Nat.eqb n 133 || Nat.eqb n 160.

Fixpoint lstrip (s : string) : string :=
  match s with
  | String c r => if isspace c then lstrip r else s
  | EmptyString => EmptyString
  end.

(** The right-hand side of [strip]: the piece kept is the shortest prefix
    after which only white space follows. *)
Fixpoint rstrip (s : string) : string :=
  match s with
  | EmptyString => EmptyString
  | String c r =>
      match rstrip r with
      | EmptyString => if isspace c then EmptyString else String c EmptyString
      | r' => String c r'
      end
  end.

(** [s.strip()] *)
Definition strip (s : string) : string := rstrip (lstrip s).

End PyStr.

(** ** [posixpath]: [join], [normpath], [abspath], [relpath] *)

Module PosixPath.
Import PyStr.

Definition isabs (s : string) : bool := startswith s "/".

(** One round of the loop of [join(a, *p)]. *)
Definition join_step (path b : string) : string :=
  if startswith b "/" then b
  else if is_empty path || ends_with_sep path then path +:+ b
  else path +:+ "/" +:+ b.

Definition join (a : string) (p : list string) : string :=
  fold_left join_step p a.

(** [False], [True] or [2] in the source. *)
Definition initial_slashes (path : string) : nat :=
  if startswith path "/" then
    if startswith path "//" && negb (startswith path "///") then 2 else 1
  else 0.

Definition is_nil {A} (l : list A) : bool :=
  match l with [] => true | _ => false end.

(** [new_comps[-1] == '..'], guarded by [new_comps] being non-empty. *)
Definition last_is_dotdot (l : list string) : bool :=
  match last l with Some x => String.eqb x ".." | None => false end.

(** The body of the loop over [comps] in [normpath]. *)
Definition norm_step (init : nat) (new_comps : list string) (comp : string)
  : list string :=
  if String.eqb comp "" || String.eqb comp "." then new_comps
  else if negb (String.eqb comp "..")
          || (Nat.eqb init 0 && is_nil new_comps)
          || (negb (is_nil new_comps) && last_is_dotdot new_comps)
       then new_comps ++ [comp]
       else if negb (is_nil new_comps) then removelast new_comps
            else new_comps.

Definition slashes (n : nat) : string :=
  String.concat "" (replicate n "/").

Definition normpath (path : string) : string :=
  if is_empty path then "."
  else
    let init := initial_slashes path in
    let comps := fold_left (norm_step init) (split_sep path) [] in
    let p := join_sep comps in
    let p := if Nat.eqb init 0 then p else slashes init +:+ p in
    if is_empty p then "." else p.

(** [abspath], with [os.getcwd()] passed in. *)
Definition abspath (cwd path : string) : string :=
  normpath (if isabs path then path else join cwd [path]).

(** Python's order on lists of strings, as used by [min] and [max]. *)
Fixpoint list_ltb (l1 l2 : list string) : bool :=
  match l1, l2 with
  | _, [] => false
  | [], _ :: _ => true
  | x :: r1, y :: r2 =>
      match String.compare x y with
      | Lt => true
      | Gt => false
      | Eq => list_ltb r1 r2
      end
  end.

(** The loop of [genericpath.commonprefix]; [s2] is never the shorter
    one when [s1 <= s2], so the index [s2[i]] is in range. *)
Fixpoint commonprefix_loop (s1 s2 : list string) : list string :=
  match s1, s2 with
  | c :: r1, c2 :: r2 =>
      if String.eqb c c2 then c :: commonprefix_loop r1 r2 else []
  | _, _ => []
  end.

(** [commonprefix([m1, m2])] *)
Definition commonprefix (m1 m2 : list string) : list string :=
  let s1 := if list_ltb m2 m1 then m2 else m1 in
  let s2 := if list_ltb m1 m2 then m2 else m1 in
  commonprefix_loop s1 s2.

(** [relpath(path, start)]; [None] stands for the [ValueError] raised on
    an empty [path]. *)
Definition relpath (cwd path : string) (start : string) : option string :=
  if is_empty path then None
  else
    let start_list := nonempty_items (split_sep (abspath cwd start)) in
    let path_list := nonempty_items (split_sep (abspath cwd path)) in
    let i := length (commonprefix start_list path_list) in
    let rel_list :=
      replicate (length start_list - i) ".." ++ drop i path_list in
    match rel_list with
    | [] => Some "."
    | a :: p => Some (join a p)
    end.

End PosixPath.

(** ** [difflib]: [SequenceMatcher] on lists of lines and [unified_diff] *)

Module Difflib.

(** The positions of [x] in [b], in increasing order, counted from [j]. *)
Fixpoint indices_from (j : nat) (x : string) (b : list string) : list nat :=
  match b with
  | [] => []
  | y :: r =>
      if String.eqb y x then j :: indices_from (S j) x r
      else indices_from (S j) x r
  end.

(** [__chain_b] with [isjunk=None] and [autojunk=True]: when [b] has 200
    elements or more, an element that occurs more than [n // 100 + 1]
    times is popular and is deleted from [b2j]. *)
Definition popular (b : list string) (x : string) : bool :=
  let n := length b in
  (200 <=? n)%nat && (n / 100 + 1 <? length (indices_from 0 x b))%nat.

(** [b2j.get(x, [])] *)
Definition b2j_get (b : list string) (x : string) : list nat :=
  if popular b x then [] else indices_from 0 x b.

(** A triple [(besti, bestj, bestsize)], also a [Match(a, b, size)]. *)
Definition block : Type := nat * nat * nat.

Section Matcher.
Variables a b : list string.

(** [j2len.get(j-1, 0)] *)
Definition j2len_prev (j2len : gmap nat nat) (j : nat) : nat :=
  match j with
  | 0 => 0
  | S j' => default 0 (j2len !! j')
  end.

(** The loop [for j in b2j.get(a[i], nothing)] of [find_longest_match];
    [continue] below [blo], [break] from [bhi] on. *)
Fixpoint flm_inner (js : list nat) (i blo bhi : nat)
    (j2len newj2len : gmap nat nat) (best : block)
  : gmap nat nat * block :=
  match js with
  | [] => (newj2len, best)
  | j :: js' =>
      if (j <? blo)%nat then flm_inner js' i blo bhi j2len newj2len best
      else if (bhi <=? j)%nat then (newj2len, best)
      else
        let k := j2len_prev j2len j + 1 in
        let newj2len := <[j := k]> newj2len in
        let best := if (best.2 <? k)%nat then (i + 1 - k, j + 1 - k, k)
                    else best in
        flm_inner js' i blo bhi j2len newj2len best
  end.

(** The loop [for i in range(alo, ahi)], over the list of these [i]. *)
Fixpoint flm_outer (is_ : list nat) (blo bhi : nat) (j2len : gmap nat nat)
    (best : block) : block :=
  match is_ with
  | [] => best
  | i :: is' =>
      let js := match a !! i with
                | Some x => b2j_get b x
                | None => []
                end in
      let '(newj2len, best) := flm_inner js i blo bhi j2len ∅ best in
      flm_outer is' blo bhi newj2len best
  end.

(** [a[i] == b[j]] *)
Definition same_at (i j : nat) : bool :=
  match a !! i, b !! j with
  | Some x, Some y => String.eqb x y
  | _, _ => false
  end.

(** The first [while] loop after the search: the block grows to the
    left. *)
Fixpoint extend_left (alo blo besti bestj bestsize : nat) : block :=
  match besti with
  | 0 => (besti, bestj, bestsize)
  | S i' =>
      if (alo <? besti)%nat && (blo <? bestj)%nat
         && same_at (besti - 1) (bestj - 1)
      then extend_left alo blo i' (bestj - 1) (bestsize + 1)
      else (besti, bestj, bestsize)
  end.

(** The second [while] loop: the block grows to the right; [n] bounds
    the number of rounds. *)
Fixpoint extend_right (n ahi bhi besti bestj bestsize : nat) : nat :=
  match n with
  | 0 => bestsize
  | S n' =>
      if (besti + bestsize <? ahi)%nat && (bestj + bestsize <? bhi)%nat
         && same_at (besti + bestsize) (bestj + bestsize)
      then extend_right n' ahi bhi besti bestj (bestsize + 1)
      else bestsize
  end.

(** [find_longest_match(alo, ahi, blo, bhi)]. No element is junk, so the
    last two [while] loops of the source, over junk elements, do not
    run. *)
Definition find_longest_match (alo ahi blo bhi : nat) : block :=
  let best := flm_outer (seq alo (ahi - alo)) blo bhi ∅ (alo, blo, 0) in
  let '(besti, bestj, bestsize) :=
    extend_left alo blo best.1.1 best.1.2 best.2 in
  let bestsize :=
    extend_right (ahi - (besti + bestsize)) ahi bhi besti bestj bestsize in
  (besti, bestj, bestsize).

(** The [while queue] loop of [get_matching_blocks]; the head of the
    list is the end of [queue]. Every round takes one region off and puts
    back smaller ones, [fuel] bounds the number of rounds. *)
Fixpoint matching_loop (fuel : nat) (queue : list (nat * nat * nat * nat))
    (matching_blocks : list block) : list block :=
  match fuel with
  | 0 => matching_blocks
  | S fuel' =>
      match queue with
      | [] => matching_blocks
      | (alo, ahi, blo, bhi) :: queue =>
          let '(i, j, k) := find_longest_match alo ahi blo bhi in
          if (k =? 0)%nat then matching_loop fuel' queue matching_blocks
          else
            let queue :=
              if (alo <? i)%nat && (blo <? j)%nat
              then (alo, i, blo, j) :: queue else queue in
            let queue :=
              if (i + k <? ahi)%nat && (j + k <? bhi)%nat
              then (i + k, ahi, j + k, bhi) :: queue else queue in
            matching_loop fuel' queue (matching_blocks ++ [(i, j, k)])
      end
  end.

(** The order of Python on triples. *)
Definition block_leb (x y : block) : bool :=
  let '(i1, j1, k1) := x in
  let '(i2, j2, k2) := y in
  (i1 <? i2)%nat
  || ((i1 =? i2)%nat && ((j1 <? j2)%nat
                         || ((j1 =? j2)%nat && (k1 <=? k2)%nat))).

Fixpoint insert_block (x : block) (l : list block) : list block :=
  match l with
  | [] => [x]
  | y :: r => if block_leb x y then x :: y :: r else y :: insert_block x r
  end.

(** [matching_blocks.sort()] *)
Definition sort_blocks (l : list block) : list block :=
  fold_right insert_block [] l.

(** The loop that merges adjacent blocks; [cur] is [(i1, j1, k1)]. *)
Fixpoint collapse (cur : block) (l : list block) : list block :=
  let '(i1, j1, k1) := cur in
  match l with
  | [] => if (k1 =? 0)%nat then [] else [cur]
  | (i2, j2, k2) :: r =>
      if (i1 + k1 =? i2)%nat && (j1 + k1 =? j2)%nat
      then collapse (i1, j1, k1 + k2) r
      else (if (k1 =? 0)%nat then [] else [cur]) ++ collapse (i2, j2, k2) r
  end.

Definition get_matching_blocks : list block :=
  let la := length a in
  let lb := length b in
  let matching_blocks :=
    matching_loop (2 * la + 1) [(0, la, 0, lb)] [] in
  collapse (0, 0, 0) (sort_blocks matching_blocks) ++ [(la, lb, 0)].

Inductive tag := Replace | Delete | Insert | Equal.

Definition opcode : Type := tag * nat * nat * nat * nat.

(** The loop of [get_opcodes]; [i] and [j] are where the previous block
    ended. *)
Fixpoint opcodes_from (i j : nat) (blocks : list block) : list opcode :=
  match blocks with
  | [] => []
  | (ai, bj, size) :: r =>
      (if (i <? ai)%nat && (j <? bj)%nat then [(Replace, i, ai, j, bj)]
       else if (i <? ai)%nat then [(Delete, i, ai, j, bj)]
       else if (j <? bj)%nat then [(Insert, i, ai, j, bj)]
       else [])
      ++ (if (size =? 0)%nat then []
          else [(Equal, ai, ai + size, bj, bj + size)])
      ++ opcodes_from (ai + size) (bj + size) r
  end.

Definition get_opcodes : list opcode := opcodes_from 0 0 get_matching_blocks.

Definition is_equal (t : tag) : bool :=
  match t with Equal => true | _ => false end.

(** [codes[0] = ...] when the first opcode is ['equal']. *)
Definition fix_first (n : nat) (codes : list opcode) : list opcode :=
  match codes with
  | (Equal, i1, i2, j1, j2) :: r =>
      (Equal, Nat.max i1 (i2 - n), i2, Nat.max j1 (j2 - n), j2) :: r
  | _ => codes
  end.

(** [codes[-1] = ...] when the last opcode is ['equal']. *)
Fixpoint fix_last (n : nat) (codes : list opcode) : list opcode :=
  match codes with
  | [] => []
  | [(Equal, i1, i2, j1, j2)] =>
      [(Equal, i1, Nat.min i2 (i1 + n), j1, Nat.min j2 (j1 + n))]
  | [c] => [c]
  | c :: r => c :: fix_last n r
  end.

(** The loop of [get_grouped_opcodes] over [codes]; [group] is the group
    being filled, the result the groups yielded. *)
Fixpoint group_loop (n : nat) (codes : list opcode) (group : list opcode)
  : list (list opcode) :=
  match codes with
  | [] =>
      match group with
      | [] => []
      | [(Equal, _, _, _, _)] => []
      | _ => [group]
      end
  | (t, i1, i2, j1, j2) :: r =>
      if is_equal t && (n + n <? i2 - i1)%nat then
        (group ++ [(t, i1, Nat.min i2 (i1 + n), j1, Nat.min j2 (j1 + n))])
        :: group_loop n r
             [(t, Nat.max i1 (i2 - n), i2, Nat.max j1 (j2 - n), j2)]
      else group_loop n r (group ++ [(t, i1, i2, j1, j2)])
  end.

Definition get_grouped_opcodes (n : nat) : list (list opcode) :=
  let codes := get_opcodes in
  let codes := match codes with [] => [(Equal, 0, 1, 0, 1)] | _ => codes end in
  let codes := fix_first n codes in
  let codes := fix_last n codes in
  group_loop n codes [].

(** [s[i1:i2]] *)
Definition slice (s : list string) (i1 i2 : nat) : list string :=
  take (i2 - i1) (drop i1 s).

(** What the generator [unified_diff] yields, before it is made text. *)
Inductive diff_line :=
| FromFile (name : string)
| ToFile (name : string)
| Hunk (range1 range2 : string)
| Context (line : string)
| Removed (line : string)
| Added (line : string).

Definition decimal (n : nat) : string :=
  NilZero.string_of_uint (Nat.to_uint n).

Definition _format_range_unified (start stop : nat) : string :=
  let beginning := start + 1 in
  let length := stop - start in
  if (length =? 1)%nat then decimal beginning
  else
    let beginning := if (length =? 0)%nat then beginning - 1 else beginning in
    decimal beginning +:+ "," +:+ decimal length.

Definition opcode_lines (c : opcode) : list diff_line :=
  let '(t, i1, i2, j1, j2) := c in
  match t with
  | Equal => map Context (slice a i1 i2)
  | Replace => map Removed (slice a i1 i2) ++ map Added (slice b j1 j2)
  | Delete => map Removed (slice a i1 i2)
  | Insert => map Added (slice b j1 j2)
  end.

Definition group_lines (group : list opcode) : list diff_line :=
  match group, last group with
  | (_, f1, _, f3, _) :: _, Some (_, _, l2, _, l4) =>
      Hunk (_format_range_unified f1 l2) (_format_range_unified f3 l4)
      :: concat (map opcode_lines group)
  | _, _ => []
  end.

(** [unified_diff(a, b, fromfile, tofile)] with [n=3] and no dates: the
    two header lines come with the first group. *)
Definition unified_diff_lines (fromfile tofile : string) : list diff_line :=
  match get_grouped_opcodes 3 with
  | [] => []
  | groups =>
      FromFile fromfile :: ToFile tofile :: concat (map group_lines groups)
  end.

End Matcher.

(** The text of a line of the diff, [lineterm] being ['\n']. *)
Definition render (l : diff_line) : string :=
  match l with
  | FromFile name => "--- " +:+ name +:+ String "010" EmptyString
  | ToFile name => "+++ " +:+ name +:+ String "010" EmptyString
  | Hunk r1 r2 =>
      "@@ -" +:+ r1 +:+ " +" +:+ r2 +:+ " @@" +:+ String "010" EmptyString
  | Context line => " " +:+ line
  | Removed line => "-" +:+ line
  | Added line => "+" +:+ line
  end.

Definition unified_diff (a b : list string) (fromfile tofile : string)
  : list string :=
  map render (unified_diff_lines a b fromfile tofile).

End Difflib.

(** ** The world the program runs in

    Files, the process's current directory and environment, a heap of
    Python [dict] objects (so that aliasing and copies are visible), the
    log and the list of child processes started so far. *)

Module Py.
Import PyStr PosixPath.

Inductive exn :=
| CompilationError
| CalledProcessError (returncode : Z)
| KeyError (key : string)
| ValueError
| TypeError
| FileNotFoundError (path : string)
| IsADirectoryError (path : string)
| SameFileError
| JSONDecodeError
| NotADirectoryError (path : string)
| PermissionError (path : string).

Inductive result (A : Type) :=
| Ok (a : A)
| Raise (e : exn).
Arguments Ok {A} a.
Arguments Raise {A} e.

Inductive node :=
| File (content : string)
| Dir.

Inductive level := INFO | WARNING | ERROR.

(** A Python [dict] with [str] keys and values: a record of a compilation
    database, or a mapping of environment variables. *)
Abbreviation dict := (gmap string string).

(** A reference to a [dict] object: [os.environ] or an object on the heap. *)
Inductive dict_ref :=
| Environ
| Obj (l : nat).

(** [shell=True] with a command line, or an argument vector. *)
Inductive command :=
| Shell (cmd : string)
| Argv (args : list string).

(** [stderr=None] (inherited) or [subprocess.DEVNULL]. *)
Inductive stderr_policy := Inherit | DEVNULL.

(** What a child process is started with. *)
Record proc_call := {
  pc_command : command;
  pc_cwd : string;
  pc_env : dict;
  pc_stderr : stderr_policy
}.

Record world := {
  fs : gmap string node;
  cwd : string;
  environ : dict;
  heap : gmap nat dict;
  log : list (level * string);
  spawned : list proc_call
}.

(** Why a program cannot be started: there is no such program, or it may
    not be executed ([ENOENT], [EACCES]). *)
Inductive start_error := NotFound | NotPermitted.

(** The collaborators outside the program: what a child process does to
    the files and how it exits, whether the program of an argument vector
    can be started at all, the name [tempfile.mkdtemp] picks, and the
    [json] codec on compilation databases. *)
Record externals := {
  run_process : proc_call -> gmap string node -> gmap string node * Z;
  cannot_start : proc_call -> gmap string node -> option start_error;
  mkdtemp_name : gmap string node -> string;
  json_load : string -> option (list dict);
  json_dump : list dict -> string
}.

(** *** A state and exception monad *)

Definition M (A : Type) : Type := world -> result A * world.

Definition ret {A} (a : A) : M A := fun w => (Ok a, w).

Definition raise {A} (e : exn) : M A := fun w => (Raise e, w).

Definition bind {A B} (m : M A) (k : A -> M B) : M B := fun w =>
  match m w with
  | (Ok a, w') => k a w'
  | (Raise e, w') => (Raise e, w')
  end.

(** [try: m except ...: h e]; a handler that is [None] lets [e] through. *)
Definition try_except {A} (m : M A) (h : exn -> option (M A)) : M A :=
  fun w =>
    match m w with
    | (Ok a, w') => (Ok a, w')
    | (Raise e, w') =>
        match h e with
        | Some k => k w'
        | None => (Raise e, w')
        end
    end.

Definition get : M world := fun w => (Ok w, w).
Definition put (w : world) : M unit := fun _ => (Ok tt, w).

Fixpoint for_each {A} (l : list A) (body : A -> M unit) : M unit :=
  match l with
  | [] => ret tt
  | x :: r => bind (body x) (fun _ => for_each r body)
  end.

Declare Scope py_scope.
Delimit Scope py_scope with py.
Notation "x <- m ;; k" := (bind m (fun x => k))
  (at level 100, m at next level, right associativity) : py_scope.
Notation "m ;; k" := (bind m (fun _ => k))
  (at level 100, right associativity) : py_scope.
Local Open Scope py_scope.

(** *** Files *)

(** The empty string names no file. *)
Definition fs_lookup (f : gmap string node) (p : string) : option node :=
  if is_empty p then None else f !! p.

(** [os.path.exists(p)] *)
Definition exists_ (p : string) : M bool := fun w =>
  (Ok (bool_decide (is_Some (fs_lookup (fs w) p))), w).

(** [open(p).read()] *)
Definition read_file (p : string) : M string := fun w =>
  match fs_lookup (fs w) p with
  | Some (File c) => (Ok c, w)
  | Some Dir => (Raise (IsADirectoryError p), w)
  | None => (Raise (FileNotFoundError p), w)
  end.

Definition set_fs (f : gmap string node) (w : world) : world :=
  {| fs := f; cwd := cwd w; environ := environ w; heap := heap w;
     log := log w; spawned := spawned w |}.

(** [open(p, 'w').write(c)] *)
Definition write_file (p c : string) : M unit := fun w =>
  if is_empty p then (Raise (FileNotFoundError p), w)
  else match fs w !! p with
       | Some Dir => (Raise (IsADirectoryError p), w)
       | _ => (Ok tt, set_fs (<[p := File c]> (fs w)) w)
       end.

(** [shutil.copyfile(src, dst)] *)
Definition copyfile (src dst : string) : M unit :=
  if String.eqb src dst then raise SameFileError
  else c <- read_file src ;; write_file dst c.

(** Universal newlines: ['\r\n'] and ['\r'] are read as ['\n']. *)
Fixpoint translate_newlines (s : string) : string :=
  match s with
  | EmptyString => EmptyString
  | String c r =>
      if Ascii.eqb c "013" then
        match r with
        | String c' r' =>
            if Ascii.eqb c' "010" then String "010" (translate_newlines r')
            else String "010" (translate_newlines r)
        | EmptyString => String "010" EmptyString
        end
      else String c (translate_newlines r)
  end.

(** The lines of a text, each with its ['\n'] when it has one. *)
Fixpoint lines_of (s : string) : list string :=
  match s with
  | EmptyString => []
  | String c r =>
      if Ascii.eqb c "010" then String c EmptyString :: lines_of r
      else match lines_of r with
           | [] => [String c EmptyString]
           | h :: t => String c h :: t
           end
  end.

(** [open(p).readlines()] *)
Definition readlines (p : string) : M (list string) :=
  c <- read_file p ;; ret (lines_of (translate_newlines c)).

(** *** World updates *)

Definition set_cwd (d : string) (w : world) : world :=
  {| fs := fs w; cwd := d; environ := environ w; heap := heap w;
     log := log w; spawned := spawned w |}.

Definition set_environ (e : dict) (w : world) : world :=
  {| fs := fs w; cwd := cwd w; environ := e; heap := heap w;
     log := log w; spawned := spawned w |}.

Definition set_heap (h : gmap nat dict) (w : world) : world :=
  {| fs := fs w; cwd := cwd w; environ := environ w; heap := h;
     log := log w; spawned := spawned w |}.

Definition add_log (lv : level) (msg : string) (w : world) : world :=
  {| fs := fs w; cwd := cwd w; environ := environ w; heap := heap w;
     log := log w ++ [(lv, msg)]; spawned := spawned w |}.

(** *** Logging *)

Definition logger_log (lv : level) (msg : string) : M unit := fun w =>
  (Ok tt, add_log lv msg w).

(** *** [dict] objects *)

Definition deref (w : world) (r : dict_ref) : dict :=
  match r with
  | Environ => environ w
  | Obj l => default ∅ (heap w !! l)
  end.

(** A new object holding [d]. *)
Definition alloc (d : dict) : M nat := fun w =>
  let l := fresh (dom (heap w)) in
  (Ok l, set_heap (<[l := d]> (heap w)) w).

(** [dict(r)]: a new object with the items of [r]. *)
Definition dict_copy (r : dict_ref) : M dict_ref := fun w =>
  bind (alloc (deref w r)) (fun l => ret (Obj l)) w.

(** [r[k]] *)
Definition dict_getitem (r : dict_ref) (k : string) : M string := fun w =>
  match deref w r !! k with
  | Some v => (Ok v, w)
  | None => (Raise (KeyError k), w)
  end.

(** [r[k] = v] *)
Definition dict_setitem (r : dict_ref) (k v : string) : M unit := fun w =>
  match r with
  | Environ => (Ok tt, set_environ (<[k := v]> (environ w)) w)
  | Obj l => (Ok tt, set_heap (<[l := <[k := v]> (deref w r)]> (heap w)) w)
  end.

(** [copy.deepcopy] of a list of [dict] objects: an object met again is
    copied once (the memo), the strings inside are shared. *)
Fixpoint deepcopy_items (items : list nat) (memo : gmap nat nat)
    (h : gmap nat dict) : list nat * gmap nat dict :=
  match items with
  | [] => ([], h)
  | x :: r =>
      match memo !! x with
      | Some y =>
          let '(ys, h') := deepcopy_items r memo h in (y :: ys, h')
      | None =>
          let y := fresh (dom h) in
          let '(ys, h') :=
            deepcopy_items r (<[x := y]> memo)
              (<[y := default ∅ (h !! x)]> h) in
          (y :: ys, h')
      end
  end.

Definition deepcopy (db : list nat) : M (list nat) := fun w =>
  let '(ys, h') := deepcopy_items db ∅ (heap w) in
  (Ok ys, set_heap h' w).

(** The objects [json.load] builds for a decoded database, in order. *)
Fixpoint alloc_records (recs : list dict) : M (list nat) :=
  match recs with
  | [] => ret []
  | d :: r =>
      l <- alloc d ;;
      ls <- alloc_records r ;;
      ret (l :: ls)
  end.

(** [os.path.basename] *)
Definition basename (p : string) : string :=
  default "" (last (split_sep p)).

(** The argument of a call of [relpath]: a [str], or a name that resolves
    to a built-in function. *)
Inductive pyobj :=
| Str (s : string)
| BuiltinFunction (name : string).

(** [os.path.relpath(path)]: relative to the current directory. *)
Definition os_path_relpath (path : pyobj) : M string := fun w =>
  match path with
  | Str s =>
      match relpath (cwd w) s "." with
      | Some r => (Ok r, w)
      | None => (Raise ValueError, w)
      end
  | BuiltinFunction _ => (Raise TypeError, w)
  end.

(** [os.path.relpath(path, start)] *)
Definition os_path_relpath_from (path start : string) : M string := fun w =>
  match relpath (cwd w) path start with
  | Some r => (Ok r, w)
  | None => (Raise ValueError, w)
  end.

Section Externals.
Variable X : externals.

(** [tempfile.mkdtemp()] *)
Definition mkdtemp : M string := fun w =>
  let d := mkdtemp_name X (fs w) in
  (Ok d, set_fs (<[d := Dir]> (fs w)) w).

(** The [OSError] of [subprocess] when the program of an argument vector
    cannot be started. With [shell=True] the program started is the shell,
    which reports a command it cannot start by its exit code. *)
Definition start_failure (c : command) (call : proc_call)
    (f : gmap string node) : option exn :=
  match c with
  | Shell _ => None
  | Argv args =>
      match cannot_start X call f with
      | Some NotFound => Some (FileNotFoundError (default "" (head args)))
      | Some NotPermitted => Some (PermissionError (default "" (head args)))
      | None => None
      end
  end.

(** [subprocess.check_output(c, env=env, stderr=stderr)]; the output is
    not used by the program. A program that cannot be started is an
    [OSError] and no child; a child that exits with a non-zero code is a
    [CalledProcessError]. *)
Definition check_output (c : command) (env : option dict_ref)
    (stderr : stderr_policy) : M unit := fun w =>
  let call := {| pc_command := c; pc_cwd := cwd w;
                 pc_env := match env with
                           | Some r => deref w r
                           | None => environ w
                           end;
                 pc_stderr := stderr |} in
  match start_failure c call (fs w) with
  | Some e => (Raise e, w)
  | None =>
      let '(f, code) := run_process X call (fs w) in
      let w' := {| fs := f; cwd := cwd w; environ := environ w;
                   heap := heap w; log := log w;
                   spawned := spawned w ++ [call] |} in
      if Z.eqb code 0 then (Ok tt, w')
      else (Raise (CalledProcessError code), w')
  end.

(** [os.chdir(d)]: what it raises when [d] is not a directory that is
    there. *)
Definition chdir_error (f : gmap string node) (d : string) : option exn :=
  match fs_lookup f d with
  | Some Dir => None
  | Some (File _) => Some (NotADirectoryError d)
  | None => Some (FileNotFoundError d)
  end.

(** Modelled from the spec: [utils.cd] is imported by [project.py] but
    is not among the sources. Entering [d] is [os.chdir(d)], which raises
    before the body runs when [d] is not a directory that is there; the body
    runs with [d] as the current directory, and the previous directory is
    current again afterwards, also when the body raises. *)
Definition cd {A} (d : string) (body : M A) : M A := fun w =>
  match chdir_error (fs w) d with
  | Some e => (Raise e, w)
  | None =>
      let old := cwd w in
      let '(r, w') := body (set_cwd (abspath old d) w) in
      (r, set_cwd old w')
  end.

(** [json.load(open(p))] *)
Definition json_load_file (p : string) : M (list nat) :=
  c <- read_file p ;;
  match json_load X c with
  | Some recs => alloc_records recs
  | None => raise JSONDecodeError
  end.

(** [json.dump(db, open(p, 'w'), indent=2)] *)
Definition json_dump_file (db : list nat) (p : string) : M unit :=
  w <- get ;;
  write_file p (json_dump X (map (fun l => deref w (Obj l)) db)).

End Externals.

End Py.

(** ** [project.py] *)

Module Project.
Import PyStr PosixPath Py.
Local Open Scope py_scope.

(** An entry of the test specification: the optional [build] sub-step
    ([directory], [command]) and the [executable]. *)
Record test_spec := {
  build_step : option (string * string);
  executable : string
}.

Record config := { verbose : bool }.

Record project := {
  stderr : stderr_policy;
  dir : string;
  buggy : string;
  build_cmd : string;
  configure_cmd : option string;
  tests_spec : gmap string test_spec;
  _buggy_backup : string
}.

Inductive variant := Validation | Frontend | Backend | Golden.

#[global] Instance variant_eq_dec : EqDecision variant.
Proof. solve_decision. Defined.

(** [self.tests_spec[test_case]] *)
Definition tests_spec_getitem (self : project) (test_case : string)
  : M test_spec :=
  match tests_spec self !! test_case with
  | Some t => ret t
  | None => raise (KeyError test_case)
  end.

(** The name [dir] where no parameter or attribute of that name is in
    scope: Python's built-in function. *)
Definition builtin_dir : pyobj := BuiltinFunction "dir".

Section Code.
Variable X : externals.

(** [Project.__init__] *)
Definition init (cfg : config) (dir_ buggy_ build_cmd_ : string)
    (configure_cmd_ : option string) (tests_spec_ : gmap string test_spec)
  : M project :=
  let self := {|
    stderr := if verbose cfg then Inherit else DEVNULL;
    dir := dir_;
    buggy := buggy_;
    build_cmd := build_cmd_;
    configure_cmd := configure_cmd_;
    tests_spec := tests_spec_;
    _buggy_backup := join dir_ [buggy_] +:+ ".backup"
  |} in
  copyfile (join (dir self) [buggy self]) (_buggy_backup self) ;;
  ret self.

Definition restore_buggy (self : project) : M unit :=
  copyfile (_buggy_backup self) (join (dir self) [buggy self]).

(** [diff_buggy]: the lines the returned generator yields. *)
Definition diff_buggy (self : project) : M (list string) :=
  buggy_lines <- readlines (join (dir self) [buggy self]) ;;
  backup_lines <- readlines (_buggy_backup self) ;;
  ret (Difflib.unified_diff backup_lines buggy_lines
         (join "a" [buggy self]) (join "b" [buggy self])).

Definition import_compilation_db (self : project) (compilation_db : list nat)
  : M unit :=
  compilation_db <- deepcopy compilation_db ;;
  for_each compilation_db (fun item =>
    d <- dict_getitem (Obj item) "directory" ;;
    dict_setitem (Obj item) "directory" (join (dir self) [d]) ;;
    f <- dict_getitem (Obj item) "file" ;;
    dict_setitem (Obj item) "file" (join (dir self) [f]) ;;
    c <- dict_getitem (Obj item) "command" ;;
    inc <- dict_getitem Environ "LLVM3_INCLUDE_PATH" ;;
    dict_setitem (Obj item) "command" (c +:+ " -I" +:+ inc)) ;;
  let compilation_db_file := join (dir self) ["compile_commands.json"] in
  json_dump_file X compilation_db compilation_db_file.

Definition configure (self : project) : M unit :=
  let src := basename (dir self) in
  logger_log INFO ("configuring " +:+ src +:+ " source") ;;
  match configure_cmd self with
  | None => ret tt
  | Some cmd =>
      try_except
        (cd (dir self) (check_output X (Shell cmd) None (stderr self)))
        (fun e =>
           match e with
           | CalledProcessError _ => Some (
               r <- os_path_relpath builtin_dir ;;
               logger_log WARNING
                 ("configuration of " +:+ r +:+ " returned non-zero code"))
           | _ => None
           end)
  end.

(** [build_in_env(dir, cmd, stderr, env)]; the default of [env] is the
    object [os.environ]. *)
Definition build_in_env (dir_ cmd : string) (stderr_ : stderr_policy)
    (env : dict_ref) : M unit :=
  dirpath <- mkdtemp X ;;
  let messages := join dirpath ["messages"] in
  environment <- dict_copy env ;;
  dict_setitem environment "ANGELIX_COMPILER_MESSAGES" messages ;;
  try_except
    (cd dir_ (check_output X (Shell cmd) (Some environment) stderr_))
    (fun e =>
       match e with
       | CalledProcessError _ => Some (
           r <- os_path_relpath (Str dir_) ;;
           logger_log WARNING
             ("compilation of " +:+ r +:+ " returned non-zero code"))
       | _ => None
       end) ;;
  present <- exists_ messages ;;
  if present : bool then
    lines <- readlines messages ;;
    for_each lines (fun line =>
      r <- os_path_relpath (Str (strip line)) ;;
      logger_log WARNING ("failed to build " +:+ r))
  else ret tt.

Definition build_with_cc (dir_ cmd : string) (stderr_ : stderr_policy)
    (cc : string) : M unit :=
  env <- dict_copy Environ ;;
  dict_setitem env "CC" cc ;;
  build_in_env dir_ cmd stderr_ env.

(** The check shared by the [build_test] methods: log and raise when
    [dependency] is missing. *)
Definition require_dependency (test_case dependency : string) : M unit :=
  present <- exists_ dependency ;;
  if present : bool then ret tt
  else
    r <- os_path_relpath (Str dependency) ;;
    logger_log ERROR
      ("failed to build test " +:+ test_case +:+ " dependency " +:+ r) ;;
    raise CompilationError.

(** *** [class Validation] *)

Definition Validation_build (self : project) : M unit :=
  logger_log INFO "building validation source" ;;
  build_in_env (dir self) (build_cmd self) (stderr self) Environ.

Definition Validation_build_test (self : project) (test_case : string)
  : M unit :=
  t <- tests_spec_getitem self test_case ;;
  match build_step t with
  | Some (directory, command) =>
      build_in_env (join (dir self) [directory]) command (stderr self)
        Environ
  | None => ret tt
  end ;;
  let dependency := join (dir self) [executable t] in
  require_dependency test_case dependency.

Definition export_compilation_db (self : project) : M (list nat) :=
  logger_log INFO "building json compilation database from validation source" ;;
  build_in_env (dir self) ("bear " +:+ build_cmd self) (stderr self)
    Environ ;;
  let compilation_db_file := join (dir self) ["compile_commands.json"] in
  compilation_db <- json_load_file X compilation_db_file ;;
  for_each compilation_db (fun item =>
    d <- dict_getitem (Obj item) "directory" ;;
    d' <- os_path_relpath_from d (dir self) ;;
    dict_setitem (Obj item) "directory" d' ;;
    f <- dict_getitem (Obj item) "file" ;;
    f' <- os_path_relpath_from f (dir self) ;;
    dict_setitem (Obj item) "file" f') ;;
  ret compilation_db.

(** *** [class Frontend] *)

Definition Frontend_build (self : project) : M unit :=
  logger_log INFO "building frontend source" ;;
  build_with_cc (dir self) (build_cmd self) (stderr self)
    "angelix-compiler --test".

Definition Frontend_build_test (self : project) (test_case : string)
  : M unit :=
  t <- tests_spec_getitem self test_case ;;
  match build_step t with
  | Some (directory, command) =>
      build_with_cc (join (dir self) [directory]) command (stderr self)
        "angelix-compiler --test"
  | None => ret tt
  end ;;
  let dependency := join (dir self) [executable t] in
  require_dependency test_case dependency.

(** *** [class Backend] *)

Definition Backend_build (self : project) : M unit :=
  logger_log INFO "building backend source" ;;
  build_with_cc (dir self) (build_cmd self) (stderr self)
    "angelix-compiler --klee".

Definition Backend_build_test (self : project) (test_case : string)
  : M unit :=
  t <- tests_spec_getitem self test_case ;;
  match build_step t with
  | Some (directory, command) =>
      build_with_cc (join (dir self) [directory]) command (stderr self)
        "angelix-compiler --klee"
  | None => ret tt
  end ;;
  let executable_ := join (dir self) [executable t] in
  let dependency := executable_ +:+ ".bc" in
  require_dependency test_case dependency ;;
  let patched_dependency := executable_ +:+ ".patched.bc" in
  try_except
    (check_output X (Argv ["angelix-patch-bitcode"; dependency]) None
       (stderr self))
    (fun e =>
       match e with
       | CalledProcessError _ => Some (
           r <- os_path_relpath (Str dependency) ;;
           logger_log WARNING
             ("patching of " +:+ r +:+ " returned non-zero code"))
       | _ => None
       end) ;;
  require_dependency test_case patched_dependency.

(** *** [class Golden] *)

Definition Golden_build (self : project) : M unit :=
  logger_log INFO "building golden source" ;;
  build_with_cc (dir self) (build_cmd self) (stderr self)
    "angelix-compiler --test".

Definition Golden_build_test (self : project) (test_case : string)
  : M unit :=
  t <- tests_spec_getitem self test_case ;;
  match build_step t with
  | Some (directory, command) =>
      build_with_cc (join (dir self) [directory]) command (stderr self)
        "angelix-compiler --test"
  | None => ret tt
  end ;;
  let dependency := join (dir self) [executable t] in
  require_dependency test_case dependency.

(** Method dispatch on the class of [self]. *)
Definition build_test (v : variant) : project -> string -> M unit :=
  match v with
  | Validation => Validation_build_test
  | Frontend => Frontend_build_test
  | Backend => Backend_build_test
  | Golden => Golden_build_test
  end.

(** The artifact [build_test] is to leave behind. *)
Definition terminal_artifact (v : variant) (self : project) (t : test_spec)
  : string :=
  match v with
  | Backend => join (dir self) [executable t] +:+ ".patched.bc"
  | _ => join (dir self) [executable t]
  end.

End Code.

End Project.

Import PyStr PosixPath Py Project Difflib.

(** * The vocabulary of the properties *)

Local Open Scope py_scope.

(** ** Builds and their child processes *)

(** The loop of [build_in_env] over the lines of the messages file. *)
Definition report_line (line : string) : M unit :=
  r <- os_path_relpath (Str (strip line)) ;;
  logger_log WARNING ("failed to build " +:+ r).

(** Two worlds that differ in the log at most, the later log extending the
    earlier one. *)
Definition only_logged (w w' : world) : Prop :=
  fs w' = fs w /\ cwd w' = cwd w /\ environ w' = environ w /\
  heap w' = heap w /\ spawned w' = spawned w /\
  exists extra, log w' = log w ++ extra.

(** The child process [build_in_env] starts. *)
Definition build_call (X : externals) (dir_ cmd : string)
    (stderr_ : stderr_policy) (env : dict_ref) (w : world) : proc_call :=
  {| pc_command := Shell cmd;
     pc_cwd := abspath (cwd w) dir_;
     pc_env := <["ANGELIX_COMPILER_MESSAGES" :=
                 join (mkdtemp_name X (fs w)) ["messages"]]> (deref w env);
     pc_stderr := stderr_ |}.

(** The world when the child process of [build_in_env] has exited. *)
Definition after_build (X : externals) (dir_ cmd : string)
    (stderr_ : stderr_policy) (env : dict_ref) (w : world) : world :=
  let call := build_call X dir_ cmd stderr_ env w in
  let l := fresh (dom (heap w)) in
  {| fs := (run_process X call (<[mkdtemp_name X (fs w) := Dir]> (fs w))).1;
     cwd := cwd w;
     environ := environ w;
     heap := <[l := pc_env call]> (<[l := deref w env]> (heap w));
     log := log w;
     spawned := spawned w ++ [call] |}.

(** The world when [build_in_env] could not enter the directory: the
    temporary directory and the copy of the environment are there, no child
    process was started. *)
Definition before_build (X : externals) (env : dict_ref) (w : world) : world :=
  let l := fresh (dom (heap w)) in
  {| fs := <[mkdtemp_name X (fs w) := Dir]> (fs w);
     cwd := cwd w;
     environ := environ w;
     heap := <[l := <["ANGELIX_COMPILER_MESSAGES" :=
                       join (mkdtemp_name X (fs w)) ["messages"]]> (deref w env)]>
               (<[l := deref w env]> (heap w));
     log := log w;
     spawned := spawned w |}.

(** Its exit code. *)
Definition build_exit (X : externals) (dir_ cmd : string)
    (stderr_ : stderr_policy) (env : dict_ref) (w : world) : Z :=
  (run_process X (build_call X dir_ cmd stderr_ env w)
     (<[mkdtemp_name X (fs w) := Dir]> (fs w))).2.

(** The second half of [build_in_env]: the messages file. *)
Definition report_messages (messages : string) (w : world) : result unit * world :=
  match fs_lookup (fs w) messages with
  | Some (File c) => for_each (lines_of (translate_newlines c)) report_line w
  | Some Dir => (Raise (IsADirectoryError messages), w)
  | None => (Ok tt, w)
  end.

(** The messages file, when there is one, is a regular file and none of
    its lines is blank. *)
Definition messages_clean (f : gmap string node) (messages : string) : Prop :=
  match fs_lookup f messages with
  | Some (File c) =>
      Forall (fun l => strip l <> "") (lines_of (translate_newlines c))
  | Some Dir => False
  | None => True
  end.

(** The world in which [build_with_cc] calls [build_in_env]: [env] is a new
    object, a copy of [os.environ] with [CC] set. *)
Definition cc_world (cc : string) (w : world) : world :=
  let l := fresh (dom (heap w)) in
  set_heap (<[l := <["CC" := cc]> (environ w)]> (<[l := environ w]> (heap w))) w.

(** The build sub-step of [build_test], run when the test declares one. *)
Definition sub_build (X : externals) (v : variant) (self : project)
    (t : test_spec) : M unit :=
  match build_step t with
  | Some (directory, command) =>
      match v with
      | Validation =>
          build_in_env X (join (dir self) [directory]) command (stderr self)
            Environ
      | Frontend | Golden =>
          build_with_cc X (join (dir self) [directory]) command (stderr self)
            "angelix-compiler --test"
      | Backend =>
          build_with_cc X (join (dir self) [directory]) command (stderr self)
            "angelix-compiler --klee"
      end
  | None => ret tt
  end.

(** [exists(p)] holds in [w]. *)
Definition present (w : world) (p : string) : Prop :=
  is_Some (fs_lookup (fs w) p).

(** The invocation of the bitcode patcher by [Backend.build_test]. *)
Definition patch_call (self : project) (t : test_spec) (w : world) : proc_call :=
  {| pc_command :=
       Argv ["angelix-patch-bitcode"; join (dir self) [executable t] +:+ ".bc"];
     pc_cwd := cwd w;
     pc_env := environ w;
     pc_stderr := stderr self |}.

(** What [subprocess] raises when the bitcode patcher cannot be started. *)
Definition patch_start (X : externals) (self : project) (t : test_spec)
    (w : world) : option exn :=
  start_failure X (pc_command (patch_call self t w)) (patch_call self t w)
    (fs w).

(** The world when the bitcode patcher has exited. *)
Definition after_patch (X : externals) (self : project) (t : test_spec)
    (w : world) : world :=
  {| fs := (run_process X (patch_call self t w) (fs w)).1;
     cwd := cwd w; environ := environ w; heap := heap w; log := log w;
     spawned := spawned w ++ [patch_call self t w] |}.

(** The exit code of the bitcode patcher. *)
Definition patch_exit (X : externals) (self : project) (t : test_spec)
    (w : world) : Z :=
  (run_process X (patch_call self t w) (fs w)).2.

(** The message logged when the patcher exits with a non-zero code. *)
Definition patch_warning (self : project) (t : test_spec) (w : world)
  : option (level * string) :=
  match relpath (cwd w) (join (dir self) [executable t] +:+ ".bc") "." with
  | Some r => Some (WARNING, "patching of " +:+ r +:+ " returned non-zero code")
  | None => None
  end.

(** The world in which [Backend.build_test] looks for [.patched.bc]. *)
Definition after_patch_step (X : externals) (self : project) (t : test_spec)
    (w : world) : world :=
  if Z.eqb (patch_exit X self t w) 0 then after_patch X self t w
  else match patch_warning self t w with
       | Some (lv, msg) => add_log lv msg (after_patch X self t w)
       | None => after_patch X self t w
       end.

(** ** Concrete worlds, projects and external tools *)

Module Run.

(** A compiler wrapper that reports one blank line in the messages file
    and fails; a failing command that reports nothing; a patcher that
    writes its output and exits with a non-zero code all the same; any
    other command succeeds and changes nothing. *)
Definition run (call : proc_call) (f : gmap string node)
  : gmap string node * Z :=
  match pc_command call with
  | Shell cmd =>
      if String.eqb cmd "report-blank" then
        match pc_env call !! "ANGELIX_COMPILER_MESSAGES" with
        | Some m => (<[m := File (String "010" EmptyString)]> f, 1%Z)
        | None => (f, 1%Z)
        end
      else if String.eqb cmd "false" then (f, 1%Z)
      else (f, 0%Z)
  | Argv args =>
      match args with
      | [prog; bc] =>
          if String.eqb prog "angelix-patch-bitcode"
          then (<["/proj/bin/t1.patched.bc" := File "patched"]> f, 3%Z)
          else (f, 0%Z)
      | _ => (f, 0%Z)
      end
  end.

Definition rec1 : dict :=
  {[ "directory" := "/proj/src"; "file" := "/proj/src/a.c";
     "command" := "cc -c a.c" ]}.

(** A record of a compiler run in the project root itself. *)
Definition rec_root : dict :=
  {[ "directory" := "/proj"; "file" := "/proj/src/a.c";
     "command" := "cc -c src/a.c" ]}.

(** A stand-in for the JSON text of a record: its three fields. *)
Definition render (d : dict) : string :=
  default "?" (d !! "directory") +:+ "|" +:+ default "?" (d !! "file")
  +:+ "|" +:+ default "?" (d !! "command").

Definition X : externals :=
  {| run_process := run;
     cannot_start := fun _ _ => None;
     mkdtemp_name := fun _ => "/tmp/tmpk3";
     json_load := fun s =>
       if String.eqb s "db" then Some [rec1]
       else if String.eqb s "db-root" then Some [rec_root]
       else None;
     json_dump := fun db => String.concat ";" (map render db) |}.

Definition w0 : world :=
  {| fs := {[ "/proj" := Dir; "/proj/bug.c" := File "int x;";
              "/proj/bin/t1.bc" := File "bitcode";
              "/proj/compile_commands.json" := File "db" ]};
     cwd := "/home/user";
     environ := {[ "CC" := "gcc"; "LLVM3_INCLUDE_PATH" := "/opt/llvm3/include" ]};
     heap := ∅;
     log := [];
     spawned := [] |}.

(** The same, with the database of a build in the project root. *)
Definition w_root : world :=
  set_fs (<["/proj/compile_commands.json" := File "db-root"]> (fs w0)) w0.

(** The buggy file after the repair search has changed its third line,
    and the backup. *)
Definition w_diff : world :=
  set_fs (<["/proj/bug.c" := File "A
A
A
A
A
A
"]> (<["/proj/bug.c.backup" := File "A
A
B
A
A
A
"]> (fs w0))) w0.

Definition t1 : test_spec := {| build_step := None; executable := "bin/t1" |}.

Definition proj (configure_ : option string) : project :=
  {| stderr := DEVNULL; dir := "/proj"; buggy := "bug.c";
     build_cmd := "make"; configure_cmd := configure_;
     tests_spec := {[ "t1" := t1 ]};
     _buggy_backup := "/proj/bug.c.backup" |}.

(** A project in the current directory whose test names no executable. *)
Definition t_empty : test_spec := {| build_step := None; executable := "" |}.

Definition proj_here : project :=
  {| stderr := DEVNULL; dir := ""; buggy := "bug.c";
     build_cmd := "make"; configure_cmd := None;
     tests_spec := {[ "t" := t_empty ]};
     _buggy_backup := "bug.c.backup" |}.

End Run.

(** ** [configure] and the buggy file *)

(** The child process [configure] starts for the command [cmd]. *)
Definition configure_call (self : project) (cmd : string) (w : world)
  : proc_call :=
  {| pc_command := Shell cmd;
     pc_cwd := abspath (cwd w) (dir self);
     pc_env := environ w;
     pc_stderr := stderr self |}.

(** What the repair search may do to the buggy file between builds. *)
Inductive mutation :=
| Overwrite (content : string)
| Remove.

Definition mutate (self : project) (m : mutation) (w : world) : world :=
  let path := join (dir self) [buggy self] in
  set_fs (match m with
          | Overwrite c => <[path := File c]> (fs w)
          | Remove => delete path (fs w)
          end) w.

Definition mutate_all (self : project) (ms : list mutation) (w : world) : world :=
  fold_left (fun w m => mutate self m w) ms w.

(** [n] calls of [restore_buggy] in a row. *)
Definition restore_times (n : nat) (self : project) : M unit :=
  for_each (replicate n tt) (fun _ => restore_buggy self).

(** ** The compilation database *)

(** The body of the loop of [import_compilation_db]. *)
Definition import_item (self : project) (item : nat) : M unit :=
  d <- dict_getitem (Obj item) "directory" ;;
  dict_setitem (Obj item) "directory" (join (dir self) [d]) ;;
  f <- dict_getitem (Obj item) "file" ;;
  dict_setitem (Obj item) "file" (join (dir self) [f]) ;;
  c <- dict_getitem (Obj item) "command" ;;
  inc <- dict_getitem Environ "LLVM3_INCLUDE_PATH" ;;
  dict_setitem (Obj item) "command" (c +:+ " -I" +:+ inc).

(** Two worlds that differ in the heap and the files at most, where the
    objects of [h0] are in both as they are in [h0]. *)
Definition heap_frame (h0 : gmap nat dict) (w w' : world) : Prop :=
  cwd w' = cwd w /\ environ w' = environ w /\
  log w' = log w /\ spawned w' = spawned w /\
  (h0 ⊆ heap w -> h0 ⊆ heap w').

(** ** Paths *)

(** No separator occurs in [s]. *)
Fixpoint sep_free (s : string) : bool :=
  match s with
  | EmptyString => true
  | String c r => negb (Ascii.eqb c "/") && sep_free r
  end.

(** A name that [normpath] keeps as it is. *)
Definition proper (c : string) : Prop :=
  c <> "" /\ c <> "." /\ c <> ".." /\ sep_free c = true.

(** The components [normpath] is left with. *)
Definition norm_comps (path : string) : list string :=
  fold_left (norm_step (initial_slashes path)) (split_sep path) [].

(** A name that may be joined to a path with a separator. *)
Definition component (c : string) : Prop := c <> "" /\ sep_free c = true.

(** ** The round trip of the compilation database *)

(** The body of the loop of [export_compilation_db]. *)
Definition export_item (self : project) (item : nat) : M unit :=
  d <- dict_getitem (Obj item) "directory" ;;
  d' <- os_path_relpath_from d (dir self) ;;
  dict_setitem (Obj item) "directory" d' ;;
  f <- dict_getitem (Obj item) "file" ;;
  f' <- os_path_relpath_from f (dir self) ;;
  dict_setitem (Obj item) "file" f'.

(** What [export_compilation_db] makes of one record. *)
Definition export_record (cwd_ root : string) (rec : dict) : option dict :=
  d ← rec !! "directory" ;
  d' ← relpath cwd_ d root ;
  f ← rec !! "file" ;
  f' ← relpath cwd_ f root ;
  Some (<["file" := f']> (<["directory" := d']> rec)).

(** What [import_compilation_db] makes of one record. *)
Definition import_record (root inc : string) (rec : dict) : option dict :=
  d ← rec !! "directory" ;
  f ← rec !! "file" ;
  c ← rec !! "command" ;
  Some (<["command" := c +:+ " -I" +:+ inc]>
          (<["file" := join root [f]]>
             (<["directory" := join root [d]]> rec))).

(** A record whose [directory] and [file] are absolute paths that start
    with as many slashes as the root (one, or exactly two), and that has a
    [command]. *)
Definition abs_record (root : string) (rec : dict) : Prop :=
  exists d f c,
    rec !! "directory" = Some d /\ rec !! "file" = Some f /\
    rec !! "command" = Some c /\
    isabs d = true /\ isabs f = true /\
    initial_slashes d = initial_slashes root /\
    initial_slashes f = initial_slashes root.

(** [p] is a normalised path strictly below the normalised [root]. *)
Definition below (root p : string) : Prop :=
  normpath root = root /\ normpath p = p /\
  exists rest, rest <> "" /\ startswith rest "/" = false /\ p = join root [rest].

(** What the round trip makes of a record [rec]: [out]. *)
Definition round_trip (root inc : string) (rec out : dict) : Prop :=
  exists d f c d' f',
    rec !! "directory" = Some d /\ rec !! "file" = Some f /\
    rec !! "command" = Some c /\
    out !! "directory" = Some d' /\ out !! "file" = Some f' /\
    out !! "command" = Some (c +:+ " -I" +:+ inc) /\
    (forall k, k <> "directory" -> k <> "file" -> k <> "command" ->
               out !! k = rec !! k) /\
    normpath d' = normpath d /\ normpath f' = normpath f /\
    (below root d -> d' = d) /\ (below root f -> f' = f).

(** The intercepted build at the start of [export_compilation_db]. *)
Definition bear_build (X : externals) (self : project) (w : world)
  : result unit * world :=
  build_in_env X (dir self) ("bear " +:+ build_cmd self) (stderr self) Environ
    (add_log INFO "building json compilation database from validation source" w).

(** ** [difflib]: matches, regions and the lines of a diff *)

Section SameSequenceTerms.
Variable a : list string.

(** The element at [j] is in [b2j]. *)
Definition anchor_at (j : nat) : bool :=
  match a !! j with
  | Some x => negb (popular a x)
  | None => false
  end.

(** The length of the run of anchors that ends at [j]. *)
Fixpoint run (j : nat) : nat :=
  match j with
  | 0 => if anchor_at 0 then 1 else 0
  | S j' => if anchor_at j then S (run j') else 0
  end.

(** The same for the position before [j]. *)
Definition run_before (j : nat) : nat :=
  match j with
  | 0 => 0
  | S j' => run j'
  end.

(** One round of the inner loop, away from [blo] and [bhi]. *)
Definition inner_step (i : nat) (j2len : gmap nat nat)
    (st : gmap nat nat * block) (j : nat) : gmap nat nat * block :=
  let k := j2len_prev j2len j + 1 in
  (<[j := k]> st.1, if (st.2.2 <? k)%nat then (i + 1 - k, j + 1 - k, k) else st.2).

(** What the search knows after the rows before [i]. *)
Definition row_inv (i : nat) (j2len : gmap nat nat) (best : block) : Prop :=
  best.1.1 = best.1.2 /\
  best.1.1 + best.2 <= i /\
  (forall j, j2len_prev j2len j <= run_before j) /\
  (forall j, j2len_prev j2len j <= run_before i) /\
  j2len_prev j2len i = run_before i /\
  (forall j, j < i -> run j <= best.2).

(** The entries the inner loop writes. *)
Definition inner_entries (j2len : gmap nat nat) (js : list nat)
    (m : gmap nat nat) : gmap nat nat :=
  fold_left (fun m j => <[j := j2len_prev j2len j + 1]> m) js m.

End SameSequenceTerms.

Section MatchingTerms.
Variables a b : list string.

(** [a[i:i+k] == b[j:j+k]], all of it inside the sequences. *)
Definition matches (i j k : nat) : Prop :=
  forall t, t < k -> same_at a b (i + t) (j + t) = true.

(** A block inside the region [a[alo:ahi]], [b[blo:bhi]]. *)
Definition in_region (alo ahi blo bhi : nat) (blk : block) : Prop :=
  alo <= blk.1.1 /\ blk.1.1 + blk.2 <= ahi /\
  blo <= blk.1.2 /\ blk.1.2 + blk.2 <= bhi /\
  matches blk.1.1 blk.1.2 blk.2.

(** The entries of [j2len] before row [i]: matches that end at [a[i-1]]. *)
Definition j2len_ok (alo blo i : nat) (j2len : gmap nat nat) : Prop :=
  forall j k, j2len !! j = Some k ->
    1 <= k /\ k <= i /\ k <= j + 1 /\ alo <= i - k /\ blo <= j + 1 - k /\
    matches (i - k) (j + 1 - k) k.

End MatchingTerms.

(** Every element is related to every later one. *)
Fixpoint pairwise {A} (P : A -> A -> Prop) (l : list A) : Prop :=
  match l with
  | [] => True
  | x :: r => Forall (P x) r /\ pairwise P r
  end.

(** A region [(alo, ahi, blo, bhi)], or the rectangle a block covers. *)
Definition rect : Type := nat * nat * nat * nat.

Definition rect_of (blk : block) : rect :=
  let '(i, j, k) := blk in (i, i + k, j, j + k).

(** [r1] lies before [r2] in both sequences. *)
Definition before (r1 r2 : rect) : Prop :=
  let '(_, ahi1, _, bhi1) := r1 in
  let '(alo2, _, blo2, _) := r2 in
  ahi1 <= alo2 /\ bhi1 <= blo2.

Definition compat (r1 r2 : rect) : Prop := before r1 r2 \/ before r2 r1.

(** [r'] lies inside [r]. *)
Definition inside (r r' : rect) : Prop :=
  let '(alo, ahi, blo, bhi) := r in
  let '(alo', ahi', blo', bhi') := r' in
  alo <= alo' /\ ahi' <= ahi /\ blo <= blo' /\ bhi' <= bhi.

Section MatchingBlocksTerms.
Variables a b : list string.

(** A block that was found: not empty, and it matches. *)
Definition found (blk : block) : Prop :=
  1 <= blk.2 /\ matches a b blk.1.1 blk.1.2 blk.2.

(** A region that may be searched. *)
Definition region_ok (r : rect) : Prop :=
  let '(alo, ahi, blo, bhi) := r in
  alo <= ahi /\ ahi <= length a /\ blo <= bhi.

Definition loop_inv (queue : list rect) (blocks : list block) : Prop :=
  Forall found blocks /\ Forall region_ok queue /\
  pairwise compat (map rect_of blocks ++ queue).

End MatchingBlocksTerms.

(** [mb] is a list of matching blocks in increasing order in both sequences,
    none of them starting before [(i, j)]. *)
Fixpoint ordered_from (a b : list string) (i j : nat) (mb : list block) : Prop :=
  match mb with
  | [] => True
  | (ai, bj, size) :: r =>
      i <= ai /\ j <= bj /\ matches a b ai bj size /\
      ordered_from a b (ai + size) (bj + size) r
  end.

(** The lines of [a] an opcode removes, the lines of [b] it adds, and the
    lines it keeps. *)
Definition op_removed (a : list string) (c : opcode) : list string :=
  let '(t, i1, i2, _, _) := c in
  match t with Replace | Delete => slice a i1 i2 | _ => [] end.

Definition op_added (b : list string) (c : opcode) : list string :=
  let '(t, _, _, j1, j2) := c in
  match t with Replace | Insert => slice b j1 j2 | _ => [] end.

Definition op_kept (a : list string) (c : opcode) : list string :=
  let '(t, i1, i2, _, _) := c in
  match t with Equal => slice a i1 i2 | _ => [] end.

Definition removed_of (a : list string) (ops : list opcode) : list string :=
  concat (map (op_removed a) ops).

Definition added_of (b : list string) (ops : list opcode) : list string :=
  concat (map (op_added b) ops).

Definition kept_of (a : list string) (ops : list opcode) : list string :=
  concat (map (op_kept a) ops).

(** The lines a diff marks with [-], and those it marks with [+]. *)
Definition removed_lines (dl : list diff_line) : list string :=
  concat (map (fun l => match l with Removed x => [x] | _ => [] end) dl).

Definition added_lines (dl : list diff_line) : list string :=
  concat (map (fun l => match l with Added x => [x] | _ => [] end) dl).

(** The opcode, if any, for what lies between two blocks. *)
Definition gap_ops (i ai j bj : nat) : list opcode :=
  if (i <? ai)%nat && (j <? bj)%nat then [(Replace, i, ai, j, bj)]
  else if (i <? ai)%nat then [(Delete, i, ai, j, bj)]
  else if (j <? bj)%nat then [(Insert, i, ai, j, bj)]
  else [].

(** A bound on the rounds a region of the queue can cause. *)
Definition weight (r : rect) : nat :=
  let '(alo, ahi, _, _) := r in 2 * (ahi - alo) + 1.

Definition total_weight (queue : list rect) : nat :=
  foldr (fun r n => weight r + n) 0 queue.

(** ** Construction, [configure] and the builds of the variants *)

(** What [configure] logs first. *)
Definition configure_message (self : project) : string :=
  "configuring " +:+ basename (dir self) +:+ " source".

(** The world when [configure] has run a command that exited with code
    zero, or had no command to run. *)
Definition after_configure (X : externals) (self : project) (w : world)
  : world :=
  match configure_cmd self with
  | None => add_log INFO (configure_message self) w
  | Some cmd =>
      {| fs := (run_process X (configure_call self cmd w) (fs w)).1;
         cwd := cwd w; environ := environ w; heap := heap w;
         log := log w ++ [(INFO, configure_message self)];
         spawned := spawned w ++ [configure_call self cmd w] |}
  end.

(** Method dispatch of [build] on the class of [self]. *)
Definition build (X : externals) (v : variant) : project -> M unit :=
  match v with
  | Validation => Validation_build X
  | Frontend => Frontend_build X
  | Backend => Backend_build X
  | Golden => Golden_build X
  end.

(** The compiler a variant builds with: the value it overrides [CC] with,
    if it does. *)
Definition compiler (v : variant) : option string :=
  match v with
  | Validation => None
  | Frontend | Golden => Some "angelix-compiler --test"
  | Backend => Some "angelix-compiler --klee"
  end.

(** What [build] logs first. *)
Definition build_message (v : variant) : string :=
  match v with
  | Validation => "building validation source"
  | Frontend => "building frontend source"
  | Backend => "building backend source"
  | Golden => "building golden source"
  end.

(** The warning of [build_in_env] for the exit code of the child; [r] is
    the relative path of the directory. *)
Definition exit_warning (code : Z) (r : string) : list (level * string) :=
  if Z.eqb code 0 then []
  else [(WARNING, "compilation of " +:+ r +:+ " returned non-zero code")].

(** The warnings of [build_in_env] for the paths of the messages file. *)
Definition file_warnings (rs : list string) : list (level * string) :=
  map (fun r => (WARNING, "failed to build " +:+ r)) rs.

(** The lines [build_in_env] reads from the messages file: none when the
    file is not there. *)
Definition message_lines (f : gmap string node) (messages : string)
  : option (list string) :=
  match fs_lookup f messages with
  | Some (File c) => Some (lines_of (translate_newlines c))
  | Some Dir => None
  | None => Some []
  end.

(** [w] with the entries [l] added to the log. *)
Definition add_logs (l : list (level * string)) (w : world) : world :=
  {| fs := fs w; cwd := cwd w; environ := environ w; heap := heap w;
     log := log w ++ l; spawned := spawned w |}.

(** Two worlds that differ in the heap at most. *)
Definition heap_only (w w' : world) : Prop :=
  fs w' = fs w /\ cwd w' = cwd w /\ environ w' = environ w /\
  log w' = log w /\ spawned w' = spawned w.

(** A record whose [directory] and [file] are relative paths. *)
Definition relative_record (rec : dict) : Prop :=
  exists d f,
    rec !! "directory" = Some d /\ rec !! "file" = Some f /\
    isabs d = false /\ isabs f = false.

(** ** More concrete worlds *)

Module Cases.

Definition cfg : config := {| verbose := false |}.

(** [Run.w0] after the construction of a project for [/proj/bug.c]. *)
Definition w_backup : world :=
  set_fs (<["/proj/bug.c.backup" := File "int x;"]> (fs Run.w0)) Run.w0.

(** A project whose buggy file is given by an absolute path. *)
Definition proj_abs : project :=
  {| stderr := DEVNULL; dir := "/elsewhere"; buggy := "/proj/bug.c";
     build_cmd := "make"; configure_cmd := None;
     tests_spec := {[ "t1" := Run.t1 ]};
     _buggy_backup := "/proj/bug.c.backup" |}.

(** A build that fails on one file: it reports the file in the messages
    file, with blanks around the path, and exits with code 2. *)
Definition run_reporting (call : proc_call) (f : gmap string node)
  : gmap string node * Z :=
  match pc_command call, pc_env call !! "ANGELIX_COMPILER_MESSAGES" with
  | Shell _, Some m => (<[m := File "  /proj/src/a.c  
"]> f, 2%Z)
  | _, _ => (f, 0%Z)
  end.

Definition X_reporting : externals :=
  {| run_process := run_reporting;
     cannot_start := fun _ _ => None;
     mkdtemp_name := fun _ => "/tmp/tmpq7";
     json_load := fun _ => None;
     json_dump := fun _ => EmptyString |}.

(** The tools of [Run.X] without the bitcode patcher: a program given by
    an argument vector is not found. *)
Definition X_no_patcher : externals :=
  {| run_process := Run.run;
     cannot_start := fun call _ =>
       match pc_command call with
       | Argv _ => Some NotFound
       | Shell _ => None
       end;
     mkdtemp_name := mkdtemp_name Run.X;
     json_load := json_load Run.X;
     json_dump := json_dump Run.X |}.

(** The test executable of [t1] has been built. *)
Definition w_built : world :=
  set_fs (<["/proj/bin/t1" := File "elf"]> (fs Run.w0)) Run.w0.

(** The bitcode of [t1] is missing, a patched bitcode of an earlier build
    is still there. *)
Definition w_stale : world :=
  set_fs (<["/proj/bin/t1.patched.bc" := File "stale"]>
            (delete "/proj/bin/t1.bc" (fs Run.w0))) Run.w0.

(** [LLVM3_INCLUDE_PATH] is not set. *)
Definition w_no_include : world :=
  set_heap {[ 0 := Run.rec1 ]} (set_environ {[ "CC" := "gcc" ]} Run.w0).

(** A database object on the heap. *)
Definition w_record : world := set_heap {[ 0 := Run.rec1 ]} Run.w0.

End Cases.

(** * Properties *)

Ltac py_unfold :=
  unfold require_dependency, tests_spec_getitem, readlines, copyfile,
    dict_copy in *;
  unfold bind, ret, raise, try_except, get, put, logger_log, exists_,
    read_file, write_file, alloc, dict_getitem, dict_setitem, mkdtemp,
    check_output, cd, os_path_relpath, os_path_relpath_from in *.

Section Basics.

Lemma is_empty_true (s : string) : is_empty s = true <-> s = "".
Proof. destruct s; simpl; split; congruence. Qed.

Lemma is_empty_false (s : string) : is_empty s = false <-> s <> "".
Proof. destruct s; simpl; split; congruence. Qed.

Lemma relpath_is_Some (c s st : string) :
  s <> "" -> is_Some (relpath c s st).
Proof.
  intros Hs. unfold relpath.
  apply is_empty_false in Hs. rewrite Hs.
  destruct (_ ++ _); eauto.
Qed.

Lemma relpath_empty (c st : string) : relpath c "" st = None.
Proof. reflexivity. Qed.

Lemma append_nil_l (s : string) : "" +:+ s = s.
Proof. reflexivity. Qed.

Lemma append_cons (c : ascii) (s t : string) :
  String c s +:+ t = String c (s +:+ t).
Proof. reflexivity. Qed.

Lemma append_nonempty_r (s t : string) : t <> "" -> s +:+ t <> "".
Proof.
  destruct s; [by rewrite append_nil_l | by rewrite append_cons].
Qed.

Lemma length_append (s t : string) :
  String.length (s +:+ t) = String.length s + String.length t.
Proof.
  induction s as [|c s IH]; [done|].
  rewrite append_cons. simpl. by rewrite IH.
Qed.

Lemma append_suffix_neq (s t : string) : t <> "" -> s +:+ t <> s.
Proof.
  intros Ht E. apply (f_equal String.length) in E.
  rewrite length_append in E. destruct t; [congruence | simpl in E; lia].
Qed.

End Basics.

Lemma only_logged_refl w : only_logged w w.
Proof. repeat split; exists []; by rewrite app_nil_r. Qed.

Lemma only_logged_trans w1 w2 w3 :
  only_logged w1 w2 -> only_logged w2 w3 -> only_logged w1 w3.
Proof.
  intros (?&?&?&?&?&e1&?) (?&?&?&?&?&e2&?).
  repeat split; try congruence.
  exists (e1 ++ e2). rewrite app_assoc. congruence.
Qed.

Lemma only_logged_add_log lv msg w : only_logged w (add_log lv msg w).
Proof. repeat split; by exists [(lv, msg)]. Qed.

Lemma for_each_cons {A} (x : A) (r : list A) (body : A -> M unit) (w : world) :
  for_each (x :: r) body w =
  match body x w with
  | (Ok _, w') => for_each r body w'
  | (Raise e, w') => (Raise e, w')
  end.
Proof. reflexivity. Qed.

Lemma report_line_eq (line : string) (w : world) :
  report_line line w =
  match relpath (cwd w) (strip line) "." with
  | Some r => (Ok tt, add_log WARNING ("failed to build " +:+ r) w)
  | None => (Raise ValueError, w)
  end.
Proof. unfold report_line. py_unfold. by destruct (relpath _ _ _). Qed.

Lemma for_each_report_line (lines : list string) (w : world) :
  only_logged w (for_each lines report_line w).2 /\
  ((for_each lines report_line w).1 = Ok tt \/
   (for_each lines report_line w).1 = Raise ValueError) /\
  (Forall (fun l => strip l <> "") lines ->
   (for_each lines report_line w).1 = Ok tt).
Proof.
  revert w. induction lines as [|l lines IH]; intros w.
  - split; [apply only_logged_refl|]. split; auto.
  - rewrite for_each_cons, report_line_eq.
    destruct (relpath (cwd w) (strip l) ".") as [r|] eqn:E.
    + destruct (IH (add_log WARNING ("failed to build " +:+ r) w))
        as (Hf & Hr & Hok).
      split; [eapply only_logged_trans; [apply only_logged_add_log|exact Hf]|].
      split; [exact Hr|]. intros HF. inversion HF; subst. auto.
    + split; [apply only_logged_refl|]. split; [auto|].
      intros HF. inversion HF; subst.
      destruct (relpath_is_Some (cwd w) (strip l) ".") as [? ?]; congruence.
Qed.

(** ** [build_in_env], unfolded *)

Lemma chdir_error_dir (f : gmap string node) (d : string) :
  fs_lookup f d = Some Dir -> chdir_error f d = None.
Proof. unfold chdir_error. by intros ->. Qed.

Lemma chdir_error_cases (f : gmap string node) (d : string) :
  (fs_lookup f d = Some Dir /\ chdir_error f d = None) \/
  chdir_error f d = Some (FileNotFoundError d) \/
  chdir_error f d = Some (NotADirectoryError d).
Proof. unfold chdir_error. destruct (fs_lookup f d) as [[c|]|]; auto. Qed.

Lemma fs_lookup_insert_dir (f : gmap string node) (p d : string) :
  fs_lookup f d = Some Dir -> fs_lookup (<[p := Dir]> f) d = Some Dir.
Proof.
  unfold fs_lookup. destruct (is_empty d); [done|]. intros H.
  destruct (decide (p = d)) as [->|Hne];
    [by rewrite lookup_insert_eq | by rewrite lookup_insert_ne].
Qed.

(** [build_in_env] in full: the directory cannot be entered and the
    exception of [os.chdir] gets through, or the child process runs. *)
Lemma build_in_env_cases X dir_ cmd stderr_ env w :
  build_in_env X dir_ cmd stderr_ env w =
  match chdir_error (<[mkdtemp_name X (fs w) := Dir]> (fs w)) dir_ with
  | Some e => (Raise e, before_build X env w)
  | None =>
      let w1 := after_build X dir_ cmd stderr_ env w in
      let messages := join (mkdtemp_name X (fs w)) ["messages"] in
      if Z.eqb (build_exit X dir_ cmd stderr_ env w) 0 then
        report_messages messages w1
      else
        match relpath (cwd w) dir_ "." with
        | Some r =>
            report_messages messages
              (add_log WARNING
                 ("compilation of " +:+ r +:+ " returned non-zero code") w1)
        | None => (Raise ValueError, w1)
        end
  end.
Proof.
  unfold build_in_env, after_build, before_build, build_exit, build_call,
    report_messages.
  py_unfold. unfold start_failure, chdir_error. simpl.
  rewrite !lookup_insert_eq. simpl.
  replace (deref (set_fs (<[mkdtemp_name X (fs w):=Dir]> (fs w)) w) env)
    with (deref w env) by (by destruct env).
  destruct (fs_lookup (<[mkdtemp_name X (fs w):=Dir]> (fs w)) dir_)
    as [[c|]|]; try reflexivity.
  destruct (run_process X _ _) as [f code] eqn:Erun. simpl.
  destruct (Z.eqb code 0); simpl; [|destruct (relpath _ _ _); simpl];
    try reflexivity.
  all: destruct (fs_lookup f _) as [[c|]|] eqn:Ef; simpl;
      rewrite ?Ef; try reflexivity.
Qed.

(** [build_in_env] in a directory that is there. *)
Lemma build_in_env_eq X dir_ cmd stderr_ env w :
  fs_lookup (fs w) dir_ = Some Dir ->
  build_in_env X dir_ cmd stderr_ env w =
  let w1 := after_build X dir_ cmd stderr_ env w in
  let messages := join (mkdtemp_name X (fs w)) ["messages"] in
  if Z.eqb (build_exit X dir_ cmd stderr_ env w) 0 then
    report_messages messages w1
  else
    match relpath (cwd w) dir_ "." with
    | Some r =>
        report_messages messages
          (add_log WARNING
             ("compilation of " +:+ r +:+ " returned non-zero code") w1)
    | None => (Raise ValueError, w1)
    end.
Proof.
  intros Hd. rewrite build_in_env_cases.
  by rewrite (chdir_error_dir _ _ (fs_lookup_insert_dir _ _ _ Hd)).
Qed.

Lemma report_messages_spec (messages : string) (w : world) :
  only_logged w (report_messages messages w).2 /\
  ((report_messages messages w).1 = Ok tt \/
   (report_messages messages w).1 = Raise ValueError \/
   (report_messages messages w).1 = Raise (IsADirectoryError messages)).
Proof.
  unfold report_messages.
  destruct (fs_lookup (fs w) messages) as [[c|]|].
  - destruct (for_each_report_line (lines_of (translate_newlines c)) w)
      as (H1 & [H2|H2] & _); auto.
  - split; [apply only_logged_refl | auto].
  - split; [apply only_logged_refl | auto].
Qed.

Lemma report_messages_clean (messages : string) (w : world) :
  messages_clean (fs w) messages -> (report_messages messages w).1 = Ok tt.
Proof.
  unfold messages_clean, report_messages.
  destruct (fs_lookup (fs w) messages) as [[c|]|]; try done.
  intros H. by apply for_each_report_line.
Qed.

Lemma build_with_cc_eq X dir_ cmd stderr_ cc w :
  build_with_cc X dir_ cmd stderr_ cc w =
  build_in_env X dir_ cmd stderr_ (Obj (fresh (dom (heap w)))) (cc_world cc w).
Proof.
  unfold build_with_cc, cc_world. py_unfold. simpl.
  by rewrite lookup_insert_eq.
Qed.

Lemma deref_cc_world cc w :
  deref (cc_world cc w) (Obj (fresh (dom (heap w)))) = <["CC" := cc]> (environ w).
Proof. unfold cc_world. simpl. by rewrite lookup_insert_eq. Qed.

(** After the child process has exited, [build_in_env] only logs. *)
Lemma build_in_env_only_logged X dir_ cmd stderr_ env w :
  fs_lookup (fs w) dir_ = Some Dir ->
  only_logged (after_build X dir_ cmd stderr_ env w)
    (build_in_env X dir_ cmd stderr_ env w).2.
Proof.
  intros Hd. rewrite build_in_env_eq by done. cbv zeta.
  destruct (Z.eqb _ 0).
  - apply report_messages_spec.
  - destruct (relpath _ _ _).
    + eapply only_logged_trans; [apply only_logged_add_log|].
      apply report_messages_spec.
    + apply only_logged_refl.
Qed.

(** What [build_in_env] can raise: the exceptions of the messages file,
    and those of [os.chdir]. *)
Lemma build_in_env_result X dir_ cmd stderr_ env w :
  let r := (build_in_env X dir_ cmd stderr_ env w).1 in
  r = Ok tt \/ r = Raise ValueError \/
  r = Raise (IsADirectoryError (join (mkdtemp_name X (fs w)) ["messages"])) \/
  r = Raise (FileNotFoundError dir_) \/
  r = Raise (NotADirectoryError dir_).
Proof.
  rewrite build_in_env_cases. cbv zeta.
  destruct (chdir_error_cases (<[mkdtemp_name X (fs w) := Dir]> (fs w)) dir_)
    as [[_ ->]|[-> | ->]]; [|by auto|by auto].
  assert (Hrep : forall w1,
    let r := (report_messages (join (mkdtemp_name X (fs w)) ["messages"]) w1).1
    in r = Ok tt \/ r = Raise ValueError \/
       r = Raise (IsADirectoryError (join (mkdtemp_name X (fs w)) ["messages"]))
       \/ r = Raise (FileNotFoundError dir_) \/
       r = Raise (NotADirectoryError dir_)).
  { intros w1.
    destruct (report_messages_spec
                (join (mkdtemp_name X (fs w)) ["messages"]) w1)
      as (_ & [H|[H|H]]); cbv zeta; rewrite H; auto. }
  destruct (Z.eqb _ 0); [apply Hrep|].
  destruct (relpath _ _ _); [apply Hrep | auto].
Qed.

(** Whatever happens, [build_in_env] leaves the current directory and
    [os.environ] as they were. *)
Lemma build_in_env_cwd_environ X dir_ cmd stderr_ env w :
  cwd (build_in_env X dir_ cmd stderr_ env w).2 = cwd w /\
  environ (build_in_env X dir_ cmd stderr_ env w).2 = environ w.
Proof.
  rewrite build_in_env_cases. cbv zeta.
  destruct (chdir_error _ _); [done|].
  assert (Hrep : forall w1,
    cwd w1 = cwd w -> environ w1 = environ w ->
    let w2 := (report_messages (join (mkdtemp_name X (fs w)) ["messages"])
                 w1).2 in
    cwd w2 = cwd w /\ environ w2 = environ w).
  { intros w1 Hc He.
    destruct (report_messages_spec
                (join (mkdtemp_name X (fs w)) ["messages"]) w1)
      as ((_ & Hc' & He' & _) & _). cbv zeta. by rewrite Hc', He'. }
  destruct (Z.eqb _ 0); [by apply Hrep|].
  destruct (relpath _ _ _); [by apply Hrep | done].
Qed.

Lemma fs_lookup_nonempty_path (f : gmap string node) (p : string) (n : node) :
  fs_lookup f p = Some n -> p <> "".
Proof. unfold fs_lookup. by destruct p. Qed.

(** [build_in_env] returns normally when the directory is there and the
    messages file is clean. *)
Lemma build_in_env_ok X dir_ cmd stderr_ env w :
  fs_lookup (fs w) dir_ = Some Dir ->
  messages_clean (fs (after_build X dir_ cmd stderr_ env w))
    (join (mkdtemp_name X (fs w)) ["messages"]) ->
  (build_in_env X dir_ cmd stderr_ env w).1 = Ok tt.
Proof.
  intros Hd Hm. rewrite build_in_env_eq by done. cbv zeta.
  destruct (Z.eqb _ 0).
  - by apply report_messages_clean.
  - destruct (relpath_is_Some (cwd w) dir_ "."
                (fs_lookup_nonempty_path _ _ _ Hd)) as [r ->].
    by apply report_messages_clean.
Qed.

(** ** [build_test] *)

Lemma require_dependency_eq (test_case dependency : string) (w : world) :
  require_dependency test_case dependency w =
  if bool_decide (present w dependency) then (Ok tt, w)
  else match relpath (cwd w) dependency "." with
       | Some r =>
           (Raise CompilationError,
            add_log ERROR ("failed to build test " +:+ test_case +:+
                           " dependency " +:+ r) w)
       | None => (Raise ValueError, w)
       end.
Proof.
  unfold present. py_unfold. simpl.
  destruct (bool_decide _); [done|].
  by destruct (relpath _ _ _).
Qed.

Lemma require_dependency_spec (test_case dependency : string) (w : world) :
  let rw := require_dependency test_case dependency w in
  only_logged w rw.2 /\
  (rw.1 = Ok tt -> present w dependency) /\
  (present w dependency -> rw = (Ok tt, w)) /\
  (dependency <> "" -> ~ present w dependency -> rw.1 = Raise CompilationError) /\
  (rw.1 = Raise CompilationError -> ~ present w dependency).
Proof.
  cbv zeta. rewrite require_dependency_eq.
  destruct (bool_decide (present w dependency)) eqn:E.
  - apply bool_decide_eq_true in E. simpl.
    split; [apply only_logged_refl|]. repeat split; try done.
  - apply bool_decide_eq_false in E.
    destruct (relpath (cwd w) dependency ".") as [r|] eqn:Er; simpl.
    + split; [apply only_logged_add_log|]. repeat split; try done.
    + split; [apply only_logged_refl|]. repeat split; try done.
      intros Hd. destruct (relpath_is_Some (cwd w) dependency "." Hd).
      congruence.
Qed.

Lemma present_only_logged w w' p :
  only_logged w w' -> present w' p <-> present w p.
Proof. intros (Hf & _). unfold present. by rewrite Hf. Qed.

Lemma build_test_eq X v self test_case t w :
  tests_spec self !! test_case = Some t ->
  build_test X v self test_case w =
  match sub_build X v self t w with
  | (Ok _, w1) =>
      match v with
      | Backend =>
          (require_dependency test_case
             (join (dir self) [executable t] +:+ ".bc") ;;
           try_except
             (check_output X
                (Argv ["angelix-patch-bitcode";
                       join (dir self) [executable t] +:+ ".bc"]) None
                (stderr self))
             (fun e =>
                match e with
                | CalledProcessError _ => Some (
                    r <- os_path_relpath
                           (Str (join (dir self) [executable t] +:+ ".bc")) ;;
                    logger_log WARNING
                      ("patching of " +:+ r +:+ " returned non-zero code"))
                | _ => None
                end) ;;
           require_dependency test_case
             (join (dir self) [executable t] +:+ ".patched.bc")) w1
      | _ => require_dependency test_case (join (dir self) [executable t]) w1
      end
  | (Raise e, w1) => (Raise e, w1)
  end.
Proof.
  intros Ht.
  destruct v; simpl;
    unfold Validation_build_test, Frontend_build_test, Backend_build_test,
      Golden_build_test, sub_build, tests_spec_getitem;
    rewrite Ht; unfold bind at 1, ret at 1;
    unfold bind at 1;
    destruct (build_step t) as [[directory command]|]; try reflexivity.
  all: match goal with |- context [build_in_env ?a ?b ?c ?d ?e ?f] =>
         destruct (build_in_env a b c d e f) as [[[]|] ?] end ||
       match goal with |- context [build_with_cc ?a ?b ?c ?d ?e ?f] =>
         destruct (build_with_cc a b c d e f) as [[[]|] ?] end.
  all: reflexivity.
Qed.

Lemma bc_nonempty (s suffix : string) : suffix <> "" -> s +:+ suffix <> "".
Proof. apply append_nonempty_r. Qed.

Lemma patch_start_None X self t w :
  cannot_start X (patch_call self t w) (fs w) = None ->
  patch_start X self t w = None.
Proof. unfold patch_start, start_failure. simpl. by intros ->. Qed.

(** The patch step: the patcher cannot be started and the exception of
    [subprocess] gets through, or it runs and its exit code is at most a
    warning. *)
Lemma patch_step_eq X self t w :
  try_except
    (check_output X
       (Argv ["angelix-patch-bitcode"; join (dir self) [executable t] +:+ ".bc"])
       None (stderr self))
    (fun e =>
       match e with
       | CalledProcessError _ => Some (
           r <- os_path_relpath
                  (Str (join (dir self) [executable t] +:+ ".bc")) ;;
           logger_log WARNING
             ("patching of " +:+ r +:+ " returned non-zero code"))
       | _ => None
       end) w =
  match patch_start X self t w with
  | Some e => (Raise e, w)
  | None =>
      (Ok tt,
       if Z.eqb (patch_exit X self t w) 0 then after_patch X self t w
       else match patch_warning self t w with
            | Some (lv, msg) => add_log lv msg (after_patch X self t w)
            | None => after_patch X self t w
            end)
  end.
Proof.
  unfold patch_start, patch_exit, after_patch, patch_warning, patch_call.
  py_unfold. unfold start_failure. simpl.
  destruct (cannot_start X _ _) as [[|]|]; [done|done|].
  destruct (run_process X _ _) as [f code]. simpl.
  destruct (Z.eqb code 0); [done|]. simpl.
  destruct (relpath_is_Some (cwd w)
              (join_step (dir self) (executable t) +:+ ".bc") ".") as [r ->];
    [by apply append_nonempty_r | done].
Qed.

Lemma patch_step_fs X self t w :
  patch_start X self t w = None ->
  fs (try_except
    (check_output X
       (Argv ["angelix-patch-bitcode"; join (dir self) [executable t] +:+ ".bc"])
       None (stderr self))
    (fun e =>
       match e with
       | CalledProcessError _ => Some (
           r <- os_path_relpath
                  (Str (join (dir self) [executable t] +:+ ".bc")) ;;
           logger_log WARNING
             ("patching of " +:+ r +:+ " returned non-zero code"))
       | _ => None
       end) w).2 = fs (after_patch X self t w).
Proof.
  intros Hs. rewrite patch_step_eq, Hs. simpl.
  destruct (Z.eqb _ 0); [done|]. by destruct (patch_warning _ _ _) as [[]|].
Qed.

(** C10. [build_test] on a test case that is not in the test specification
    raises [KeyError] for it, whatever the variant, and the world is as it
    was: no process was started, no file looked up, nothing logged. *)
Theorem build_test_unknown_test_case
    (X : externals) (v : variant) (self : project) (test_case : string)
    (w : world) :
  tests_spec self !! test_case = None ->
  build_test X v self test_case w = (Raise (KeyError test_case), w).
Proof.
  intros H.
  destruct v; simpl;
    unfold Validation_build_test, Frontend_build_test, Backend_build_test,
      Golden_build_test, tests_spec_getitem;
    rewrite H; reflexivity.
Qed.

Lemma only_logged_In w w' e :
  only_logged w w' -> In e (log w) -> In e (log w').
Proof.
  intros (_&_&_&_&_&extra&->) H. apply in_or_app. by left.
Qed.

Lemma after_patch_step_only_logged X self t w :
  only_logged (after_patch X self t w) (after_patch_step X self t w).
Proof.
  unfold after_patch_step. destruct (Z.eqb _ 0); [apply only_logged_refl|].
  destruct (patch_warning _ _ _) as [[]|];
    [apply only_logged_add_log | apply only_logged_refl].
Qed.

(** [Backend.build_test] after the sub-build. *)
Lemma backend_build_test_eq X self test_case t w w1 :
  tests_spec self !! test_case = Some t ->
  sub_build X Backend self t w = (Ok tt, w1) ->
  build_test X Backend self test_case w =
  if bool_decide (present w1 (join (dir self) [executable t] +:+ ".bc")) then
    match patch_start X self t w1 with
    | Some e => (Raise e, w1)
    | None =>
        require_dependency test_case
          (join (dir self) [executable t] +:+ ".patched.bc")
          (after_patch_step X self t w1)
    end
  else
    require_dependency test_case (join (dir self) [executable t] +:+ ".bc") w1.
Proof.
  intros Ht Hsub.
  rewrite (build_test_eq X Backend self test_case t w Ht), Hsub.
  destruct (require_dependency_spec test_case
              (join (dir self) [executable t] +:+ ".bc") w1)
    as (_ & Hok & Hpres & Hraise & _).
  case_bool_decide as Hbc.
  - unfold bind at 1. rewrite (Hpres Hbc).
    unfold bind at 1. rewrite patch_step_eq.
    by destruct (patch_start X self t w1).
  - unfold bind at 1.
    specialize (Hraise (append_nonempty_r _ ".bc" ltac:(done)) Hbc).
    destruct (require_dependency _ _ w1) as [[[]|e] w']; simpl in *; congruence.
Qed.

(** C6, amended. [Backend.build_test], once the sub-build has run, the
    [.bc] artifact exists and the patcher is a program that can be started:
    it raises [CompilationError] exactly when the [.patched.bc] artifact is
    missing after the patcher has run, and returns normally exactly when it is
    there; a non-zero exit code of the patcher only adds a warning to the
    log. *)
Theorem backend_build_test_patched
    (X : externals) (self : project) (test_case : string) (t : test_spec)
    (w w1 : world) :
  tests_spec self !! test_case = Some t ->
  sub_build X Backend self t w = (Ok tt, w1) ->
  present w1 (join (dir self) [executable t] +:+ ".bc") ->
  cannot_start X (patch_call self t w1) (fs w1) = None ->
  let rw := build_test X Backend self test_case w in
  let patched := join (dir self) [executable t] +:+ ".patched.bc" in
  fs rw.2 = fs (after_patch X self t w1) /\
  (rw.1 = Raise CompilationError <-> ~ present (after_patch X self t w1) patched) /\
  (rw.1 = Ok tt <-> present (after_patch X self t w1) patched) /\
  (patch_exit X self t w1 <> 0%Z ->
   exists msg, patch_warning self t w1 = Some (WARNING, msg) /\
               In (WARNING, msg) (log rw.2)).
Proof.
  intros Ht Hsub Hbc Hstart. cbv zeta.
  rewrite (backend_build_test_eq X self test_case t w w1 Ht Hsub).
  rewrite bool_decide_eq_true_2 by done.
  rewrite (patch_start_None X self t w1 Hstart).
  pose proof (after_patch_step_only_logged X self t w1) as Hfs.
  destruct (require_dependency_spec test_case
              (join (dir self) [executable t] +:+ ".patched.bc")
              (after_patch_step X self t w1))
    as (Hlog & Hok & Hpres2 & Hraise & Hraise').
  split; [|split; [|split]].
  - destruct Hlog as (-> & _). apply Hfs.
  - rewrite <- (present_only_logged _ _ _ Hfs). split; [apply Hraise'|].
    apply Hraise. by apply append_nonempty_r.
  - rewrite <- (present_only_logged _ _ _ Hfs). split; [apply Hok|].
    intros Hp. by rewrite (Hpres2 Hp).
  - intros Hne.
    destruct (relpath_is_Some (cwd w1)
                (join (dir self) [executable t] +:+ ".bc") ".") as [r Hr];
      [by apply append_nonempty_r|].
    exists ("patching of " +:+ r +:+ " returned non-zero code").
    split; [unfold patch_warning; by rewrite Hr|].
    eapply only_logged_In; [exact Hlog|].
    unfold after_patch_step. apply Z.eqb_neq in Hne. rewrite Hne.
    unfold patch_warning. rewrite Hr. simpl.
    apply in_or_app. right. by left.
Qed.

(** C1, amended. For every variant and every test case [t] of the test
    specification: when [build_test] returns normally the terminal artifact
    exists; and when the sub-build step, if any, has returned normally, the
    path of the test's executable is not empty and, for [Backend], the
    patcher is a program that can be started, a missing terminal artifact
    makes [build_test] raise [CompilationError]. *)
Theorem build_test_artifact
    (X : externals) (v : variant) (self : project) (test_case : string)
    (t : test_spec) (w : world) :
  tests_spec self !! test_case = Some t ->
  let rw := build_test X v self test_case w in
  (rw.1 = Ok tt -> present rw.2 (terminal_artifact v self t)) /\
  ((sub_build X v self t w).1 = Ok tt ->
   join (dir self) [executable t] <> "" ->
   (v = Backend ->
    cannot_start X (patch_call self t (sub_build X v self t w).2)
      (fs (sub_build X v self t w).2) = None) ->
   ~ present rw.2 (terminal_artifact v self t) ->
   rw.1 = Raise CompilationError).
Proof.
  intros Ht. cbv zeta.
  destruct (sub_build X v self t w) as [[[]|e] w1] eqn:Hsub.
  2:{ rewrite (build_test_eq X v self test_case t w Ht), Hsub. simpl.
      split; intros; congruence. }
  assert (Hsimple : v <> Backend ->
    build_test X v self test_case w =
    require_dependency test_case (join (dir self) [executable t]) w1 /\
    terminal_artifact v self t = join (dir self) [executable t]).
  { intros Hv. rewrite (build_test_eq X v self test_case t w Ht), Hsub.
    by destruct v. }
  destruct (decide (v = Backend)) as [->|Hv].
  - rewrite (backend_build_test_eq X self test_case t w w1 Ht Hsub). simpl.
    case_bool_decide as Hbc.
    + destruct (patch_start X self t w1) as [e|] eqn:Hstart.
      { split; [done|]. intros _ _ Hs _.
        rewrite (patch_start_None X self t w1 (Hs eq_refl)) in Hstart.
        done. }
      destruct (require_dependency_spec test_case
                  (join (dir self) [executable t] +:+ ".patched.bc")
                  (after_patch_step X self t w1))
        as (Hlog & Hok & _ & Hraise & _).
      split.
      * intros H. apply (present_only_logged _ _ _ Hlog). auto.
      * intros _ _ _ Hn. apply Hraise; [by apply append_nonempty_r|].
        intros Hp. apply Hn. by apply (present_only_logged _ _ _ Hlog).
    + destruct (require_dependency_spec test_case
                  (join (dir self) [executable t] +:+ ".bc") w1)
        as (_ & Hok & _ & Hraise & _).
      split; [intros H; by apply Hok in H|].
      intros _ _ _ _. apply Hraise; [by apply append_nonempty_r | done].
  - destruct (Hsimple Hv) as [-> ->].
    destruct (require_dependency_spec test_case
                (join (dir self) [executable t]) w1)
      as (Hlog & Hok & _ & Hraise & _).
    split.
    + intros H. apply (present_only_logged _ _ _ Hlog). auto.
    + intros _ Hne _ Hn. apply Hraise; [done|].
      intros Hp. apply Hn. by apply (present_only_logged _ _ _ Hlog).
Qed.

(** ** [build_test] and [build_in_env] on concrete runs *)

(** C1 as stated fails: a project in the current directory whose test names
    the empty path as executable. The artifact is missing, and what
    [build_test] raises is the [ValueError] of [relpath], met while the error
    message was being built. *)
Lemma build_test_empty_path_counterexample :
  ~ (forall (X : externals) (v : variant) (self : project)
            (test_case : string) (t : test_spec) (w : world),
        tests_spec self !! test_case = Some t ->
        let rw := build_test X v self test_case w in
        (rw.1 = Ok tt -> present rw.2 (terminal_artifact v self t)) /\
        (~ present rw.2 (terminal_artifact v self t) ->
         rw.1 = Raise CompilationError)).
Proof.
  intros H.
  destruct (H Run.X Validation Run.proj_here "t" Run.t_empty Run.w0
              ltac:(reflexivity)) as [_ H2].
  assert (E : (build_test Run.X Validation Run.proj_here "t" Run.w0).1
              = Raise ValueError) by (vm_compute; reflexivity).
  rewrite E in H2. discriminate H2.
  intros [x Hx]. vm_compute in Hx. discriminate Hx.
Qed.

Lemma build_test_artifact_witness :
  let rw := build_test Run.X Validation (Run.proj None) "t1" Run.w0 in
  (rw.1 = Ok tt ->
   present rw.2 (terminal_artifact Validation (Run.proj None) Run.t1)) /\
  ((sub_build Run.X Validation (Run.proj None) Run.t1 Run.w0).1 = Ok tt ->
   join (dir (Run.proj None)) [executable Run.t1] <> "" ->
   (Validation = Backend ->
    cannot_start Run.X
      (patch_call (Run.proj None) Run.t1
         (sub_build Run.X Validation (Run.proj None) Run.t1 Run.w0).2)
      (fs (sub_build Run.X Validation (Run.proj None) Run.t1 Run.w0).2)
    = None) ->
   ~ present rw.2 (terminal_artifact Validation (Run.proj None) Run.t1) ->
   rw.1 = Raise CompilationError).
Proof.
  apply (build_test_artifact Run.X Validation (Run.proj None) "t1" Run.t1 Run.w0).
  reflexivity.
Defined.

Lemma backend_build_test_patched_witness :
  let rw := build_test Run.X Backend (Run.proj None) "t1" Run.w0 in
  let patched := join (dir (Run.proj None)) [executable Run.t1] +:+ ".patched.bc" in
  fs rw.2 = fs (after_patch Run.X (Run.proj None) Run.t1 Run.w0) /\
  (rw.1 = Raise CompilationError <->
   ~ present (after_patch Run.X (Run.proj None) Run.t1 Run.w0) patched) /\
  (rw.1 = Ok tt <->
   present (after_patch Run.X (Run.proj None) Run.t1 Run.w0) patched) /\
  (patch_exit Run.X (Run.proj None) Run.t1 Run.w0 <> 0%Z ->
   exists msg, patch_warning (Run.proj None) Run.t1 Run.w0 = Some (WARNING, msg) /\
               In (WARNING, msg) (log rw.2)).
Proof.
  apply (backend_build_test_patched Run.X (Run.proj None) "t1" Run.t1
           Run.w0 Run.w0).
  - reflexivity.
  - reflexivity.
  - vm_compute. eexists. reflexivity.
  - reflexivity.
Defined.

(** C6 as stated fails: the [.bc] artifact is there, the patcher is not
    installed. [subprocess] raises [FileNotFoundError], which the handler
    for [CalledProcessError] lets through: the [.patched.bc] artifact is
    missing, and what [build_test] raises is not [CompilationError]. *)
Lemma backend_build_test_no_patcher_counterexample :
  ~ (forall (X : externals) (self : project) (test_case : string)
            (t : test_spec) (w w1 : world),
        tests_spec self !! test_case = Some t ->
        sub_build X Backend self t w = (Ok tt, w1) ->
        present w1 (join (dir self) [executable t] +:+ ".bc") ->
        let rw := build_test X Backend self test_case w in
        rw.1 = Raise CompilationError <->
        ~ present rw.2 (join (dir self) [executable t] +:+ ".patched.bc")).
Proof.
  intros H.
  destruct (H Cases.X_no_patcher (Run.proj None) "t1" Run.t1 Run.w0 Run.w0
              ltac:(reflexivity) ltac:(reflexivity)
              ltac:(vm_compute; eexists; reflexivity)) as [_ H2].
  assert (E : build_test Cases.X_no_patcher Backend (Run.proj None) "t1" Run.w0
              = (Raise (FileNotFoundError "angelix-patch-bitcode"), Run.w0))
    by (vm_compute; reflexivity).
  rewrite E in H2. simpl in H2.
  assert (Hraise : Raise (A := unit) (FileNotFoundError "angelix-patch-bitcode")
                   = Raise CompilationError).
  { apply H2. intros [x Hx]. vm_compute in Hx. discriminate Hx. }
  discriminate Hraise.
Qed.

Lemma build_test_unknown_test_case_witness :
  build_test Run.X Golden (Run.proj None) "t2" Run.w0
  = (Raise (KeyError "t2"), Run.w0).
Proof.
  apply (build_test_unknown_test_case Run.X Golden (Run.proj None) "t2" Run.w0).
  reflexivity.
Defined.

(** C4 as stated fails: the command exits with a non-zero code after
    reporting a blank line in the messages file, and [build_in_env] raises
    the [ValueError] of [relpath]. *)
Lemma build_in_env_blank_message_counterexample :
  ~ (forall (X : externals) (dir_ cmd : string) (stderr_ : stderr_policy)
            (env : dict_ref) (w : world),
        build_exit X dir_ cmd stderr_ env w <> 0%Z ->
        (build_in_env X dir_ cmd stderr_ env w).1 = Ok tt).
Proof.
  intros H.
  specialize (H Run.X "/proj" "report-blank" DEVNULL Environ Run.w0).
  assert (E : (build_in_env Run.X "/proj" "report-blank" DEVNULL Environ
                 Run.w0).1 = Raise ValueError) by (vm_compute; reflexivity).
  rewrite E in H. discriminate H. vm_compute. discriminate.
Qed.

(** C4, amended. When the command run by [build_in_env] in a directory
    that is there exits with a non-zero code, and the messages file it
    leaves is absent or a regular file without blank lines, [build_in_env]
    returns normally, and the log has grown by a warning that names the
    directory, followed by the warnings of the messages file. *)
Theorem build_in_env_nonzero_exit
    (X : externals) (dir_ cmd : string) (stderr_ : stderr_policy)
    (env : dict_ref) (w : world) :
  fs_lookup (fs w) dir_ = Some Dir ->
  build_exit X dir_ cmd stderr_ env w <> 0%Z ->
  messages_clean (fs (after_build X dir_ cmd stderr_ env w))
    (join (mkdtemp_name X (fs w)) ["messages"]) ->
  let rw := build_in_env X dir_ cmd stderr_ env w in
  rw.1 = Ok tt /\
  exists r extra,
    relpath (cwd w) dir_ "." = Some r /\
    log rw.2 =
    log w ++ (WARNING, "compilation of " +:+ r +:+ " returned non-zero code")
          :: extra.
Proof.
  intros Hd Hx Hm. cbv zeta.
  split; [by apply build_in_env_ok|].
  rewrite build_in_env_eq by done. cbv zeta.
  apply Z.eqb_neq in Hx. rewrite Hx.
  destruct (relpath_is_Some (cwd w) dir_ "."
              (fs_lookup_nonempty_path _ _ _ Hd)) as [r Hr]. rewrite Hr.
  exists r.
  destruct (report_messages_spec (join (mkdtemp_name X (fs w)) ["messages"])
    (add_log WARNING ("compilation of " +:+ r +:+ " returned non-zero code")
       (after_build X dir_ cmd stderr_ env w)))
    as ((_&_&_&_&_&extra&Hlog) & _).
  exists extra. split; [done|].
  rewrite Hlog. simpl. by rewrite <- app_assoc.
Qed.

Lemma build_in_env_nonzero_exit_witness :
  let rw := build_in_env Run.X "/proj" "false" DEVNULL Environ Run.w0 in
  rw.1 = Ok tt /\
  exists r extra,
    relpath (cwd Run.w0) "/proj" "." = Some r /\
    log rw.2 =
    log Run.w0 ++
    (WARNING, "compilation of " +:+ r +:+ " returned non-zero code") :: extra.
Proof.
  apply (build_in_env_nonzero_exit Run.X "/proj" "false" DEVNULL Environ Run.w0).
  - reflexivity.
  - vm_compute. discriminate.
  - vm_compute. exact I.
Defined.

(** ** [configure] *)

(** C5 fails on the code. With a configure command that is run in the
    directory of the project and exits with a non-zero code, the handler of
    [configure] evaluates [relpath(dir)], where [dir] is Python's built-in
    function, and [configure] raises [TypeError] instead of logging the
    warning. *)
Theorem configure_nonzero_exit_raises
    (X : externals) (self : project) (cmd : string) (w : world) :
  configure_cmd self = Some cmd ->
  fs_lookup (fs w) (dir self) = Some Dir ->
  (run_process X (configure_call self cmd w) (fs w)).2 <> 0%Z ->
  (configure X self w).1 = Raise TypeError.
Proof.
  intros Hc Hd Hx. unfold configure, configure_call in *. rewrite Hc.
  py_unfold. unfold start_failure, chdir_error. simpl in *. rewrite Hd.
  destruct (run_process X _ _) as [f code]. simpl in *.
  apply Z.eqb_neq in Hx. by rewrite Hx.
Qed.

Lemma configure_nonzero_exit_raises_witness :
  (configure Run.X (Run.proj (Some "false")) Run.w0).1 = Raise TypeError.
Proof.
  apply (configure_nonzero_exit_raises Run.X (Run.proj (Some "false")) "false"
           Run.w0).
  - reflexivity.
  - reflexivity.
  - vm_compute. discriminate.
Defined.

Lemma build_in_env_environ X dir_ cmd stderr_ env w :
  environ (build_in_env X dir_ cmd stderr_ env w).2 = environ w.
Proof. apply build_in_env_cwd_environ. Qed.

Lemma build_in_env_spawned X dir_ cmd stderr_ env w :
  fs_lookup (fs w) dir_ = Some Dir ->
  spawned (build_in_env X dir_ cmd stderr_ env w).2 =
  spawned w ++ [build_call X dir_ cmd stderr_ env w].
Proof.
  intros Hd.
  by destruct (build_in_env_only_logged X dir_ cmd stderr_ env w Hd)
    as (_ & _ & _ & _ & -> & _).
Qed.

(** The child processes of [build_in_env]: the one it starts in the
    directory, or none when the directory cannot be entered. *)
Lemma build_in_env_children X dir_ cmd stderr_ env w :
  exists calls,
    spawned (build_in_env X dir_ cmd stderr_ env w).2 = spawned w ++ calls /\
    (fs_lookup (fs w) dir_ = Some Dir -> length calls = 1) /\
    Forall (fun call => call = build_call X dir_ cmd stderr_ env w) calls.
Proof.
  rewrite build_in_env_cases. cbv zeta.
  destruct (chdir_error (<[mkdtemp_name X (fs w) := Dir]> (fs w)) dir_)
    as [e|] eqn:Hc.
  - exists []. simpl. rewrite app_nil_r. split; [done|]. split; [|done].
    intros Hd.
    by rewrite (chdir_error_dir _ _ (fs_lookup_insert_dir _ _ _ Hd)) in Hc.
  - exists [build_call X dir_ cmd stderr_ env w].
    split; [|split; [done | by constructor]].
    assert (Hrep : forall w1,
      spawned w1 = spawned w ++ [build_call X dir_ cmd stderr_ env w] ->
      spawned (report_messages (join (mkdtemp_name X (fs w)) ["messages"])
                 w1).2
      = spawned w ++ [build_call X dir_ cmd stderr_ env w]).
    { intros w1 Hs.
      destruct (report_messages_spec
                  (join (mkdtemp_name X (fs w)) ["messages"]) w1)
        as ((_ & _ & _ & _ & Hs' & _) & _). by rewrite Hs'. }
    destruct (Z.eqb _ 0); [by apply Hrep|].
    destruct (relpath _ _ _); [by apply Hrep | done].
Qed.

(** ** [build_with_cc] *)

(** C7. Every child process [build_with_cc] starts, and it starts one when
    the directory is there, is started with [CC] set to the override and
    with the messages-file variable, every other variable as in [os.environ];
    [os.environ] itself is afterwards what it was, and a build that follows
    with the default environment starts its child with the caller's own
    [CC]. *)
Theorem build_with_cc_environment
    (X : externals) (dir_ cmd : string) (stderr_ : stderr_policy)
    (cc : string) (w : world) :
  let w' := (build_with_cc X dir_ cmd stderr_ cc w).2 in
  environ w' = environ w /\
  (exists calls,
     spawned w' = spawned w ++ calls /\
     (fs_lookup (fs w) dir_ = Some Dir -> length calls = 1) /\
     Forall (fun call =>
       pc_command call = Shell cmd /\
       pc_env call !! "CC" = Some cc /\
       pc_env call !! "ANGELIX_COMPILER_MESSAGES"
         = Some (join (mkdtemp_name X (fs w)) ["messages"]) /\
       (forall k, k <> "CC" -> k <> "ANGELIX_COMPILER_MESSAGES" ->
                  pc_env call !! k = environ w !! k)) calls) /\
  (forall dir2 cmd2 stderr2,
     let w'' := (build_in_env X dir2 cmd2 stderr2 Environ w').2 in
     environ w'' = environ w /\
     exists calls2,
       spawned w'' = spawned w' ++ calls2 /\
       (fs_lookup (fs w') dir2 = Some Dir -> length calls2 = 1) /\
       Forall (fun call2 => pc_env call2 !! "CC" = environ w !! "CC") calls2).
Proof.
  cbv zeta. rewrite build_with_cc_eq.
  split; [by rewrite build_in_env_environ|]. split.
  - destruct (build_in_env_children X dir_ cmd stderr_
                (Obj (fresh (dom (heap w)))) (cc_world cc w))
      as (calls & Hs & Hone & Hall).
    exists calls. split; [exact Hs|]. split; [exact Hone|].
    eapply Forall_impl; [exact Hall|]. intros call ->.
    unfold build_call. cbn [pc_command pc_env].
    rewrite deref_cc_world.
    split; [done|]. split; [by simplify_map_eq|].
    split; [by simplify_map_eq|]. intros k H1 H2. by simplify_map_eq.
  - intros dir2 cmd2 stderr2.
    split; [by rewrite !build_in_env_environ|].
    destruct (build_in_env_children X dir2 cmd2 stderr2 Environ
                (build_in_env X dir_ cmd stderr_
                   (Obj (fresh (dom (heap w)))) (cc_world cc w)).2)
      as (calls & Hs & Hone & Hall).
    exists calls. split; [exact Hs|]. split; [exact Hone|].
    eapply Forall_impl; [exact Hall|]. intros call ->.
    unfold build_call. cbn [pc_env deref]. rewrite build_in_env_environ.
    by simplify_map_eq.
Qed.

Lemma build_with_cc_environment_witness :
  let w' := (build_with_cc Run.X "/proj" "make" DEVNULL "angelix-compiler --test"
               Run.w0).2 in
  exists call,
    spawned w' = spawned Run.w0 ++ [call] /\
    pc_command call = Shell "make" /\
    pc_env call !! "CC" = Some "angelix-compiler --test" /\
    environ w' = environ Run.w0.
Proof.
  cbv zeta.
  destruct (build_with_cc_environment Run.X "/proj" "make" DEVNULL
              "angelix-compiler --test" Run.w0)
    as (He & (calls & Hs & Hone & Hall) & _).
  specialize (Hone eq_refl).
  destruct calls as [|call [|call2 calls]]; [discriminate Hone| |discriminate Hone].
  exists call. apply Forall_inv in Hall as (Hc & Hcc & _).
  split; [exact Hs|]. split; [exact Hc|]. split; [exact Hcc | exact He].
Defined.

(** ** The buggy file: backup and restore *)

Lemma init_inv cfg d b bc cc ts w0 self w1 :
  init cfg d b bc cc ts w0 = (Ok self, w1) ->
  exists c,
    dir self = d /\ buggy self = b /\
    _buggy_backup self = join d [b] +:+ ".backup" /\
    join d [b] <> "" /\
    fs w0 !! join d [b] = Some (File c) /\
    w1 = set_fs (<[join d [b] +:+ ".backup" := File c]> (fs w0)) w0.
Proof.
  unfold init. py_unfold. cbn [dir buggy _buggy_backup].
  destruct (String.eqb _ _); [done|].
  unfold fs_lookup.
  destruct (is_empty (join d [b])) eqn:He; [done|].
  destruct (fs w0 !! join d [b]) as [[c|]|] eqn:Hb; try done.
  assert (Hbk : is_empty (join d [b] +:+ ".backup") = false).
  { apply is_empty_false. by apply append_nonempty_r. }
  rewrite Hbk.
  destruct (fs w0 !! (join d [b] +:+ ".backup")) as [[c'|]|]; try done.
  all: intros [= <- <-]; exists c; repeat split; try done.
  all: by apply is_empty_false.
Qed.

Lemma mutate_all_inv self ms w c :
  fs w !! _buggy_backup self = Some (File c) ->
  _buggy_backup self <> join (dir self) [buggy self] ->
  fs w !! join (dir self) [buggy self] <> Some Dir ->
  fs (mutate_all self ms w) !! _buggy_backup self = Some (File c) /\
  fs (mutate_all self ms w) !! join (dir self) [buggy self] <> Some Dir.
Proof.
  revert w. induction ms as [|m ms IH]; intros w Hb Hne Hd; [done|].
  simpl. apply IH; [|done|].
  - destruct m; simpl; [by rewrite lookup_insert_ne | by rewrite lookup_delete_ne].
  - destruct m; simpl; [by rewrite lookup_insert_eq | by rewrite lookup_delete_eq].
Qed.

Lemma restore_buggy_eq self w c :
  fs w !! _buggy_backup self = Some (File c) ->
  _buggy_backup self <> "" ->
  join (dir self) [buggy self] <> "" ->
  _buggy_backup self <> join (dir self) [buggy self] ->
  fs w !! join (dir self) [buggy self] <> Some Dir ->
  restore_buggy self w =
  (Ok tt, set_fs (<[join (dir self) [buggy self] := File c]> (fs w)) w).
Proof.
  intros Hb Hbn Hpn Hne Hd. unfold restore_buggy. py_unfold.
  apply String.eqb_neq in Hne. rewrite Hne.
  unfold fs_lookup.
  rewrite (proj2 (is_empty_false _) Hbn), Hb.
  rewrite (proj2 (is_empty_false _) Hpn).
  by destruct (fs w !! join (dir self) [buggy self]) as [[]|].
Qed.

(** C2. After the project has been constructed and the buggy file has been
    overwritten or removed any number of times, [restore_buggy] returns
    normally and the buggy file holds the content it had at construction;
    calling it once more, or any number of times, changes nothing. *)
Theorem restore_buggy_after_mutations
    (cfg : config) (d b bc : string) (cc : option string)
    (ts : gmap string test_spec) (w0 w1 : world) (self : project)
    (ms : list mutation) :
  init cfg d b bc cc ts w0 = (Ok self, w1) ->
  exists c w3,
    fs_lookup (fs w0) (join d [b]) = Some (File c) /\
    restore_buggy self (mutate_all self ms w1) = (Ok tt, w3) /\
    fs_lookup (fs w3) (join d [b]) = Some (File c) /\
    forall n, restore_times n self w3 = (Ok tt, w3).
Proof.
  intros Hinit.
  destruct (init_inv _ _ _ _ _ _ _ _ _ Hinit)
    as (c & Hd & Hb & Hbk & Hne & Hc & ->).
  assert (Hneq : _buggy_backup self <> join (dir self) [buggy self]).
  { rewrite Hbk, Hd, Hb. by apply append_suffix_neq. }
  assert (Hbne : _buggy_backup self <> "").
  { rewrite Hbk. by apply append_nonempty_r. }
  assert (Hpne : join (dir self) [buggy self] <> "") by (by rewrite Hd, Hb).
  set (w1 := set_fs _ w0) in *.
  destruct (mutate_all_inv self ms w1 c) as [Hm1 Hm2]; [| done | |].
  { subst w1. cbn [fs set_fs]. rewrite Hbk. by rewrite lookup_insert_eq. }
  { subst w1. cbn [fs set_fs]. rewrite lookup_insert_ne.
    - rewrite Hd, Hb, Hc. done.
    - rewrite <- Hbk. exact Hneq. }
  exists c.
  eexists. split; [|split; [|split]].
  - unfold fs_lookup. by rewrite (proj2 (is_empty_false _) Hne).
  - by apply restore_buggy_eq.
  - unfold fs_lookup. rewrite (proj2 (is_empty_false _) Hne).
    cbn [fs set_fs]. rewrite <- Hd, <- Hb. by rewrite lookup_insert_eq.
  - induction n as [|n IH]; [done|].
    unfold restore_times in *. cbn [replicate]. rewrite for_each_cons.
    erewrite restore_buggy_eq; cbn [fs set_fs]; try done.
    + rewrite insert_insert_eq. exact IH.
    + by rewrite lookup_insert_ne.
    + by rewrite lookup_insert_eq.
Qed.

Lemma restore_buggy_after_mutations_witness :
  exists c w3,
    fs_lookup (fs Run.w0) (join "/proj" ["bug.c"]) = Some (File c) /\
    restore_buggy (Run.proj None)
      (mutate_all (Run.proj None) [Overwrite "int y;"; Remove; Overwrite ""]
         (init {| verbose := false |} "/proj" "bug.c" "make" None
            {[ "t1" := Run.t1 ]} Run.w0).2) = (Ok tt, w3) /\
    fs_lookup (fs w3) (join "/proj" ["bug.c"]) = Some (File c) /\
    forall n, restore_times n (Run.proj None) w3 = (Ok tt, w3).
Proof.
  apply (restore_buggy_after_mutations {| verbose := false |} "/proj" "bug.c"
           "make" None {[ "t1" := Run.t1 ]} Run.w0
           (init {| verbose := false |} "/proj" "bug.c" "make" None
              {[ "t1" := Run.t1 ]} Run.w0).2
           (Run.proj None)
           [Overwrite "int y;"; Remove; Overwrite ""]).
  vm_compute. reflexivity.
Defined.

(** ** [import_compilation_db] *)

Lemma heap_frame_refl h0 w : heap_frame h0 w w.
Proof. by repeat split. Qed.

Lemma heap_frame_trans h0 w1 w2 w3 :
  heap_frame h0 w1 w2 -> heap_frame h0 w2 w3 -> heap_frame h0 w1 w3.
Proof.
  intros (?&?&?&?&?) (?&?&?&?&?). repeat split; try congruence. auto.
Qed.

Lemma dict_setitem_frame h0 l k v w :
  h0 !! l = None -> heap_frame h0 w (dict_setitem (Obj l) k v w).2.
Proof.
  intros Hl. repeat split. simpl. intros H. by apply insert_subseteq_r.
Qed.

Lemma import_item_frame h0 self item w :
  h0 !! item = None -> heap_frame h0 w (import_item self item w).2.
Proof.
  intros Hl. unfold import_item.
  unfold bind, dict_getitem.
  destruct (deref w (Obj item) !! "directory") as [d|]; [|apply heap_frame_refl].
  set (w1 := (dict_setitem (Obj item) "directory" (join (dir self) [d]) w).2).
  assert (F1 : heap_frame h0 w w1) by (by apply dict_setitem_frame).
  change (dict_setitem (Obj item) "directory" (join (dir self) [d]) w)
    with (Ok tt, w1).
  cbv iota beta.
  destruct (deref w1 (Obj item) !! "file") as [f|]; [|exact F1].
  set (w2 := (dict_setitem (Obj item) "file" (join (dir self) [f]) w1).2).
  assert (F2 : heap_frame h0 w w2).
  { eapply heap_frame_trans; [exact F1|]. by apply dict_setitem_frame. }
  change (dict_setitem (Obj item) "file" (join (dir self) [f]) w1)
    with (Ok tt, w2).
  cbv iota beta.
  destruct (deref w2 (Obj item) !! "command") as [c|]; [|exact F2].
  destruct (deref w2 Environ !! "LLVM3_INCLUDE_PATH") as [inc|]; [|exact F2].
  eapply heap_frame_trans; [exact F2|]. by apply dict_setitem_frame.
Qed.

Lemma for_each_import_frame h0 self items w :
  Forall (fun l => h0 !! l = None) items ->
  heap_frame h0 w (for_each items (import_item self) w).2.
Proof.
  revert w. induction items as [|l items IH]; intros w HF.
  - apply heap_frame_refl.
  - inversion HF; subst. rewrite for_each_cons.
    pose proof (import_item_frame h0 self l w ltac:(done)) as F.
    destruct (import_item self l w) as [[[]|e] w1]; simpl in F; [|exact F].
    eapply heap_frame_trans; [exact F|]. by apply IH.
Qed.

(** [deepcopy] keeps the objects that are there and returns new ones. *)
Lemma deepcopy_items_spec (h0 : gmap nat dict) items memo h :
  h0 ⊆ h ->
  (forall x y, memo !! x = Some y -> h0 !! y = None) ->
  h0 ⊆ (deepcopy_items items memo h).2 /\
  Forall (fun l => h0 !! l = None) (deepcopy_items items memo h).1.
Proof.
  revert memo h. induction items as [|x items IH]; intros memo h Hsub Hmemo.
  - simpl. by split.
  - simpl. destruct (memo !! x) as [y|] eqn:Hx.
    + destruct (IH memo h Hsub Hmemo) as [H1 H2].
      destruct (deepcopy_items items memo h) as [ys h']. simpl in *.
      split; [done|]. constructor; [by eapply Hmemo | done].
    + assert (Hfresh : h !! fresh (dom h) = None).
      { apply not_elem_of_dom. apply is_fresh. }
      assert (Hfresh0 : h0 !! fresh (dom h) = None).
      { eapply lookup_weaken_None; [exact Hfresh | exact Hsub]. }
      destruct (IH (<[x := fresh (dom h)]> memo)
                  (<[fresh (dom h) := default ∅ (h !! x)]> h)) as [H1 H2].
      { by apply insert_subseteq_r. }
      { intros x' y'. rewrite lookup_insert. case_decide.
        - intros [= <-]. done.
        - apply Hmemo. }
      destruct (deepcopy_items items _ _) as [ys h']. simpl in *.
      split; [done|]. by constructor.
Qed.

(** C9. [import_compilation_db] leaves every object that was on the heap
    before the call as it was, the records of its argument among them, and
    does not touch [os.environ]: what it rewrites are copies. *)
Theorem import_compilation_db_input_unchanged
    (X : externals) (self : project) (compilation_db : list nat) (w : world) :
  let w' := (import_compilation_db X self compilation_db w).2 in
  heap w ⊆ heap w' /\
  Forall (fun item => forall d, heap w !! item = Some d ->
                                heap w' !! item = Some d) compilation_db /\
  environ w' = environ w.
Proof.
  cbv zeta.
  assert (F : heap_frame (heap w) w
                (import_compilation_db X self compilation_db w).2).
  { unfold import_compilation_db. fold (import_item self).
    unfold bind at 1. unfold deepcopy.
    pose proof (deepcopy_items_spec (heap w) compilation_db ∅ (heap w)
                  ltac:(done) ltac:(intros ??; by rewrite lookup_empty))
      as [H1 H2].
    destruct (deepcopy_items compilation_db ∅ (heap w)) as [ys h'].
    simpl in H1, H2.
    assert (F0 : heap_frame (heap w) w (set_heap h' w)) by (by repeat split).
    unfold bind at 1.
    pose proof (for_each_import_frame (heap w) self ys (set_heap h' w) H2) as F1.
    destruct (for_each ys (import_item self) (set_heap h' w)) as [[[]|e] w1];
      simpl in F1; [|by eapply heap_frame_trans].
    eapply heap_frame_trans; [exact F0|].
    eapply heap_frame_trans; [exact F1|].
    unfold json_dump_file. py_unfold.
    destruct (is_empty _); [apply heap_frame_refl|].
    destruct (fs w1 !! _) as [[]|]; simpl; by repeat split. }
  destruct F as (_ & He & _ & _ & Hh). specialize (Hh ltac:(done)).
  split; [done|]. split; [|done].
  apply Forall_forall. intros item _ d Hd.
  eapply lookup_weaken; [exact Hd | exact Hh].
Qed.

(** ** Paths: facts about [split], [join] and [normpath] *)

Section StringFacts.

Lemma append_assoc (s t u : string) : (s +:+ t) +:+ u = s +:+ (t +:+ u).
Proof.
  induction s as [|c s IH]; [done|]. rewrite !append_cons. by rewrite IH.
Qed.

Lemma append_nil_r (s : string) : s +:+ "" = s.
Proof. induction s as [|c s IH]; [done|]. by rewrite append_cons, IH. Qed.

Lemma startswith_sep (s : string) :
  startswith s "/" = match s with
                     | String c _ => Ascii.eqb c "/"
                     | EmptyString => false
                     end.
Proof.
  destruct s as [|c r]; [done|]. unfold startswith.
  change (String.prefix "/" (String c r))
    with (if ascii_dec "/" c then String.prefix "" r else false).
  destruct (ascii_dec "/" c) as [<-|Hne].
  - by destruct r.
  - symmetry. apply Ascii.eqb_neq. congruence.
Qed.

Lemma split_sep_nonnil (s : string) : split_sep s <> [].
Proof.
  induction s as [|c s IH]; simpl; [done|].
  destruct (Ascii.eqb c "/"); [done|]. by destruct (split_sep s).
Qed.

Lemma split_sep_cons_sep (s : string) :
  split_sep (String "/" s) = "" :: split_sep s.
Proof. reflexivity. Qed.

Lemma split_sep_app (s t : string) :
  split_sep (s +:+ String "/" t) = split_sep s ++ split_sep t.
Proof.
  induction s as [|c s IH]; [done|].
  rewrite append_cons. simpl. rewrite IH.
  destruct (Ascii.eqb c "/"); [done|].
  pose proof (split_sep_nonnil s). by destruct (split_sep s).
Qed.

Lemma split_sep_sep_free (s : string) : sep_free s = true -> split_sep s = [s].
Proof.
  induction s as [|c s IH]; [done|]. simpl.
  intros [Hc Hs]%andb_true_iff. apply negb_true_iff in Hc. rewrite Hc.
  by rewrite (IH Hs).
Qed.

Lemma split_sep_all_sep_free (s : string) :
  Forall (fun c => sep_free c = true) (split_sep s).
Proof.
  induction s as [|c s IH]; simpl; [by repeat constructor|].
  destruct (Ascii.eqb c "/") eqn:Hc; [by constructor|].
  pose proof (split_sep_nonnil s).
  destruct (split_sep s) as [|h t]; [done|].
  inversion IH; subst. constructor; [|done]. simpl. by rewrite Hc.
Qed.

Lemma join_sep_cons (x y : string) (l : list string) :
  join_sep (x :: y :: l) = x +:+ String "/" (join_sep (y :: l)).
Proof. reflexivity. Qed.

Lemma join_sep_split (s : string) : join_sep (split_sep s) = s.
Proof.
  induction s as [|c s IH]; [done|]. simpl.
  pose proof (split_sep_nonnil s) as Hn.
  destruct (Ascii.eqb c "/") eqn:Hc.
  - apply Ascii.eqb_eq in Hc as ->.
    destruct (split_sep s) as [|h t]; [done|].
    rewrite join_sep_cons, IH. done.
  - destruct (split_sep s) as [|h t]; [done|].
    destruct t as [|h' t].
    + unfold join_sep in *. simpl in *. by rewrite IH.
    + rewrite join_sep_cons in *. rewrite append_cons. by rewrite IH.
Qed.

Lemma split_join_sep (l : list string) :
  l <> [] -> Forall (fun c => sep_free c = true) l ->
  split_sep (join_sep l) = l.
Proof.
  induction l as [|x l IH]; [done|]. intros _ HF.
  inversion HF as [|? ? Hx Hl]; subst.
  destruct l as [|y l].
  - by apply split_sep_sep_free.
  - rewrite join_sep_cons, split_sep_app, IH by done.
    by rewrite split_sep_sep_free.
Qed.

Lemma sep_free_not_abs (c : string) : sep_free c = true -> startswith c "/" = false.
Proof.
  rewrite startswith_sep. destruct c as [|a r]; [done|]. simpl.
  intros [H _]%andb_true_iff. by apply negb_true_iff.
Qed.

Lemma ends_with_sep_cons (c : ascii) (s : string) :
  s <> "" -> ends_with_sep (String c s) = ends_with_sep s.
Proof. by destruct s. Qed.

Lemma ends_with_sep_app (s t : string) :
  t <> "" -> ends_with_sep (s +:+ t) = ends_with_sep t.
Proof.
  intros Ht. induction s as [|c s IH]; [done|].
  rewrite append_cons, ends_with_sep_cons; [done|].
  by apply append_nonempty_r.
Qed.

Lemma sep_free_not_ends (c : string) : sep_free c = true -> ends_with_sep c = false.
Proof.
  induction c as [|a r IH]; [done|]. simpl.
  intros [Ha Hr]%andb_true_iff. apply negb_true_iff in Ha.
  destruct r; [done | auto].
Qed.

Lemma ends_with_sep_inv (s : string) :
  ends_with_sep s = true -> exists r, s = r +:+ "/".
Proof.
  induction s as [|c s IH]; [done|].
  destruct s as [|c' s'].
  - simpl. intros ->%Ascii.eqb_eq. by exists "".
  - intros H. rewrite ends_with_sep_cons in H by done.
    destruct (IH H) as [r ->]. exists (String c r). by rewrite append_cons.
Qed.

End StringFacts.

Section NormFacts.

Lemma proper_eqb (c : string) :
  proper c ->
  String.eqb c "" = false /\ String.eqb c "." = false /\
  String.eqb c ".." = false.
Proof. intros (?&?&?&?). by rewrite !String.eqb_neq. Qed.

Lemma last_is_dotdot_proper (acc : list string) :
  Forall proper acc -> last_is_dotdot acc = false.
Proof.
  intros HF. unfold last_is_dotdot.
  destruct (last acc) as [x|] eqn:Hl; [|done].
  apply last_Some in Hl as [l' ->].
  apply Forall_app in HF as [_ HF]. inversion HF; subst.
  by apply proper_eqb.
Qed.

Lemma norm_step_proper init acc c :
  proper c -> norm_step init acc c = acc ++ [c].
Proof.
  intros (H1 & H2 & H3)%proper_eqb. unfold norm_step.
  by rewrite H1, H2, H3.
Qed.

Lemma norm_step_skip init acc c :
  c = "" \/ c = "." -> norm_step init acc c = acc.
Proof. by intros [-> | ->]. Qed.

Lemma norm_step_dotdot init acc :
  init <> 0 -> Forall proper acc -> norm_step init acc ".." = removelast acc.
Proof.
  intros Hi HF. unfold norm_step. simpl.
  rewrite (last_is_dotdot_proper acc HF).
  apply Nat.eqb_neq in Hi. rewrite Hi. simpl.
  rewrite andb_false_r. by destruct acc.
Qed.

Lemma Forall_removelast {A} (P : A -> Prop) (l : list A) :
  Forall P l -> Forall P (removelast l).
Proof.
  induction l as [|x l IH]; [done|]. intros HF. inversion HF; subst.
  simpl. destruct l; [constructor|]. constructor; auto.
Qed.

Lemma norm_step_keeps_proper init acc c :
  init <> 0 -> Forall proper acc -> sep_free c = true ->
  Forall proper (norm_step init acc c).
Proof.
  intros Hi HF Hc.
  destruct (String.eqb c "") eqn:E1.
  { apply String.eqb_eq in E1 as ->. by rewrite norm_step_skip by auto. }
  destruct (String.eqb c ".") eqn:E2.
  { apply String.eqb_eq in E2 as ->. by rewrite norm_step_skip by auto. }
  destruct (String.eqb c "..") eqn:E3.
  { apply String.eqb_eq in E3 as ->. rewrite norm_step_dotdot by done.
    by apply Forall_removelast. }
  apply String.eqb_neq in E1, E2, E3.
  rewrite norm_step_proper by done.
  apply Forall_app. split; [done|]. by repeat constructor.
Qed.

Lemma norm_fold_keeps_proper init comps acc :
  init <> 0 -> Forall proper acc ->
  Forall (fun c => sep_free c = true) comps ->
  Forall proper (fold_left (norm_step init) comps acc).
Proof.
  intros Hi. revert acc.
  induction comps as [|c comps IH]; intros acc Ha Hc; [done|].
  inversion Hc; subst. simpl. apply IH; [|done].
  by apply norm_step_keeps_proper.
Qed.

Lemma norm_fold_proper init l acc :
  Forall proper l -> fold_left (norm_step init) l acc = acc ++ l.
Proof.
  revert acc. induction l as [|c l IH]; intros acc HF.
  - by rewrite app_nil_r.
  - inversion HF; subst. simpl. rewrite norm_step_proper by done.
    rewrite IH by done. by rewrite <- app_assoc.
Qed.

Lemma norm_fold_dotdots init acc rest :
  init <> 0 -> Forall proper (acc ++ rest) ->
  fold_left (norm_step init) (replicate (length rest) "..") (acc ++ rest)
  = acc.
Proof.
  intros Hi. induction rest as [|x rest IH] using rev_ind; intros HF.
  - by rewrite app_nil_r.
  - rewrite length_app. simpl. rewrite Nat.add_1_r. simpl.
    rewrite norm_step_dotdot by done.
    rewrite app_assoc, removelast_last.
    apply IH. rewrite app_assoc in HF. by apply Forall_app in HF as [? _].
Qed.

Lemma initial_slashes_abs (p : string) :
  isabs p = true -> initial_slashes p = 1 \/ initial_slashes p = 2.
Proof.
  unfold isabs, initial_slashes. intros ->.
  destruct (_ && _); auto.
Qed.

Lemma isabs_nonempty (p : string) : isabs p = true -> is_empty p = false.
Proof. by destruct p. Qed.

Lemma slashes_cons (n : nat) :
  n = 1 \/ n = 2 -> exists r, slashes n = String "/" r /\ (r = "" \/ r = "/").
Proof. intros [-> | ->]; eexists; split; try reflexivity; auto. Qed.

Lemma normpath_abs (p : string) :
  isabs p = true ->
  normpath p = slashes (initial_slashes p) +:+ join_sep (norm_comps p).
Proof.
  intros Ha. unfold normpath, norm_comps.
  rewrite (isabs_nonempty p Ha).
  destruct (slashes_cons _ (initial_slashes_abs p Ha)) as (r & Hs & _).
  destruct (initial_slashes_abs p Ha) as [E|E]; rewrite E in *;
    cbn [Nat.eqb]; rewrite Hs, append_cons; done.
Qed.

Lemma norm_comps_proper (p : string) :
  isabs p = true -> Forall proper (norm_comps p).
Proof.
  intros Ha. apply norm_fold_keeps_proper; [|constructor|].
  - destruct (initial_slashes_abs p Ha); lia.
  - apply split_sep_all_sep_free.
Qed.

Lemma nonempty_items_proper (l : list string) :
  Forall proper l -> nonempty_items l = l.
Proof.
  induction 1 as [|x l Hx _ IH]; [done|]. unfold nonempty_items in *.
  simpl. destruct Hx as (Hx & _). apply is_empty_false in Hx.
  by rewrite Hx, IH.
Qed.

Lemma proper_sep_free (l : list string) :
  Forall proper l -> Forall (fun c => sep_free c = true) l.
Proof. intros H. eapply Forall_impl; [exact H|]. by intros ? (?&?&?&?). Qed.

Lemma nonempty_items_split_join (l : list string) :
  Forall proper l -> nonempty_items (split_sep (join_sep l)) = l.
Proof.
  intros HF. destruct l as [|x l]; [done|].
  rewrite split_join_sep; [by apply nonempty_items_proper | done |].
  by apply proper_sep_free.
Qed.

(** The list [relpath] works on, for an absolute path. *)
Lemma path_list_abs (cwd p : string) :
  isabs p = true ->
  nonempty_items (split_sep (abspath cwd p)) = norm_comps p.
Proof.
  intros Ha. unfold abspath. rewrite Ha, (normpath_abs p Ha).
  pose proof (norm_comps_proper p Ha) as HF.
  destruct (slashes_cons _ (initial_slashes_abs p Ha)) as (r & -> & [-> | ->]).
  - rewrite append_cons, append_nil_l, split_sep_cons_sep.
    change (nonempty_items ("" :: ?l)) with (nonempty_items l).
    by apply nonempty_items_split_join.
  - rewrite !append_cons, append_nil_l, !split_sep_cons_sep.
    change (nonempty_items ("" :: "" :: ?l)) with (nonempty_items l).
    by apply nonempty_items_split_join.
Qed.

End NormFacts.

Section RelpathFacts.

Lemma list_ltb_asym (a b : list string) :
  list_ltb a b = true -> list_ltb b a = false.
Proof.
  revert b. induction a as [|x a IH]; intros [|y b]; simpl; try done.
  rewrite (String.compare_antisym y x).
  destruct (String.compare x y) eqn:E; simpl; try done. apply IH.
Qed.

Lemma list_ltb_total (a b : list string) :
  list_ltb a b = false -> list_ltb b a = false -> a = b.
Proof.
  revert b. induction a as [|x a IH]; intros [|y b]; simpl; try done.
  rewrite (String.compare_antisym y x).
  destruct (String.compare x y) eqn:E; simpl; try done.
  apply String.compare_eq_iff in E as ->. intros H1 H2. f_equal. by apply IH.
Qed.

Lemma commonprefix_loop_refl (a : list string) : commonprefix_loop a a = a.
Proof.
  induction a as [|x a IH]; [done|]. simpl.
  by rewrite String.eqb_refl, IH.
Qed.

Lemma commonprefix_loop_comm_length (a b : list string) :
  length (commonprefix_loop a b) = length (commonprefix_loop b a).
Proof.
  revert b. induction a as [|x a IH]; intros [|y b]; simpl; try done.
  rewrite (String.eqb_sym y x). destruct (String.eqb x y); [|done].
  simpl. by rewrite IH.
Qed.

Lemma commonprefix_length (a b : list string) :
  length (commonprefix a b) = length (commonprefix_loop a b).
Proof.
  unfold commonprefix.
  destruct (list_ltb b a) eqn:E1, (list_ltb a b) eqn:E2.
  - by rewrite (list_ltb_asym _ _ E1) in E2.
  - apply commonprefix_loop_comm_length.
  - done.
  - by rewrite (list_ltb_total a b E2 E1).
Qed.

Lemma commonprefix_loop_prefix (a b : list string) :
  exists a' b',
    a = commonprefix_loop a b ++ a' /\ b = commonprefix_loop a b ++ b'.
Proof.
  revert b. induction a as [|x a IH]; intros [|y b]; simpl; eauto.
  destruct (String.eqb x y) eqn:E; [|by eauto].
  apply String.eqb_eq in E as ->.
  destruct (IH b) as (a' & b' & Ha & Hb).
  exists a', b'. simpl. by rewrite <- Ha, <- Hb.
Qed.

(** What [relpath] answers for two absolute paths. *)
Lemma relpath_abs (cwd p root : string) :
  isabs p = true -> isabs root = true ->
  exists cp a' b',
    norm_comps root = cp ++ a' /\ norm_comps p = cp ++ b' /\
    relpath cwd p root =
    Some (match replicate (length a') ".." ++ b' with
          | [] => "."
          | x :: r => join x r
          end).
Proof.
  intros Hp Hr. unfold relpath.
  rewrite (isabs_nonempty p Hp), !path_list_abs by done.
  rewrite commonprefix_length.
  destruct (commonprefix_loop_prefix (norm_comps root) (norm_comps p))
    as (a' & b' & Ha & Hb).
  set (cp := commonprefix_loop (norm_comps root) (norm_comps p)) in *.
  exists cp, a', b'. split; [done|]. split; [done|].
  rewrite Ha at 1. rewrite Hb at 1.
  rewrite length_app, drop_app_length.
  replace (length cp + length a' - length cp) with (length a') by lia.
  by destruct (replicate (length a') ".." ++ b').
Qed.

Lemma proper_component (c : string) : proper c -> component c.
Proof. by intros (?&?&?&?). Qed.

Lemma join_step_component (path c : string) :
  path <> "" -> ends_with_sep path = false -> component c ->
  join_step path c = path +:+ String "/" c.
Proof.
  intros Hp He [Hc Hs]. unfold join_step.
  rewrite (sep_free_not_abs c Hs), He.
  by rewrite (proj2 (is_empty_false path) Hp).
Qed.

Lemma join_components_from (path : string) (r : list string) :
  path <> "" -> ends_with_sep path = false -> Forall component r ->
  join path r = join_sep (path :: r).
Proof.
  revert path. induction r as [|c r IH]; intros path Hp He HF; [done|].
  inversion HF as [|? ? Hc Hr]; subst.
  unfold join. simpl. fold (join (join_step path c) r).
  rewrite join_step_component by done.
  rewrite IH; [| by apply append_nonempty_r | | done].
  - destruct r as [|d r]; [done|].
    rewrite !join_sep_cons. rewrite append_assoc. by rewrite append_cons.
  - rewrite ends_with_sep_app by done.
    rewrite ends_with_sep_cons by apply Hc.
    apply sep_free_not_ends, Hc.
Qed.

Lemma join_components (x : string) (r : list string) :
  Forall component (x :: r) -> join x r = join_sep (x :: r).
Proof.
  intros HF. inversion HF as [|? ? [Hx Hs] Hr]; subst.
  apply join_components_from; [done | by apply sep_free_not_ends | done].
Qed.

End RelpathFacts.

Section JoinNormFacts.

Lemma prefix_cons (a b : ascii) (p s : string) :
  String.prefix (String a p) (String b s) =
  Ascii.eqb a b && String.prefix p s.
Proof.
  change (String.prefix (String a p) (String b s))
    with (if ascii_dec a b then String.prefix p s else false).
  destruct (ascii_dec a b) as [->|Hne].
  - by rewrite Ascii.eqb_refl.
  - apply Ascii.eqb_neq in Hne. by rewrite Hne.
Qed.

Lemma prefix_nil (s : string) : String.prefix "" s = true.
Proof. by destruct s. Qed.

Lemma initial_slashes_eq (s : string) :
  initial_slashes s =
  match s with
  | String a r =>
      if Ascii.eqb a "/" then
        match r with
        | String b r2 =>
            if Ascii.eqb b "/" then
              match r2 with
              | String c _ => if Ascii.eqb c "/" then 1 else 2
              | EmptyString => 2
              end
            else 1
        | EmptyString => 1
        end
      else 0
  | EmptyString => 0
  end.
Proof.
  unfold initial_slashes, startswith.
  destruct s as [|a [|b [|c r]]]; try done;
    rewrite ?prefix_cons, ?prefix_nil, ?(Ascii.eqb_sym "/");
    try (destruct (Ascii.eqb a "/"); done);
    try (destruct (Ascii.eqb a "/"), (Ascii.eqb b "/"); done).
  destruct (Ascii.eqb a "/"), (Ascii.eqb b "/"), (Ascii.eqb c "/"); done.
Qed.

Lemma initial_slashes_join_step (root rel : string) :
  isabs root = true -> rel <> "" -> startswith rel "/" = false ->
  initial_slashes (join_step root rel) = initial_slashes root.
Proof.
  intros Ha Hr Hs. unfold join_step. rewrite Hs.
  rewrite (isabs_nonempty root Ha). simpl.
  unfold isabs in Ha. rewrite startswith_sep in Ha, Hs.
  destruct rel as [|x rel]; [done|].
  destruct root as [|a [|b [|c r]]]; [done| | |].
  - simpl. rewrite Ha. rewrite append_cons, append_nil_l.
    rewrite !initial_slashes_eq. by rewrite Ha, Hs.
  - rewrite ends_with_sep_cons by done. simpl.
    destruct (Ascii.eqb b "/") eqn:Hb.
    + rewrite !append_cons, append_nil_l, !initial_slashes_eq.
      by rewrite Ha, Hb, Hs.
    + rewrite !append_cons, !initial_slashes_eq. by rewrite Ha, Hb.
  - destruct (ends_with_sep _); rewrite !append_cons, !initial_slashes_eq;
      done.
Qed.

(** The components of a path are those of [root], then those of [rel]. *)
Lemma norm_fold_join_step init (root rel : string) :
  root <> "" -> startswith rel "/" = false ->
  fold_left (norm_step init) (split_sep (join_step root rel)) [] =
  fold_left (norm_step init) (split_sep rel)
    (fold_left (norm_step init) (split_sep root) []).
Proof.
  intros Hr Hs. unfold join_step. rewrite Hs.
  rewrite (proj2 (is_empty_false root) Hr). simpl.
  destruct (ends_with_sep root) eqn:He.
  - destruct (ends_with_sep_inv root He) as [r0 ->].
    rewrite append_assoc. change ("/" +:+ rel) with (String "/" rel).
    rewrite !split_sep_app, !fold_left_app. by simpl.
  - change ("/" +:+ rel) with (String "/" rel).
    by rewrite split_sep_app, fold_left_app.
Qed.

Lemma norm_comps_join_step (root rel : string) :
  isabs root = true -> rel <> "" -> startswith rel "/" = false ->
  norm_comps (join_step root rel) =
  fold_left (norm_step (initial_slashes root)) (split_sep rel)
    (norm_comps root).
Proof.
  intros Ha Hr Hs. unfold norm_comps.
  rewrite initial_slashes_join_step by done.
  apply norm_fold_join_step; [|done]. by destruct root.
Qed.

Lemma isabs_join_step (root rel : string) :
  isabs root = true -> startswith rel "/" = false ->
  isabs (join_step root rel) = true.
Proof.
  intros Ha Hs. unfold join_step. rewrite Hs.
  destruct root as [|a r]; [done|].
  unfold isabs in *. rewrite startswith_sep in *.
  destruct (_ || _); by rewrite append_cons.
Qed.

End JoinNormFacts.

Section RoundTripFacts.

Lemma join_sep_head (x : string) (r : list string) :
  component x ->
  join_sep (x :: r) <> "" /\ startswith (join_sep (x :: r)) "/" = false.
Proof.
  intros [Hx Hs]. destruct x as [|a x]; [done|].
  assert (E : exists t, join_sep (String a x :: r) = String a t).
  { destruct r as [|y r]; [by eexists|].
    rewrite join_sep_cons, append_cons. by eexists. }
  destruct E as [t ->]. split; [done|].
  rewrite startswith_sep. simpl in Hs.
  apply andb_true_iff in Hs as [Hs _]. by apply negb_true_iff.
Qed.

Lemma dotdot_component : component "..".
Proof. by split. Qed.

(** Joining the answer of [relpath] back onto the root gives a path with
    the components of the original. *)
Lemma relpath_join_norm_comps (cwd p root : string) :
  isabs p = true -> isabs root = true ->
  exists rel,
    relpath cwd p root = Some rel /\
    rel <> "" /\ startswith rel "/" = false /\
    norm_comps (join root [rel]) = norm_comps p.
Proof.
  intros Hp Hr.
  destruct (relpath_abs cwd p root Hp Hr) as (cp & a' & b' & Ha & Hb & ->).
  pose proof (norm_comps_proper root Hr) as Pr.
  pose proof (norm_comps_proper p Hp) as Pp.
  rewrite Ha in Pr. rewrite Hb in Pp.
  assert (Pb : Forall proper b') by (by apply Forall_app in Pp as [_ ?]).
  assert (Hi : initial_slashes root <> 0).
  { destruct (initial_slashes_abs root Hr); lia. }
  assert (Hc : Forall component (replicate (length a') ".." ++ b')).
  { apply Forall_app. split.
    - apply Forall_replicate, dotdot_component.
    - eapply Forall_impl; [exact Pb | apply proper_component]. }
  eexists. split; [reflexivity|].
  change (join root [?r]) with (join_step root r).
  destruct (replicate (length a') ".." ++ b') as [|x r] eqn:E.
  - split; [done|]. split; [done|].
    rewrite norm_comps_join_step by done. simpl.
    apply app_eq_nil in E as [E1 ->].
    destruct a'; [|done]. by rewrite Ha, Hb.
  - rewrite (join_components x r Hc).
    inversion Hc as [|? ? Hx _]; subst.
    destruct (join_sep_head x r Hx) as [Hne Hs].
    split; [done|]. split; [done|].
    rewrite norm_comps_join_step by done.
    rewrite split_join_sep;
      [| done | eapply Forall_impl; [exact Hc | by intros ? [? ?]]].
    rewrite <- E, fold_left_app, Ha.
    rewrite norm_fold_dotdots by done.
    rewrite norm_fold_proper by done. by rewrite Hb.
Qed.

(** Export then import of one path, up to [normpath]. *)
Lemma relpath_join_normpath (cwd p root : string) :
  isabs p = true -> isabs root = true ->
  initial_slashes p = initial_slashes root ->
  exists rel,
    relpath cwd p root = Some rel /\
    normpath (join root [rel]) = normpath p.
Proof.
  intros Hp Hr Hi.
  destruct (relpath_join_norm_comps cwd p root Hp Hr)
    as (rel & Hrel & Hne & Hs & Hn).
  exists rel. split; [done|].
  assert (Hj : isabs (join root [rel]) = true)
    by (by apply isabs_join_step).
  rewrite (normpath_abs _ Hj), (normpath_abs _ Hp), Hn.
  change (join root [rel]) with (join_step root rel).
  by rewrite initial_slashes_join_step, Hi.
Qed.

End RoundTripFacts.

Section ExactRoundTrip.

Lemma relpath_abs_eq (cwd p root : string) :
  isabs p = true -> isabs root = true ->
  relpath cwd p root =
  let cp := commonprefix_loop (norm_comps root) (norm_comps p) in
  Some (match replicate (length (norm_comps root) - length cp) ".."
              ++ drop (length cp) (norm_comps p) with
        | [] => "."
        | x :: r => join x r
        end).
Proof.
  intros Hp Hr. unfold relpath.
  rewrite (isabs_nonempty p Hp), !path_list_abs by done.
  rewrite commonprefix_length. cbv zeta.
  by destruct (_ ++ drop _ _).
Qed.

Lemma commonprefix_loop_app (a t : list string) :
  commonprefix_loop a (a ++ t) = a.
Proof.
  induction a as [|x a IH]; [by destruct t|]. simpl.
  by rewrite String.eqb_refl, IH.
Qed.

Lemma join_sep_components (l : list string) :
  l <> [] -> Forall component l ->
  join_sep l <> "" /\ ends_with_sep (join_sep l) = false.
Proof.
  induction l as [|x l IH]; [done|]. intros _ HF.
  inversion HF as [|? ? [Hx Hs] Hl]; subst.
  destruct l as [|y l].
  - split; [done | by apply sep_free_not_ends].
  - destruct (IH ltac:(done) Hl) as [Hne He].
    rewrite join_sep_cons. split; [by apply append_nonempty_r|].
    rewrite ends_with_sep_app by done.
    by rewrite ends_with_sep_cons.
Qed.

Lemma append_inj_l (s t u : string) : s +:+ t = s +:+ u -> t = u.
Proof.
  induction s as [|c s IH]; [done|]. rewrite !append_cons.
  intros [= H]. auto.
Qed.

(** On a normalised root and a normalised path below it, [relpath] gives
    back the very string that was joined to the root. *)
Lemma relpath_join_exact (cwd root rest : string) :
  isabs root = true -> normpath root = root ->
  rest <> "" -> startswith rest "/" = false ->
  normpath (join root [rest]) = join root [rest] ->
  relpath cwd (join root [rest]) root = Some rest.
Proof.
  intros Hr Hnr Hne Hs Hnp.
  change (join root [rest]) with (join_step root rest) in *.
  assert (Hp : isabs (join_step root rest) = true)
    by (by apply isabs_join_step).
  pose proof (norm_comps_proper root Hr) as Pr.
  pose proof (norm_comps_proper _ Hp) as Pp.
  rewrite (normpath_abs _ Hp), initial_slashes_join_step in Hnp by done.
  rewrite (normpath_abs _ Hr) in Hnr.
  set (SL := norm_comps root) in *.
  set (PL := norm_comps (join_step root rest)) in *.
  assert (HPL : PL = SL ++ split_sep rest).
  { destruct SL as [|x SL'] eqn:ESL.
    - assert (He : ends_with_sep root = true).
      { rewrite <- Hnr.
        destruct (slashes_cons _ (initial_slashes_abs root Hr))
          as (r & -> & [-> | ->]); done. }
      assert (E : join_step root rest = root +:+ rest).
      { unfold join_step. by rewrite Hs, He, orb_true_r. }
      rewrite E in Hnp. rewrite <- Hnr in Hnp at 2.
      change (join_sep []) with "" in Hnp. rewrite append_nil_r in Hnp.
      apply append_inj_l in Hnp.
      assert (PL <> []) by (intros EP; rewrite EP in Hnp; by subst rest).
      rewrite <- Hnp. simpl.
      symmetry. apply split_join_sep; [done | by apply proper_sep_free].
    - assert (Hc : Forall component (x :: SL')).
      { eapply Forall_impl; [exact Pr | apply proper_component]. }
      destruct (join_sep_components (x :: SL') ltac:(done) Hc) as [Hj He].
      assert (He' : ends_with_sep root = false).
      { rewrite <- Hnr. by rewrite ends_with_sep_app. }
      assert (E : join_step root rest = root +:+ String "/" rest).
      { unfold join_step. rewrite Hs, He', orb_false_r.
        by rewrite (isabs_nonempty root Hr). }
      rewrite E in Hnp. rewrite <- Hnr in Hnp at 2.
      rewrite append_assoc in Hnp. apply append_inj_l in Hnp.
      assert (PL <> []).
      { intros EP. rewrite EP in Hnp. symmetry in Hnp.
        revert Hnp. by apply append_nonempty_r. }
      rewrite <- (split_join_sep PL) by (done || by apply proper_sep_free).
      rewrite Hnp, split_sep_app.
      by rewrite split_join_sep by (done || by apply proper_sep_free). }
  rewrite relpath_abs_eq by done. cbv zeta.
  fold SL PL. rewrite HPL, commonprefix_loop_app.
  rewrite Nat.sub_diag, drop_app_length. simpl.
  rewrite HPL in Pp. apply Forall_app in Pp as [_ Pt].
  pose proof (split_sep_nonnil rest) as Hn.
  destruct (split_sep rest) as [|x r] eqn:Et; [done|].
  rewrite join_components
    by (eapply Forall_impl; [exact Pt | apply proper_component]).
  by rewrite <- Et, join_sep_split.
Qed.

End ExactRoundTrip.

(** ** The compilation database: export, then import *)

Lemma set_heap_set_heap h1 h2 w : set_heap h2 (set_heap h1 w) = set_heap h2 w.
Proof. reflexivity. Qed.

Lemma set_heap_id w : set_heap (heap w) w = w.
Proof. by destruct w. Qed.

Lemma export_item_eq self item w rec rec' :
  heap w !! item = Some rec ->
  export_record (cwd w) (dir self) rec = Some rec' ->
  export_item self item w = (Ok tt, set_heap (<[item := rec']> (heap w)) w).
Proof.
  intros Hh He. unfold export_record in He.
  destruct (rec !! "directory") as [d|] eqn:Hd; [|done]. simpl in He.
  destruct (relpath (cwd w) d (dir self)) as [d'|] eqn:Hd'; [|done].
  simpl in He.
  destruct (rec !! "file") as [f|] eqn:Hf; [|done]. simpl in He.
  destruct (relpath (cwd w) f (dir self)) as [f'|] eqn:Hf'; [|done].
  simpl in He. injection He as <-.
  unfold export_item. py_unfold.
  repeat first
    [ rewrite Hh | rewrite Hd | rewrite Hd' | rewrite Hf | rewrite Hf'
    | rewrite lookup_insert_eq | rewrite lookup_insert_ne by done
    | progress simpl ].
  by rewrite insert_insert_eq.
Qed.

Lemma import_item_eq self item w rec rec' inc :
  heap w !! item = Some rec ->
  environ w !! "LLVM3_INCLUDE_PATH" = Some inc ->
  import_record (dir self) inc rec = Some rec' ->
  import_item self item w = (Ok tt, set_heap (<[item := rec']> (heap w)) w).
Proof.
  intros Hh Hi He. unfold import_record in He.
  destruct (rec !! "directory") as [d|] eqn:Hd; [|done]. simpl in He.
  destruct (rec !! "file") as [f|] eqn:Hf; [|done]. simpl in He.
  destruct (rec !! "command") as [c|] eqn:Hc; [|done]. simpl in He.
  injection He as <-.
  unfold import_item. py_unfold.
  repeat first
    [ rewrite Hh | rewrite Hd | rewrite Hf | rewrite Hc | rewrite Hi
    | rewrite lookup_insert_eq | rewrite lookup_insert_ne by done
    | progress simpl ].
  by rewrite !insert_insert_eq.
Qed.

Lemma Forall2_lookup_insert_ne (h : gmap nat dict) l x ls (ds : list dict) :
  l ∉ ls ->
  Forall2 (fun l0 d => h !! l0 = Some d) ls ds ->
  Forall2 (fun l0 d => <[l := x]> h !! l0 = Some d) ls ds.
Proof.
  intros Hl HF. induction HF as [|l0 d ls ds H0 HF IH]; [constructor|].
  apply not_elem_of_cons in Hl as [Hne Hl].
  constructor; [by rewrite lookup_insert_ne | by apply IH].
Qed.

Lemma Forall2_lookup_weaken (h h' : gmap nat dict) ls (ds : list dict) :
  h ⊆ h' ->
  Forall2 (fun l0 d => h !! l0 = Some d) ls ds ->
  Forall2 (fun l0 d => h' !! l0 = Some d) ls ds.
Proof.
  intros Hs HF. eapply Forall2_impl; [exact HF|].
  intros l d Hl. simpl in *. eapply lookup_weaken; [exact Hl | exact Hs].
Qed.

(** A loop that replaces the object at each location of a duplicate-free
    list by its image under [f]. *)
Lemma for_each_update (f : dict -> option dict) (body : nat -> M unit)
    (P : world -> Prop) :
  (forall h w, P w -> P (set_heap h w)) ->
  (forall l w d d', P w -> heap w !! l = Some d -> f d = Some d' ->
     body l w = (Ok tt, set_heap (<[l := d']> (heap w)) w)) ->
  forall ls ds ds' w,
    P w -> NoDup ls ->
    Forall2 (fun l d => heap w !! l = Some d) ls ds ->
    Forall2 (fun d d' => f d = Some d') ds ds' ->
    exists h',
      for_each ls body w = (Ok tt, set_heap h' w) /\
      Forall2 (fun l d' => h' !! l = Some d') ls ds' /\
      (forall l, l ∉ ls -> h' !! l = heap w !! l).
Proof.
  intros HP Hbody ls. induction ls as [|l ls IH]; intros ds ds' w Pw Hnd H1 H2.
  - inversion H1; subst. inversion H2; subst.
    exists (heap w). by rewrite set_heap_id.
  - inversion H1 as [|? d ? ds0 Hl Hls]; subst.
    inversion H2 as [|? d' ? ds0' Hd Hds]; subst.
    apply NoDup_cons in Hnd as [Hnl Hnd].
    rewrite for_each_cons, (Hbody l w d d' Pw Hl Hd).
    destruct (IH ds0 ds0' (set_heap (<[l := d']> (heap w)) w))
      as (h' & Hrun & Hh' & Hother); [by apply HP | done | | done |].
    { simpl. by apply Forall2_lookup_insert_ne. }
    exists h'. rewrite Hrun. split; [done|]. split.
    + constructor; [|done]. rewrite Hother by done. simpl.
      by rewrite lookup_insert_eq.
    + intros l0 Hl0. apply not_elem_of_cons in Hl0 as [Hne Hl0].
      rewrite Hother by done. simpl. by rewrite lookup_insert_ne.
Qed.

Lemma below_exact (cwd_ root p : string) :
  isabs root = true -> below root p ->
  exists rel, relpath cwd_ p root = Some rel /\ join root [rel] = p.
Proof.
  intros Hr (Hnr & Hnp & rest & Hne & Hs & ->).
  exists rest. split; [|done]. by apply relpath_join_exact.
Qed.

Lemma round_trip_record (cwd_ root inc : string) (rec : dict) :
  isabs root = true -> abs_record root rec ->
  exists e out,
    export_record cwd_ root rec = Some e /\
    import_record root inc e = Some out /\
    round_trip root inc rec out.
Proof.
  intros Hr (d & f & c & Hd & Hf & Hc & Had & Haf & Hid & Hif).
  destruct (relpath_join_normpath cwd_ d root Had Hr Hid) as (d' & Hd' & Hnd).
  destruct (relpath_join_normpath cwd_ f root Haf Hr Hif) as (f' & Hf' & Hnf).
  set (e := <["file" := f']> (<["directory" := d']> rec)).
  assert (E1 : e !! "directory" = Some d') by (subst e; by simplify_map_eq).
  assert (E2 : e !! "file" = Some f') by (subst e; by simplify_map_eq).
  assert (E3 : e !! "command" = Some c) by (subst e; by simplify_map_eq).
  assert (E4 : forall k, k <> "directory" -> k <> "file" -> e !! k = rec !! k).
  { intros k H1 H2. subst e. by simplify_map_eq. }
  assert (E5 : export_record cwd_ root rec = Some e).
  { unfold export_record. rewrite Hd. simpl. rewrite Hd'. simpl.
    rewrite Hf. simpl. by rewrite Hf'. }
  clearbody e.
  exists e, (<["command" := c +:+ " -I" +:+ inc]>
               (<["file" := join root [f']]>
                  (<["directory" := join root [d']]> e))).
  split; [done|]. split.
  { unfold import_record. rewrite E1. simpl. rewrite E2. simpl.
    by rewrite E3. }
  exists d, f, c, (join root [d']), (join root [f']).
  repeat split; try done; try (by simplify_map_eq).
  - intros k H1 H2 H3. simplify_map_eq. by apply E4.
  - intros Hb. destruct (below_exact cwd_ root d Hr Hb) as (rel & Hrel & <-).
    congruence.
  - intros Hb. destruct (below_exact cwd_ root f Hr Hb) as (rel & Hrel & <-).
    congruence.
Qed.

Lemma round_trip_records (cwd_ root inc : string) (recs : list dict) :
  isabs root = true -> Forall (abs_record root) recs ->
  exists exps outs,
    Forall2 (fun rec e => export_record cwd_ root rec = Some e) recs exps /\
    Forall2 (fun e out => import_record root inc e = Some out) exps outs /\
    Forall2 (round_trip root inc) recs outs.
Proof.
  intros Hr HF. induction HF as [|rec recs Hrec _ IH].
  - exists [], []. repeat split; constructor.
  - destruct IH as (exps & outs & H1 & H2 & H3).
    destruct (round_trip_record cwd_ root inc rec Hr Hrec)
      as (e & out & He & Ho & Hrt).
    exists (e :: exps), (out :: outs). repeat split; by constructor.
Qed.

Lemma alloc_records_spec (recs : list dict) (w : world) :
  exists ls h',
    alloc_records recs w = (Ok ls, set_heap h' w) /\
    heap w ⊆ h' /\ NoDup ls /\
    Forall (fun l => heap w !! l = None) ls /\
    Forall2 (fun l d => h' !! l = Some d) ls recs.
Proof.
  revert w. induction recs as [|d recs IH]; intros w.
  - exists [], (heap w). rewrite set_heap_id.
    repeat split; try done; constructor.
  - simpl. unfold bind at 1. unfold alloc at 1.
    set (l := fresh (dom (heap w))).
    assert (Hl : heap w !! l = None).
    { apply not_elem_of_dom. apply is_fresh. }
    destruct (IH (set_heap (<[l := d]> (heap w)) w))
      as (ls & h' & Hrun & Hsub & Hnd & Hfresh & Hall).
    simpl in Hsub, Hfresh.
    unfold bind at 1. rewrite Hrun. unfold ret.
    exists (l :: ls), h'. split; [done|].
    assert (Hsub' : heap w ⊆ h').
    { etrans; [|exact Hsub]. by apply insert_subseteq. }
    split; [done|]. split; [|split].
    + apply NoDup_cons. split; [|done].
      intros Hin. rewrite Forall_forall in Hfresh.
      specialize (Hfresh l Hin). by rewrite lookup_insert_eq in Hfresh.
    + constructor; [done|].
      eapply Forall_impl; [exact Hfresh|]. intros l0 H0. simpl in H0.
      eapply lookup_weaken_None; [exact H0|]. by apply insert_subseteq.
    + constructor; [|done].
      eapply lookup_weaken; [|exact Hsub]. by rewrite lookup_insert_eq.
Qed.

Lemma deepcopy_items_nodup ls (ds : list dict) memo h :
  NoDup ls -> Forall (fun x => memo !! x = None) ls ->
  Forall2 (fun l d => h !! l = Some d) ls ds ->
  h ⊆ (deepcopy_items ls memo h).2 /\
  NoDup (deepcopy_items ls memo h).1 /\
  Forall (fun y => h !! y = None) (deepcopy_items ls memo h).1 /\
  Forall2 (fun y d => (deepcopy_items ls memo h).2 !! y = Some d)
    (deepcopy_items ls memo h).1 ds.
Proof.
  revert ds memo h. induction ls as [|x ls IH]; intros ds memo h Hnd Hm HF.
  - inversion HF; subst. simpl. repeat split; try done; constructor.
  - inversion HF as [|? d ? ds0 Hx Hls]; subst.
    inversion Hm as [|? ? Hmx Hmls]; subst.
    apply NoDup_cons in Hnd as [Hnx Hnd].
    simpl. rewrite Hmx, Hx. simpl.
    set (y := fresh (dom h)).
    assert (Hy : h !! y = None) by (apply not_elem_of_dom, is_fresh).
    destruct (IH ds0 (<[x := y]> memo) (<[y := d]> h)) as (H1 & H2 & H3 & H4);
      [done | | |].
    { rewrite Forall_forall in Hmls |- *. intros x' Hx'.
      rewrite lookup_insert_ne; [by apply Hmls|]. by intros ->. }
    { eapply Forall2_lookup_weaken; [|exact Hls]. by apply insert_subseteq. }
    destruct (deepcopy_items ls _ _) as [ys h']. simpl in *.
    assert (Hsub : h ⊆ h') by (etrans; [by apply insert_subseteq | done]).
    split; [done|]. split; [|split].
    + apply NoDup_cons. split; [|done]. intros Hin.
      rewrite Forall_forall in H3. specialize (H3 y Hin).
      by rewrite lookup_insert_eq in H3.
    + constructor; [done|]. eapply Forall_impl; [exact H3|].
      intros y0 H0. simpl in H0.
      eapply lookup_weaken_None; [exact H0 | by apply insert_subseteq].
    + constructor; [|done].
      eapply lookup_weaken; [|exact H1]. by rewrite lookup_insert_eq.
Qed.

Lemma export_compilation_db_eq X self w wb c recs exps :
  bear_build X self w = (Ok tt, wb) ->
  fs_lookup (fs wb) (join (dir self) ["compile_commands.json"]) = Some (File c) ->
  json_load X c = Some recs ->
  Forall2 (fun rec e => export_record (cwd w) (dir self) rec = Some e) recs exps ->
  exists db h,
    export_compilation_db X self w = (Ok db, set_heap h wb) /\
    NoDup db /\
    Forall2 (fun l e => h !! l = Some e) db exps.
Proof.
  intros Hb Hf Hj He.
  assert (Hcwd : cwd wb = cwd w).
  { pose proof (build_in_env_cwd_environ X (dir self)
      ("bear " +:+ build_cmd self) (stderr self) Environ
      (add_log INFO "building json compilation database from validation source" w))
      as (Hc & _).
    unfold bear_build in Hb. rewrite Hb in Hc. exact Hc. }
  destruct (alloc_records_spec recs wb) as (ls & h1 & Hrun & _ & Hnd & _ & Hall).
  destruct (for_each_update (export_record (cwd w) (dir self))
              (export_item self) (fun w' => cwd w' = cwd w)
              ltac:(done)
              ltac:(intros l w' d d' Hw Hl Hd;
                    apply (export_item_eq self l w' d d' Hl);
                    by rewrite Hw)
              ls recs exps (set_heap h1 wb) Hcwd Hnd Hall He)
    as (h2 & Hloop & Hh2 & _).
  exists ls, h2. split; [|by split].
  unfold export_compilation_db. fold (export_item self).
  unfold bind at 1. unfold logger_log at 1.
  unfold bind at 1. unfold bear_build in Hb. rewrite Hb.
  unfold bind at 1. unfold json_load_file.
  unfold bind at 1. unfold read_file. rewrite Hf, Hj, Hrun.
  unfold bind at 1. rewrite Hloop. done.
Qed.

Lemma import_compilation_db_eq X self db w inc exps outs c :
  NoDup db ->
  Forall2 (fun l e => heap w !! l = Some e) db exps ->
  environ w !! "LLVM3_INCLUDE_PATH" = Some inc ->
  Forall2 (fun e out => import_record (dir self) inc e = Some out) exps outs ->
  fs_lookup (fs w) (join (dir self) ["compile_commands.json"]) = Some (File c) ->
  exists w',
    import_compilation_db X self db w = (Ok tt, w') /\
    fs w' !! join (dir self) ["compile_commands.json"]
      = Some (File (json_dump X outs)).
Proof.
  intros Hnd Hdb Hinc Himp Hf.
  pose proof (deepcopy_items_nodup db exps ∅ (heap w) Hnd
                ltac:(apply Forall_forall; intros; apply lookup_empty) Hdb)
    as (_ & Hnd' & _ & Hcopies).
  destruct (deepcopy_items db ∅ (heap w)) as [ys h1] eqn:Hdc. simpl in *.
  destruct (for_each_update (import_record (dir self) inc)
              (import_item self)
              (fun w' => environ w' !! "LLVM3_INCLUDE_PATH" = Some inc)
              ltac:(intros ? ? H; exact H)
              ltac:(intros l w' d d' Hw Hl Hd;
                    exact (import_item_eq self l w' d d' inc Hl Hw Hd))
              ys exps outs (set_heap h1 w) Hinc Hnd' Hcopies Himp)
    as (h2 & Hloop & Hh2 & _).
  eexists. split.
  - unfold import_compilation_db. fold (import_item self).
    unfold bind at 1. unfold deepcopy. rewrite Hdc.
    unfold bind at 1. rewrite Hloop.
    unfold json_dump_file. unfold bind, get, write_file.
    assert (E : is_empty (join (dir self) ["compile_commands.json"]) = false
                /\ fs w !! join (dir self) ["compile_commands.json"]
                   = Some (File c)).
    { unfold fs_lookup in Hf. by destruct (is_empty _). }
    destruct E as [-> E]. cbn [fs set_heap]. rewrite E. reflexivity.
  - cbn [fs set_fs set_heap]. rewrite lookup_insert_eq. do 3 f_equal.
    clear -Hh2. induction Hh2 as [|y out ys outs Hy _ IH]; [done|].
    simpl in *. by rewrite Hy, IH.
Qed.

(** C3, amended. After an intercepted build that returned normally and left
    a database of records whose [directory] and [file] are absolute paths
    with as many leading slashes as the (absolute) root, export followed by
    import against the same root returns normally and writes, in the order of
    the records, a database in which each [directory] and [file] normalises
    ([normpath]) to the same path as the original, is the original string
    when that is a normalised path strictly below the normalised root, each
    [command] is the original followed by one [-I] flag, and every other
    field is unchanged. *)
Theorem export_import_round_trip
    (X : externals) (self : project) (w : world) (recs : list dict)
    (c inc : string) :
  isabs (dir self) = true ->
  (bear_build X self w).1 = Ok tt ->
  fs_lookup (fs (bear_build X self w).2)
    (join (dir self) ["compile_commands.json"]) = Some (File c) ->
  json_load X c = Some recs ->
  Forall (abs_record (dir self)) recs ->
  environ w !! "LLVM3_INCLUDE_PATH" = Some inc ->
  exists db w1 w2 exps outs,
    export_compilation_db X self w = (Ok db, w1) /\
    Forall2 (fun l e => heap w1 !! l = Some e) db exps /\
    Forall2 (fun rec e => export_record (cwd w) (dir self) rec = Some e)
      recs exps /\
    import_compilation_db X self db w1 = (Ok tt, w2) /\
    fs w2 !! join (dir self) ["compile_commands.json"]
      = Some (File (json_dump X outs)) /\
    Forall2 (round_trip (dir self) inc) recs outs.
Proof.
  intros Hroot Hok Hf Hj Habs Hinc.
  destruct (bear_build X self w) as [r wb] eqn:Hb. simpl in Hok, Hf. subst r.
  destruct (round_trip_records (cwd w) (dir self) inc recs Hroot Habs)
    as (exps & outs & Hexp & Himp & Hrt).
  destruct (export_compilation_db_eq X self w wb c recs exps Hb Hf Hj Hexp)
    as (db & h & Hexport & Hnd & Hdb).
  assert (Henv : environ wb = environ w).
  { unfold bear_build in Hb.
    pose proof (build_in_env_environ X (dir self) ("bear " +:+ build_cmd self)
      (stderr self) Environ
      (add_log INFO "building json compilation database from validation source" w))
      as He.
    by rewrite Hb in He. }
  destruct (import_compilation_db_eq X self db (set_heap h wb) inc exps outs c
              Hnd Hdb ltac:(by rewrite <- Henv in Hinc) Himp Hf)
    as (w2 & Himport & Hfile).
  exists db, (set_heap h wb), w2, exps, outs. by repeat split.
Qed.

(** C3 as stated fails: a record of a compiler run in the project root has
    the root as its [directory]; export makes it ["."], and import makes
    that ["/proj/."], not ["/proj"]. *)
Lemma export_import_root_directory_counterexample :
  ~ (forall (X : externals) (self : project) (w : world) (recs : list dict)
            (c inc : string),
        isabs (dir self) = true ->
        (bear_build X self w).1 = Ok tt ->
        fs_lookup (fs (bear_build X self w).2)
          (join (dir self) ["compile_commands.json"]) = Some (File c) ->
        json_load X c = Some recs ->
        Forall (fun rec => exists d f,
                  rec !! "directory" = Some d /\ rec !! "file" = Some f /\
                  is_Some (rec !! "command") /\
                  isabs d = true /\ isabs f = true) recs ->
        environ w !! "LLVM3_INCLUDE_PATH" = Some inc ->
        exists db w1 w2 outs,
          export_compilation_db X self w = (Ok db, w1) /\
          import_compilation_db X self db w1 = (Ok tt, w2) /\
          fs w2 !! join (dir self) ["compile_commands.json"]
            = Some (File (json_dump X outs)) /\
          Forall2 (fun rec out =>
                     out !! "directory" = rec !! "directory" /\
                     out !! "file" = rec !! "file") recs outs).
Proof.
  intros H.
  destruct (H Run.X (Run.proj None) Run.w_root [Run.rec_root] "db-root"
              "/opt/llvm3/include")
    as (db & w1 & w2 & outs & He & Hi & Hf & HF).
  - reflexivity.
  - vm_compute. reflexivity.
  - vm_compute. reflexivity.
  - reflexivity.
  - constructor; [|constructor].
    exists "/proj", "/proj/src/a.c". repeat split; try reflexivity.
    vm_compute. eauto.
  - reflexivity.
  - vm_compute in He. injection He as <- <-.
    vm_compute in Hi. injection Hi as <-.
    inversion HF as [|? out ? outs' [Hd Hfile] HF']; subst.
    inversion HF'; subst.
    change (Run.rec_root !! "directory") with (Some "/proj") in Hd.
    change (Run.rec_root !! "file") with (Some "/proj/src/a.c") in Hfile.
    cbn [json_dump Run.X map] in Hf. unfold Run.render in Hf.
    rewrite Hd, Hfile in Hf. vm_compute in Hf. discriminate Hf.
Qed.

Lemma export_import_round_trip_witness :
  exists db w1 w2 exps outs,
    export_compilation_db Run.X (Run.proj None) Run.w0 = (Ok db, w1) /\
    Forall2 (fun l e => heap w1 !! l = Some e) db exps /\
    Forall2 (fun rec e =>
               export_record (cwd Run.w0) (dir (Run.proj None)) rec = Some e)
      [Run.rec1] exps /\
    import_compilation_db Run.X (Run.proj None) db w1 = (Ok tt, w2) /\
    fs w2 !! join (dir (Run.proj None)) ["compile_commands.json"]
      = Some (File (json_dump Run.X outs)) /\
    Forall2 (round_trip (dir (Run.proj None)) "/opt/llvm3/include")
      [Run.rec1] outs.
Proof.
  apply (export_import_round_trip Run.X (Run.proj None) Run.w0 [Run.rec1]
           "db" "/opt/llvm3/include").
  - reflexivity.
  - vm_compute. reflexivity.
  - vm_compute. reflexivity.
  - reflexivity.
  - constructor; [|constructor].
    exists "/proj/src", "/proj/src/a.c", "cc -c a.c".
    repeat split; vm_compute; reflexivity.
  - reflexivity.
Defined.

(** ** [difflib] on a sequence and itself *)

Section SameSequence.
Variable a : list string.

Lemma run_eq (j : nat) :
  run a j = if anchor_at a j then S (run_before a j) else 0.
Proof. by destruct j. Qed.

Lemma flm_inner_fold (js : list nat) (i blo bhi : nat) j2len newj2len best :
  Forall (fun j => blo <= j < bhi) js ->
  flm_inner js i blo bhi j2len newj2len best =
  fold_left (inner_step i j2len) js (newj2len, best).
Proof.
  revert newj2len best. induction js as [|j js IH]; intros m best HF; [done|].
  inversion HF as [|? ? [Hlo Hhi] HF']; subst. simpl.
  apply Nat.ltb_ge in Hlo. rewrite Hlo.
  assert (Hb : (bhi <=? j)%nat = false) by (apply Nat.leb_gt; lia).
  rewrite Hb. by rewrite IH.
Qed.

Lemma indices_from_bounds (s : nat) (x : string) (b : list string) :
  Forall (fun j => s <= j < s + length b /\ b !! (j - s) = Some x)
         (indices_from s x b).
Proof.
  revert s. induction b as [|y b IH]; intros s; simpl; [constructor|].
  assert (H : Forall (fun j => s <= j < s + S (length b)
                               /\ (y :: b) !! (j - s) = Some x)
                     (indices_from (S s) x b)).
  { eapply Forall_impl; [apply IH|]. intros j [Hj Hl]. simpl in *.
    split; [lia|]. replace (j - s) with (S (j - S s)) by lia. done. }
  destruct (String.eqb y x) eqn:E; [|done].
  apply String.eqb_eq in E as ->. constructor; [|done].
  split; [lia|]. by rewrite Nat.sub_diag.
Qed.

Lemma indices_from_split (s i : nat) (x : string) (b : list string) :
  b !! i = Some x ->
  exists js1 js2,
    indices_from s x b = js1 ++ (s + i) :: js2 /\
    Forall (fun j => j < s + i) js1 /\ Forall (fun j => s + i < j) js2.
Proof.
  revert s i. induction b as [|y b IH]; intros s i Hi; [done|].
  destruct i as [|i]; simpl in *.
  - injection Hi as ->. rewrite String.eqb_refl, Nat.add_0_r.
    exists [], (indices_from (S s) x b). split; [done|].
    split; [constructor|].
    eapply Forall_impl; [apply indices_from_bounds|].
    intros j [Hj _]. simpl in Hj. lia.
  - destruct (IH (S s) i Hi) as (js1 & js2 & E & H1 & H2).
    replace (s + S i) with (S s + i) by lia.
    destruct (String.eqb y x).
    + exists (s :: js1), js2. rewrite E. split; [done|].
      split; [|done]. constructor; [lia | done].
    + exists js1, js2. by rewrite E.
Qed.

Lemma inner_entries_lookup j2len js m j :
  inner_entries j2len js m !! j =
  if decide (j ∈ js) then Some (j2len_prev j2len j + 1) else m !! j.
Proof.
  revert m. induction js as [|j0 js IH]; intros m.
  - destruct (decide (j ∈ [])) as [H|]; [|done].
    by apply not_elem_of_nil in H.
  - change (inner_entries j2len (j0 :: js) m)
      with (inner_entries j2len js (<[j0 := j2len_prev j2len j0 + 1]> m)).
    rewrite IH.
    destruct (decide (j ∈ js)) as [Hin|Hnin],
             (decide (j ∈ j0 :: js)) as [Hin'|Hnin']; try done.
    + exfalso. apply Hnin'. by right.
    + apply elem_of_cons in Hin' as [->|?]; [|done].
      by rewrite lookup_insert_eq.
    + rewrite lookup_insert_ne; [done|]. intros ->. apply Hnin'. by left.
Qed.

Lemma inner_no_update i j2len js m best :
  Forall (fun j => j2len_prev j2len j + 1 <= best.2) js ->
  fold_left (inner_step i j2len) js (m, best) =
  (inner_entries j2len js m, best).
Proof.
  revert m. induction js as [|j js IH]; intros m HF; [done|].
  inversion HF as [|? ? Hj HF']; subst. simpl.
  unfold inner_step at 2. simpl.
  assert (E : (best.2 <? j2len_prev j2len j + 1)%nat = false)
    by (apply Nat.ltb_ge; lia).
  rewrite E. by rewrite IH.
Qed.

Lemma run_le (j : nat) : run a j <= j + 1.
Proof.
  induction j as [|j IH]; simpl.
  - destruct (anchor_at a 0); lia.
  - destruct (anchor_at a (S j)); lia.
Qed.

Lemma j2len_prev_empty (j : nat) : j2len_prev ∅ j = 0.
Proof. destruct j; [done|]. simpl. by rewrite lookup_empty. Qed.

Lemma row_step (i : nat) j2len best :
  i < length a -> row_inv a i j2len best ->
  let js := match a !! i with Some x => b2j_get a x | None => [] end in
  row_inv a (S i) (flm_inner js i 0 (length a) j2len ∅ best).1
                (flm_inner js i 0 (length a) j2len ∅ best).2.
Proof.
  intros Hi (Hal & Hle & H2 & H2' & H3 & H4). cbv zeta.
  destruct (lookup_lt_is_Some_2 a i Hi) as [x Hx]. rewrite Hx.
  unfold b2j_get. destruct (popular a x) eqn:Hpop.
  - simpl. assert (Hrun : run a i = 0).
    { rewrite run_eq. unfold anchor_at. by rewrite Hx, Hpop. }
    repeat split; try done; try lia.
    + intros j. rewrite j2len_prev_empty. lia.
    + intros j. rewrite j2len_prev_empty. lia.
    + intros j Hj. destruct (decide (j = i)) as [->|]; [lia|].
      apply H4. lia.
  - assert (Hanchor : forall j, a !! j = Some x -> run a j = S (run_before a j)).
    { intros j Hj. rewrite run_eq. unfold anchor_at. by rewrite Hj, Hpop. }
    pose proof (indices_from_bounds 0 x a) as Hb.
    destruct (indices_from_split 0 i x a Hx) as (js1 & js2 & E & Hjs1 & Hjs2).
    simpl in E, Hjs1, Hjs2.
    rewrite flm_inner_fold.
    2:{ eapply Forall_impl; [exact Hb|]. intros j [Hj _]. simpl in Hj. lia. }
    rewrite E in Hb |- *.
    apply Forall_app in Hb as [Hb1 Hb2].
    inversion Hb2 as [|? ? _ Hb3]; subst.
    assert (Hk : forall j, a !! j = Some x ->
                   j2len_prev j2len j + 1 <= run a j /\
                   j2len_prev j2len j + 1 <= run a i).
    { intros j Hj. rewrite (Hanchor j Hj), (Hanchor i Hx).
      specialize (H2 j). specialize (H2' j). lia. }
    set (k := j2len_prev j2len i + 1).
    assert (Hki : k = run a i) by (subst k; rewrite (Hanchor i Hx), H3; lia).
    set (best1 := if (best.2 <? k)%nat then (i + 1 - k, i + 1 - k, k) else best).
    assert (Hbest1 : best1.1.1 = best1.1.2 /\ best1.1.1 + best1.2 <= S i
                     /\ best.2 <= best1.2 /\ run a i <= best1.2).
    { subst best1. pose proof (run_le i).
      destruct (Nat.ltb_spec (best.2) k); simpl; repeat split; lia. }
    destruct Hbest1 as (Ha1 & Hl1 & Hge & Hri).
    set (m := inner_entries j2len (js1 ++ i :: js2) ∅).
    assert (Eres : fold_left (inner_step i j2len) (js1 ++ i :: js2) (∅, best)
                   = (m, best1)).
    { rewrite fold_left_app. rewrite inner_no_update.
      2:{ rewrite Forall_forall. intros j Hj.
          rewrite Forall_forall in Hb1, Hjs1.
          destruct (Hb1 j Hj) as [_ Hl]. rewrite Nat.sub_0_r in Hl.
          specialize (Hjs1 j Hj). specialize (H4 j Hjs1).
          destruct (Hk j Hl). lia. }
      change (fold_left (inner_step i j2len) (i :: js2)
                (inner_entries j2len js1 ∅, best))
        with (fold_left (inner_step i j2len) js2
                (<[i := k]> (inner_entries j2len js1 ∅), best1)).
      rewrite inner_no_update.
      2:{ rewrite Forall_forall. intros j Hj.
          rewrite Forall_forall in Hb3.
          destruct (Hb3 j Hj) as [_ Hl]. rewrite Nat.sub_0_r in Hl.
          destruct (Hk j Hl). lia. }
      f_equal. subst m. unfold inner_entries. by rewrite fold_left_app. }
    rewrite Eres. cbn [fst snd].
    assert (Hm : forall j, m !! j =
               if decide (j ∈ js1 ++ i :: js2)
               then Some (j2len_prev j2len j + 1) else None).
    { intros j. subst m. rewrite inner_entries_lookup.
      by rewrite lookup_empty. }
    assert (Hin : forall j, j ∈ js1 ++ i :: js2 -> a !! j = Some x).
    { intros j [Hj | [-> | Hj]%elem_of_cons]%elem_of_app; [|done|].
      - rewrite Forall_forall in Hb1. destruct (Hb1 j Hj) as [_ Hl].
        by rewrite Nat.sub_0_r in Hl.
      - rewrite Forall_forall in Hb3. destruct (Hb3 j Hj) as [_ Hl].
        by rewrite Nat.sub_0_r in Hl. }
    assert (Hprev : forall j, j2len_prev m j <= run_before a j /\
                              j2len_prev m j <= run a i).
    { intros [|j]; simpl; [lia|]. rewrite Hm.
      destruct (decide (j ∈ js1 ++ i :: js2)) as [Hj|]; simpl; [|lia].
      apply Hk. by apply Hin. }
    split; [done|]. split; [done|]. split; [apply Hprev|].
    split; [apply Hprev|]. split.
    + simpl. rewrite Hm.
      rewrite decide_True by (apply elem_of_app; right; by left).
      simpl. by rewrite <- Hki.
    + intros j Hj. destruct (decide (j = i)) as [->|]; [done|].
      specialize (H4 j ltac:(lia)). lia.
Qed.

Lemma flm_outer_same (d i : nat) j2len best :
  i + d = length a -> row_inv a i j2len best ->
  let best' := flm_outer a a (seq i d) 0 (length a) j2len best in
  best'.1.1 = best'.1.2 /\ best'.1.1 + best'.2 <= length a.
Proof.
  revert i j2len best. induction d as [|d IH]; intros i j2len best Hd Hinv.
  - simpl. destruct Hinv as (? & ? & _). split; [done | lia].
  - cbn [seq flm_outer].
    pose proof (row_step i j2len best ltac:(lia) Hinv) as Hrow.
    cbv zeta in Hrow.
    destruct (flm_inner _ i 0 (length a) j2len ∅ best) as [m best1].
    apply IH; [lia | exact Hrow].
Qed.

Lemma same_at_refl (i : nat) : i < length a -> same_at a a i i = true.
Proof.
  intros Hi. unfold same_at.
  destruct (lookup_lt_is_Some_2 a i Hi) as [x ->]. apply String.eqb_refl.
Qed.

Lemma extend_left_same (s k : nat) :
  s <= length a -> extend_left a a 0 0 s s k = (0, 0, k + s).
Proof.
  revert k. induction s as [|s IH]; intros k Hs.
  - simpl. by rewrite Nat.add_0_r.
  - cbn [extend_left]. replace (S s - 1) with s by lia.
    rewrite same_at_refl by lia. simpl.
    rewrite IH by lia. f_equal. lia.
Qed.

Lemma extend_right_same (fuel k : nat) :
  k + fuel = length a ->
  extend_right a a fuel (length a) (length a) 0 0 k = length a.
Proof.
  revert k. induction fuel as [|fuel IH]; intros k Hk.
  - simpl. lia.
  - cbn [extend_right]. simpl.
    assert (E : (k <? length a)%nat = true) by (apply Nat.ltb_lt; lia).
    rewrite E, same_at_refl by lia. simpl. apply IH. lia.
Qed.

Lemma find_longest_match_same :
  find_longest_match a a 0 (length a) 0 (length a) = (0, 0, length a).
Proof.
  unfold find_longest_match. rewrite Nat.sub_0_r.
  assert (Hinit : row_inv a 0 ∅ (0, 0, 0)).
  { repeat split; simpl; try lia.
    - intros j. rewrite j2len_prev_empty. lia.
    - intros j. rewrite j2len_prev_empty. lia. }
  pose proof (flm_outer_same (length a) 0 ∅ (0, 0, 0) ltac:(lia) Hinit)
    as [Hal Hle].
  cbv zeta in Hal, Hle.
  destruct (flm_outer a a _ 0 (length a) ∅ (0, 0, 0)) as [[bi bj] bk].
  simpl in Hal, Hle. subst bj. simpl.
  rewrite extend_left_same by lia.
  rewrite Nat.add_0_l. by rewrite extend_right_same by lia.
Qed.

Lemma matching_loop_done (fuel : nat) (blocks : list block) :
  matching_loop a a fuel [] blocks = blocks.
Proof. by destruct fuel. Qed.

Lemma get_opcodes_same :
  get_opcodes a a =
  if (length a =? 0)%nat then [] else [(Equal, 0, length a, 0, length a)].
Proof.
  unfold get_opcodes, get_matching_blocks.
  replace (2 * length a + 1) with (S (2 * length a)) by lia.
  cbn [matching_loop]. rewrite find_longest_match_same.
  destruct (Nat.eqb_spec (length a) 0) as [E|E].
  - rewrite matching_loop_done. rewrite E. reflexivity.
  - apply Nat.eqb_neq in E.
    rewrite !Nat.add_0_l, Nat.ltb_irrefl. simpl.
    rewrite matching_loop_done. simpl. rewrite E. simpl.
    rewrite E. simpl. by rewrite Nat.ltb_irrefl.
Qed.

Lemma get_grouped_opcodes_same : get_grouped_opcodes a a 3 = [].
Proof.
  unfold get_grouped_opcodes. rewrite get_opcodes_same.
  destruct (Nat.eqb_spec (length a) 0) as [E|E]; [reflexivity|].
  cbn [fix_first fix_last group_loop is_equal app].
  assert (H : (3 + 3 <? Nat.min (length a) (Nat.max 0 (length a - 3) + 3)
                        - Nat.max 0 (length a - 3))%nat = false).
  { apply Nat.ltb_ge. lia. }
  rewrite H. reflexivity.
Qed.

(** The diff of a sequence with itself is empty. *)
Lemma unified_diff_same (fromfile tofile : string) :
  unified_diff a a fromfile tofile = [].
Proof.
  unfold unified_diff, unified_diff_lines.
  by rewrite get_grouped_opcodes_same.
Qed.

End SameSequence.

(** ** [difflib] on two sequences: the blocks match and are in order *)

Section Matching.
Variables a b : list string.

Lemma matches_snoc (i j k : nat) :
  matches a b i j k -> same_at a b (i + k) (j + k) = true -> matches a b i j (S k).
Proof.
  intros Hm Hs t Ht. destruct (decide (t = k)) as [->|]; [done|].
  apply Hm. lia.
Qed.

Lemma matches_cons (i j k : nat) :
  same_at a b i j = true -> matches a b (S i) (S j) k -> matches a b i j (S k).
Proof.
  intros Hs Hm [|t] Ht.
  - by rewrite !Nat.add_0_r.
  - replace (i + S t) with (S i + t) by lia.
    replace (j + S t) with (S j + t) by lia. apply Hm. lia.
Qed.

Lemma flm_inner_ok (js : list nat) (x : string) (i alo blo bhi : nat)
    j2len newj2len best :
  alo <= i -> a !! i = Some x ->
  Forall (fun j => b !! j = Some x) js ->
  j2len_ok a b alo blo i j2len ->
  j2len_ok a b alo blo (S i) newj2len ->
  in_region a b alo (S i) blo bhi best ->
  j2len_ok a b alo blo (S i) (flm_inner js i blo bhi j2len newj2len best).1 /\
  in_region a b alo (S i) blo bhi (flm_inner js i blo bhi j2len newj2len best).2.
Proof.
  intros Hi Hx. revert newj2len best.
  induction js as [|j js IH]; intros m best Hjs Hold Hnew Hbest; [done|].
  inversion Hjs as [|? ? Hj Hjs']; subst. simpl.
  destruct (Nat.ltb_spec j blo) as [Hlo|Hlo]; [by apply IH|].
  destruct (Nat.leb_spec bhi j) as [Hhi|Hhi]; [done|].
  assert (Hsame : same_at a b i j = true).
  { unfold same_at. rewrite Hx, Hj. apply String.eqb_refl. }
  set (k := j2len_prev j2len j + 1).
  assert (Hk : 1 <= k /\ k <= S i /\ k <= j + 1 /\ alo <= S i - k /\
               blo <= j + 1 - k /\ matches a b (S i - k) (j + 1 - k) k).
  { subst k. destruct (j2len_prev j2len j) as [|k'] eqn:Hp.
    - repeat split; try lia.
      replace (S i - (0 + 1)) with i by lia.
      replace (j + 1 - (0 + 1)) with j by lia.
      intros t Ht. assert (t = 0) as -> by lia. by rewrite !Nat.add_0_r.
    - destruct j as [|j']; [done|]. simpl in Hp.
      destruct (j2len !! j') as [k0|] eqn:Hk0; simpl in Hp; [|done].
      subst k0.
      destruct (Hold j' (S k') Hk0) as (H1 & H2 & H3 & H4 & H5 & H6).
      repeat split; try lia.
      replace (S i - (S k' + 1)) with (i - S k') by lia.
      replace (S j' + 1 - (S k' + 1)) with (j' + 1 - S k') by lia.
      replace (S k' + 1) with (S (S k')) by lia.
      apply matches_snoc; [done|].
      replace (i - S k' + S k') with i by lia.
      by replace (j' + 1 - S k' + S k') with (S j') by lia. }
  destruct Hk as (K1 & K2 & K3 & K4 & K5 & K6).
  apply IH; [done | done | |].
  - intros j0 k0. rewrite lookup_insert. case_decide as E.
    + intros [= <-]. subst j0. done.
    + apply Hnew.
  - destruct (Nat.ltb_spec (best.2) k); [|done].
    repeat split; simpl; try lia.
    replace (i + 1 - k) with (S i - k) by lia. done.
Qed.

Lemma b2j_get_spec (x : string) :
  Forall (fun j => b !! j = Some x) (b2j_get b x).
Proof.
  unfold b2j_get. destruct (popular b x); [constructor|].
  eapply Forall_impl; [apply indices_from_bounds|].
  intros j [_ Hj]. by rewrite Nat.sub_0_r in Hj.
Qed.

Lemma j2len_ok_empty alo blo i : j2len_ok a b alo blo i ∅.
Proof. intros j k. by rewrite lookup_empty. Qed.

Lemma in_region_mono_hi alo ahi ahi' blo bhi blk :
  ahi <= ahi' -> in_region a b alo ahi blo bhi blk ->
  in_region a b alo ahi' blo bhi blk.
Proof. intros H (?&?&?&?&?). repeat split; try done. lia. Qed.

Lemma flm_outer_ok (d i alo blo bhi : nat) j2len best :
  alo <= i -> i + d <= length a ->
  j2len_ok a b alo blo i j2len ->
  in_region a b alo i blo bhi best ->
  in_region a b alo (i + d) blo bhi (flm_outer a b (seq i d) blo bhi j2len best).
Proof.
  revert i j2len best. induction d as [|d IH]; intros i j2len best Hi Hd Hj Hb.
  - simpl. by rewrite Nat.add_0_r.
  - cbn [seq flm_outer].
    destruct (lookup_lt_is_Some_2 a i ltac:(lia)) as [x Hx]. rewrite Hx.
    pose proof (flm_inner_ok (b2j_get b x) x i alo blo bhi j2len ∅ best
                  Hi Hx (b2j_get_spec x) Hj (j2len_ok_empty _ _ _)
                  (in_region_mono_hi alo i (S i) blo bhi best ltac:(lia) Hb))
      as [H1 H2].
    destruct (flm_inner _ i blo bhi j2len ∅ best) as [m best1].
    replace (i + S d) with (S i + d) by lia.
    apply IH; try done; lia.
Qed.

Lemma extend_left_ok (alo ahi blo bhi besti bestj bestsize : nat) :
  in_region a b alo ahi blo bhi (besti, bestj, bestsize) ->
  in_region a b alo ahi blo bhi (extend_left a b alo blo besti bestj bestsize) /\
  (extend_left a b alo blo besti bestj bestsize).1.1
  + (extend_left a b alo blo besti bestj bestsize).2 = besti + bestsize.
Proof.
  revert bestj bestsize.
  induction besti as [|i IH]; intros bestj bestsize Hr; [done|].
  cbn [extend_left].
  destruct (_ && _) eqn:E; [|done].
  apply andb_true_iff in E as [[E1 E2]%andb_true_iff E3].
  apply Nat.ltb_lt in E1, E2.
  replace (S i - 1) with i in E3 by lia.
  destruct Hr as (H1 & H2 & H3 & H4 & H5). simpl in *.
  destruct (IH (bestj - 1) (bestsize + 1)) as [Hin Hsum].
  - repeat split; simpl; try lia.
    replace (bestsize + 1) with (S bestsize) by lia.
    apply matches_cons; [done|].
    by replace (S (bestj - 1)) with bestj by lia.
  - split; [done|]. rewrite Hsum. lia.
Qed.

Lemma extend_right_ok (n alo ahi blo bhi besti bestj bestsize : nat) :
  in_region a b alo ahi blo bhi (besti, bestj, bestsize) ->
  in_region a b alo ahi blo bhi
    (besti, bestj, extend_right a b n ahi bhi besti bestj bestsize).
Proof.
  revert bestsize. induction n as [|n IH]; intros bestsize Hr; [done|].
  cbn [extend_right].
  destruct (_ && _) eqn:E; [|done].
  apply andb_true_iff in E as [[E1 E2]%andb_true_iff E3].
  apply Nat.ltb_lt in E1, E2.
  destruct Hr as (H1 & H2 & H3 & H4 & H5). simpl in *.
  apply IH. repeat split; simpl; try lia.
  replace (bestsize + 1) with (S bestsize) by lia.
  by apply matches_snoc.
Qed.

(** [find_longest_match] returns a block of the region that matches. *)
Lemma find_longest_match_ok (alo ahi blo bhi : nat) :
  alo <= ahi -> ahi <= length a -> blo <= bhi ->
  in_region a b alo ahi blo bhi (find_longest_match a b alo ahi blo bhi).
Proof.
  intros H1 H2 H3. unfold find_longest_match.
  pose proof (flm_outer_ok (ahi - alo) alo alo blo bhi ∅ (alo, blo, 0)
                ltac:(lia) ltac:(lia) (j2len_ok_empty _ _ _)) as Hout.
  replace (alo + (ahi - alo)) with ahi in Hout by lia.
  specialize (Hout ltac:(repeat split; simpl; try lia; intros t Ht; lia)).
  destruct (flm_outer a b _ blo bhi ∅ (alo, blo, 0)) as [[bi bj] bk].
  simpl.
  destruct (extend_left_ok alo ahi blo bhi bi bj bk Hout) as [Hl _].
  destruct (extend_left a b alo blo bi bj bk) as [[bi' bj'] bk'].
  by apply extend_right_ok.
Qed.

End Matching.

(** ** The blocks of [get_matching_blocks] *)

Section Pairwise.
Context {A : Type} (P : A -> A -> Prop).

Lemma pairwise_app (l1 l2 : list A) :
  pairwise P (l1 ++ l2) <->
  pairwise P l1 /\ pairwise P l2 /\ Forall (fun x => Forall (P x) l2) l1.
Proof.
  induction l1 as [|x l1 IH]; simpl.
  - split; [intros H; repeat split; auto | by intros (_ & H & _)].
  - rewrite Forall_app, IH, Forall_cons. tauto.
Qed.

End Pairwise.

Lemma compat_sym (r1 r2 : rect) : compat r1 r2 -> compat r2 r1.
Proof. unfold compat. tauto. Qed.

Lemma compat_inside_l (r r' q : rect) :
  inside r r' -> compat r q -> compat r' q.
Proof.
  destruct r as [[[alo ahi] blo] bhi], r' as [[[alo' ahi'] blo'] bhi'],
    q as [[[qalo qahi] qblo] qbhi].
  unfold compat, inside, before. lia.
Qed.

Lemma compat_inside_r (r r' q : rect) :
  inside r r' -> compat q r -> compat q r'.
Proof. intros H1 H2. apply compat_sym. eapply compat_inside_l; eauto using compat_sym. Qed.

(** Replacing a region by rectangles inside it. *)
Lemma pairwise_refine (done_ : list rect) (r : rect) (subs rest : list rect) :
  pairwise compat (done_ ++ r :: rest) ->
  Forall (inside r) subs -> pairwise compat subs ->
  pairwise compat (done_ ++ subs ++ rest).
Proof.
  intros H Hin Hsubs.
  apply pairwise_app in H as (H1 & [H2 H3] & H4).
  apply pairwise_app. split; [done|]. split.
  - apply pairwise_app. split; [done|]. split; [done|].
    eapply Forall_impl; [exact Hin|]. intros s Hs. simpl.
    eapply Forall_impl; [exact H2|]. intros q Hq. simpl in *.
    by eapply compat_inside_l.
  - eapply Forall_impl; [exact H4|]. intros x Hx. simpl in *.
    inversion Hx as [|? ? Hxr Hxrest]; subst.
    apply Forall_app. split; [|done].
    eapply Forall_impl; [exact Hin|]. intros s Hs. simpl.
    by eapply compat_inside_r.
Qed.

Section MatchingBlocks.
Variables a b : list string.

Lemma matching_loop_inv (fuel : nat) queue blocks :
  loop_inv a b queue blocks ->
  Forall (found a b) (matching_loop a b fuel queue blocks) /\
  pairwise compat (map rect_of (matching_loop a b fuel queue blocks)).
Proof.
  revert queue blocks.
  induction fuel as [|fuel IH]; intros queue blocks (Hb & Hq & Hp).
  - simpl. split; [done|]. by apply pairwise_app in Hp as (? & _).
  - destruct queue as [|[[[alo ahi] blo] bhi] queue]; simpl.
    { split; [done|]. by rewrite app_nil_r in Hp. }
    inversion Hq as [|? ? HQ Hq']; subst.
    unfold region_ok in HQ. destruct HQ as (Q1 & Q2 & Q3).
    pose proof (find_longest_match_ok a b alo ahi blo bhi Q1 Q2 Q3) as Hf.
    destruct (find_longest_match a b alo ahi blo bhi) as [[i j] k].
    unfold in_region in Hf. simpl in Hf.
    destruct Hf as (F1 & F2 & F3 & F4 & F5).
    destruct (Nat.eqb_spec k 0) as [Hk|Hk].
    { apply IH. split; [done|]. split; [done|].
      replace (map rect_of blocks ++ queue)
        with (map rect_of blocks ++ [] ++ queue) by done.
      eapply pairwise_refine; [exact Hp | constructor | done]. }
    apply IH. split; [|split].
    + apply Forall_app. split; [done|]. constructor; [|constructor].
      split; simpl; [lia | done].
    + destruct (Nat.ltb_spec alo i), (Nat.ltb_spec blo j),
        (Nat.ltb_spec (i + k) ahi), (Nat.ltb_spec (j + k) bhi); simpl;
        repeat (constructor; [unfold region_ok; lia|]); done.
    + rewrite map_app. simpl. rewrite <- app_assoc.
      set (news := if (i + k <? ahi)%nat && (j + k <? bhi)%nat
                   then (i + k, ahi, j + k, bhi) ::
                        (if (alo <? i)%nat && (blo <? j)%nat
                         then (alo, i, blo, j) :: queue else queue)
                   else if (alo <? i)%nat && (blo <? j)%nat
                        then (alo, i, blo, j) :: queue else queue).
      assert (E : exists subs,
                 [(i, i + k, j, j + k)] ++ news = subs ++ queue /\
                 Forall (inside (alo, ahi, blo, bhi)) subs /\
                 pairwise compat subs).
      { subst news.
        destruct ((i + k <? ahi)%nat && (j + k <? bhi)%nat),
                 ((alo <? i)%nat && (blo <? j)%nat).
        - exists [(i, i + k, j, j + k); (i + k, ahi, j + k, bhi);
                  (alo, i, blo, j)].
          split; [done|]. split.
          + repeat constructor; simpl; lia.
          + simpl. unfold compat, before.
            repeat split; repeat constructor; lia.
        - exists [(i, i + k, j, j + k); (i + k, ahi, j + k, bhi)].
          split; [done|]. split.
          + repeat constructor; simpl; lia.
          + simpl. unfold compat, before.
            repeat split; repeat constructor; lia.
        - exists [(i, i + k, j, j + k); (alo, i, blo, j)].
          split; [done|]. split.
          + repeat constructor; simpl; lia.
          + simpl. unfold compat, before.
            repeat split; repeat constructor; lia.
        - exists [(i, i + k, j, j + k)].
          split; [done|]. split.
          + repeat constructor; simpl; lia.
          + simpl. repeat split; constructor. }
      destruct E as (subs & E & Hin & Hsubs).
      assert (G : pairwise compat (map rect_of blocks ++ subs ++ queue)).
      { eapply pairwise_refine; [exact Hp | done | done]. }
      rewrite <- E in G. exact G.
Qed.

End MatchingBlocks.

Section Sorting.

Lemma pairwise_perm {A} (P : A -> A -> Prop) (l l' : list A) :
  (forall x y, P x y -> P y x) ->
  Permutation l l' -> pairwise P l -> pairwise P l'.
Proof.
  intros Hsym Hperm. induction Hperm as [|x l l' Hp IH|x y l|l l' l'' H1 IH1 H2 IH2].
  - done.
  - simpl. intros [H1 H2]. split; [by rewrite <- Hp | auto].
  - simpl. intros [H1 [H2 H3]].
    inversion H1 as [|? ? Hyx H1']; subst.
    repeat split; try done. constructor; [by apply Hsym | done].
  - auto.
Qed.

Lemma block_leb_total (x y : block) :
  block_leb x y = false -> block_leb y x = true.
Proof.
  destruct x as [[i1 j1] k1], y as [[i2 j2] k2]. unfold block_leb.
  destruct (Nat.ltb_spec i1 i2), (Nat.eqb_spec i1 i2), (Nat.ltb_spec j1 j2),
    (Nat.eqb_spec j1 j2), (Nat.leb_spec k1 k2),
    (Nat.ltb_spec i2 i1), (Nat.eqb_spec i2 i1), (Nat.ltb_spec j2 j1),
    (Nat.eqb_spec j2 j1), (Nat.leb_spec k2 k1); simpl; try done; lia.
Qed.

Lemma block_leb_trans (x y z : block) :
  block_leb x y = true -> block_leb y z = true -> block_leb x z = true.
Proof.
  destruct x as [[i1 j1] k1], y as [[i2 j2] k2], z as [[i3 j3] k3].
  unfold block_leb.
  destruct (Nat.ltb_spec i1 i2), (Nat.eqb_spec i1 i2), (Nat.ltb_spec j1 j2),
    (Nat.eqb_spec j1 j2), (Nat.leb_spec k1 k2),
    (Nat.ltb_spec i2 i3), (Nat.eqb_spec i2 i3), (Nat.ltb_spec j2 j3),
    (Nat.eqb_spec j2 j3), (Nat.leb_spec k2 k3),
    (Nat.ltb_spec i1 i3), (Nat.eqb_spec i1 i3), (Nat.ltb_spec j1 j3),
    (Nat.eqb_spec j1 j3), (Nat.leb_spec k1 k3); simpl; try done; lia.
Qed.

Lemma insert_block_perm (x : block) (l : list block) :
  Permutation (insert_block x l) (x :: l).
Proof.
  induction l as [|y l IH]; simpl; [done|].
  destruct (block_leb x y); [done|].
  rewrite IH. apply perm_swap.
Qed.

Lemma sort_blocks_perm (l : list block) : Permutation (sort_blocks l) l.
Proof.
  induction l as [|x l IH]; simpl; [done|].
  unfold sort_blocks in *. simpl. rewrite insert_block_perm. by constructor.
Qed.

Lemma insert_block_sorted (x : block) (l : list block) :
  pairwise (fun u v => block_leb u v = true) l ->
  pairwise (fun u v => block_leb u v = true) (insert_block x l).
Proof.
  induction l as [|y l IH]; simpl; [done|]. intros [H1 H2].
  destruct (block_leb x y) eqn:E; simpl.
  - repeat split; try done. constructor; [done|].
    eapply Forall_impl; [exact H1|]. intros z Hz. simpl in *.
    by eapply block_leb_trans.
  - split; [|by apply IH].
    rewrite insert_block_perm. constructor; [by apply block_leb_total | done].
Qed.

Lemma sort_blocks_sorted (l : list block) :
  pairwise (fun u v => block_leb u v = true) (sort_blocks l).
Proof.
  induction l as [|x l IH]; simpl; [done|]. by apply insert_block_sorted.
Qed.

End Sorting.

Section Ordered.
Variables a b : list string.

Lemma same_at_bounds (i j : nat) :
  same_at a b i j = true -> i < length a /\ j < length b.
Proof.
  unfold same_at.
  destruct (a !! i) eqn:Ha; [|done]. destruct (b !! j) eqn:Hb; [|done].
  intros _. split; by eapply lookup_lt_Some.
Qed.

Lemma same_at_eq (i j : nat) :
  same_at a b i j = true -> a !! i = b !! j.
Proof.
  unfold same_at.
  destruct (a !! i) eqn:Ha; [|done]. destruct (b !! j) eqn:Hb; [|done].
  by intros ->%String.eqb_eq.
Qed.

Lemma matches_bounds (i j k : nat) :
  matches a b i j k -> 1 <= k -> i + k <= length a /\ j + k <= length b.
Proof.
  intros Hm Hk. destruct (same_at_bounds _ _ (Hm (k - 1) ltac:(lia))). lia.
Qed.

Lemma matches_app (i j k1 k2 : nat) :
  matches a b i j k1 -> matches a b (i + k1) (j + k1) k2 ->
  matches a b i j (k1 + k2).
Proof.
  intros H1 H2 t Ht. destruct (Nat.lt_ge_cases t k1) as [Hlt|Hge].
  - by apply H1.
  - replace (i + t) with (i + k1 + (t - k1)) by lia.
    replace (j + t) with (j + k1 + (t - k1)) by lia. apply H2. lia.
Qed.

Lemma matches_zero (i j : nat) : matches a b i j 0.
Proof. intros t Ht. lia. Qed.

Lemma ordered_from_mono (i j i' j' : nat) (mb : list block) :
  i' <= i -> j' <= j -> ordered_from a b i j mb -> ordered_from a b i' j' mb.
Proof.
  destruct mb as [|[[ai bj] size] r]; [done|]. simpl.
  intros ? ? (?&?&?&?). repeat split; try done; lia.
Qed.

Lemma collapse_ordered (cur : block) (l tl : list block) :
  matches a b cur.1.1 cur.1.2 cur.2 ->
  ordered_from a b (cur.1.1 + cur.2) (cur.1.2 + cur.2) (l ++ tl) ->
  ordered_from a b cur.1.1 cur.1.2 (collapse cur l ++ tl).
Proof.
  revert cur. induction l as [|[[i2 j2] k2] l IH]; intros [[i1 j1] k1] Hm Ho.
  - simpl in *. destruct (Nat.eqb_spec k1 0) as [->|Hk]; simpl.
    + by rewrite !Nat.add_0_r in Ho.
    + repeat split; try done.
  - simpl in Hm, Ho. destruct Ho as (O1 & O2 & O3 & O4).
    cbn [collapse].
    destruct (Nat.eqb_spec (i1 + k1) i2) as [E1|E1],
             (Nat.eqb_spec (j1 + k1) j2) as [E2|E2]; simpl.
    + subst i2 j2. apply (IH (i1, j1, k1 + k2)); simpl.
      * by apply matches_app.
      * by rewrite !Nat.add_assoc.
    + pose proof (IH (i2, j2, k2) O3 O4) as H. simpl in H.
      destruct (Nat.eqb_spec k1 0); simpl.
      * eapply ordered_from_mono; [| |exact H]; lia.
      * repeat split; try done.
        eapply ordered_from_mono; [| |exact H]; lia.
    + pose proof (IH (i2, j2, k2) O3 O4) as H. simpl in H.
      destruct (Nat.eqb_spec k1 0); simpl.
      * eapply ordered_from_mono; [| |exact H]; lia.
      * repeat split; try done.
        eapply ordered_from_mono; [| |exact H]; lia.
    + pose proof (IH (i2, j2, k2) O3 O4) as H. simpl in H.
      destruct (Nat.eqb_spec k1 0); simpl.
      * eapply ordered_from_mono; [| |exact H]; lia.
      * repeat split; try done.
        eapply ordered_from_mono; [| |exact H]; lia.
Qed.

(** A block of [l] that comes first in the order of the sort lies before
    the others. *)
Lemma sorted_before (x y : block) :
  found a b x -> found a b y ->
  compat (rect_of x) (rect_of y) -> block_leb x y = true ->
  before (rect_of x) (rect_of y).
Proof.
  destruct x as [[i1 j1] k1], y as [[i2 j2] k2].
  unfold found, compat, before, block_leb. simpl.
  intros [K1 _] [K2 _] [H|[H1 H2]] Hle; [done|].
  exfalso.
  destruct (Nat.ltb_spec i1 i2), (Nat.eqb_spec i1 i2); simpl in Hle;
    try done; lia.
Qed.

Lemma pairwise_and {A} (P Q : A -> A -> Prop) (l : list A) :
  pairwise P l -> pairwise Q l -> pairwise (fun x y => P x y /\ Q x y) l.
Proof.
  induction l as [|x l IH]; simpl; [done|].
  intros [H1 H2] [H3 H4]. split; [|auto].
  apply Forall_and. tauto.
Qed.

Lemma pairwise_map {A B} (f : A -> B) (P : B -> B -> Prop) (l : list A) :
  pairwise P (map f l) <-> pairwise (fun x y => P (f x) (f y)) l.
Proof.
  induction l as [|x l IH]; simpl; [done|].
  rewrite Forall_map, IH. done.
Qed.

Lemma ordered_from_sorted (l : list block) (i j : nat) :
  Forall (found a b) l ->
  pairwise (fun x y => before (rect_of x) (rect_of y)) l ->
  Forall (fun x => i <= x.1.1 /\ j <= x.1.2) l ->
  i <= length a -> j <= length b ->
  ordered_from a b i j (l ++ [(length a, length b, 0)]).
Proof.
  revert i j. induction l as [|[[ai bj] k] l IH]; intros i j Hf Hp Hs Hi Hj.
  - simpl. repeat split; try done. apply matches_zero.
  - inversion Hf as [|? ? [Hk Hm] Hf']; subst.
    inversion Hs as [|? ? [S1 S2] Hs']; subst.
    destruct Hp as [Hp1 Hp2]. simpl in *.
    destruct (matches_bounds ai bj k Hm Hk).
    repeat split; try done.
    apply IH; try done.
    eapply Forall_impl; [exact Hp1|].
    intros [[i2 j2] k2]. simpl. lia.
Qed.

(** The blocks [get_opcodes] goes through. *)
Lemma get_matching_blocks_ordered :
  ordered_from a b 0 0 (get_matching_blocks a b).
Proof.
  unfold get_matching_blocks.
  set (L := matching_loop a b _ _ _).
  destruct (matching_loop_inv a b (2 * length a + 1)
              [(0, length a, 0, length b)] []) as [Hf Hp].
  { split; [constructor|]. split.
    - constructor; [|constructor]. unfold region_ok. lia.
    - simpl. split; [constructor | done]. }
  fold L in Hf, Hp.
  pose proof (sort_blocks_perm L) as Hperm.
  assert (Hf' : Forall (found a b) (sort_blocks L)) by (by rewrite Hperm).
  assert (Hp' : pairwise compat (map rect_of (sort_blocks L))).
  { eapply pairwise_perm; [apply compat_sym | | exact Hp].
    symmetry. by apply Permutation_map. }
  apply (pairwise_map rect_of compat) in Hp'.
  pose proof (pairwise_and _ _ _ Hp' (sort_blocks_sorted L)) as Hboth.
  assert (Hbefore : pairwise (fun x y => before (rect_of x) (rect_of y))
                      (sort_blocks L)).
  { clear -Hboth Hf'. induction (sort_blocks L) as [|x l IH]; [done|].
    inversion Hf' as [|? ? Fx Fl]; subst. destruct Hboth as [B1 B2].
    split; [|auto].
    rewrite Forall_forall in *. intros y Hy.
    destruct (B1 y Hy). apply sorted_before; auto. }
  apply (collapse_ordered (0, 0, 0)); simpl; [apply matches_zero|].
  apply ordered_from_sorted; try done; try lia.
  rewrite Forall_forall. intros; lia.
Qed.

End Ordered.

(** ** The lines of a unified diff *)

Section Tiling.
Variables a b : list string.

Lemma slice_split (s : list string) (i k : nat) :
  i <= k -> drop i s = slice s i k ++ drop k s.
Proof.
  intros H. unfold slice.
  rewrite <- (take_drop (k - i) (drop i s)) at 1.
  rewrite drop_drop. by replace (i + (k - i)) with k by lia.
Qed.

Lemma slice_empty (s : list string) (i : nat) : slice s i i = [].
Proof. unfold slice. by rewrite Nat.sub_diag. Qed.

Lemma slice_matches (i j k : nat) :
  matches a b i j k -> slice a i (i + k) = slice b j (j + k).
Proof.
  intros Hm. unfold slice.
  replace (i + k - i) with k by lia. replace (j + k - j) with k by lia.
  apply list_eq. intros t.
  destruct (Nat.lt_ge_cases t k) as [Ht|Ht].
  - rewrite !lookup_take_lt, !lookup_drop by done.
    apply same_at_eq. by apply Hm.
  - by rewrite !lookup_take_ge.
Qed.

Lemma ordered_from_bound (mb : list block) (i j : nat) :
  ordered_from a b i j (mb ++ [(length a, length b, 0)]) ->
  i <= length a /\ j <= length b.
Proof.
  revert i j. induction mb as [|[[ai bj] size] mb IH]; intros i j; simpl.
  - intros (?&?&_). done.
  - intros (H1 & H2 & _ & H4). destruct (IH _ _ H4). lia.
Qed.

Lemma removed_of_app (x y : list opcode) :
  removed_of a (x ++ y) = removed_of a x ++ removed_of a y.
Proof. unfold removed_of. by rewrite map_app, concat_app. Qed.

Lemma added_of_app (x y : list opcode) :
  added_of b (x ++ y) = added_of b x ++ added_of b y.
Proof. unfold added_of. by rewrite map_app, concat_app. Qed.

Lemma kept_of_app (x y : list opcode) :
  kept_of a (x ++ y) = kept_of a x ++ kept_of a y.
Proof. unfold kept_of. by rewrite map_app, concat_app. Qed.

Lemma gap_ops_spec (i ai j bj : nat) :
  i <= ai -> j <= bj ->
  removed_of a (gap_ops i ai j bj) = slice a i ai /\
  added_of b (gap_ops i ai j bj) = slice b j bj /\
  kept_of a (gap_ops i ai j bj) = [].
Proof.
  intros Hi Hj. unfold gap_ops, removed_of, added_of, kept_of.
  destruct (Nat.ltb_spec i ai), (Nat.ltb_spec j bj); simpl;
    rewrite ?app_nil_r; repeat split; try done.
  - assert (j = bj) as -> by lia. by rewrite slice_empty.
  - assert (i = ai) as -> by lia. by rewrite slice_empty.
  - assert (i = ai) as -> by lia. by rewrite slice_empty.
  - assert (j = bj) as -> by lia. by rewrite slice_empty.
Qed.

Lemma opcodes_from_cons (i j ai bj size : nat) (r : list block) :
  opcodes_from i j ((ai, bj, size) :: r) =
  gap_ops i ai j bj
  ++ (if (size =? 0)%nat then []
      else [(Equal, ai, ai + size, bj, bj + size)])
  ++ opcodes_from (ai + size) (bj + size) r.
Proof. reflexivity. Qed.

(** The opcodes cut both sequences into the same kept lines, the removed
    lines of [a] and the added lines of [b]. *)
Lemma opcodes_tile (mb : list block) (i j : nat) :
  ordered_from a b i j (mb ++ [(length a, length b, 0)]) ->
  let ops := opcodes_from i j (mb ++ [(length a, length b, 0)]) in
  Permutation (drop i a) (kept_of a ops ++ removed_of a ops) /\
  Permutation (drop j b) (kept_of a ops ++ added_of b ops).
Proof.
  assert (Hstep : forall i j ai bj size rest,
    i <= ai -> j <= bj -> matches a b ai bj size ->
    Permutation (drop (ai + size) a) (kept_of a rest ++ removed_of a rest) ->
    Permutation (drop (bj + size) b) (kept_of a rest ++ added_of b rest) ->
    let ops := gap_ops i ai j bj
               ++ (if (size =? 0)%nat then []
                   else [(Equal, ai, ai + size, bj, bj + size)])
               ++ rest in
    Permutation (drop i a) (kept_of a ops ++ removed_of a ops) /\
    Permutation (drop j b) (kept_of a ops ++ added_of b ops)).
  { clear i j. intros i j ai bj size rest Hi Hj Hm Ha Hb. cbv zeta.
    destruct (gap_ops_spec i ai j bj Hi Hj) as (G1 & G2 & G3).
    rewrite !kept_of_app, !removed_of_app, !added_of_app, G1, G2, G3.
    rewrite (slice_split a i ai Hi), (slice_split b j bj Hj).
    rewrite (slice_split a ai (ai + size)) by lia.
    rewrite (slice_split b bj (bj + size)) by lia.
    rewrite Ha, Hb. rewrite <- (slice_matches ai bj size Hm).
    destruct (Nat.eqb_spec size 0) as [->|Hs].
    - rewrite Nat.add_0_r, slice_empty. simpl.
      split.
      + rewrite (Permutation_app_comm (slice a i ai)).
        rewrite <- !app_assoc.
        apply Permutation_app_head, Permutation_app_comm.
      + rewrite (Permutation_app_comm (slice b j bj)).
        rewrite <- !app_assoc.
        apply Permutation_app_head, Permutation_app_comm.
    - unfold kept_of, removed_of, added_of. simpl.
      rewrite !app_nil_r. fold (kept_of a rest) (removed_of a rest)
        (added_of b rest).
      split.
      + rewrite (Permutation_app_comm (slice a i ai)).
        rewrite <- !app_assoc. do 2 apply Permutation_app_head.
        apply Permutation_app_comm.
      + rewrite (Permutation_app_comm (slice b j bj)).
        rewrite <- !app_assoc. do 2 apply Permutation_app_head.
        apply Permutation_app_comm. }
  revert i j. induction mb as [|[[ai bj] size] mb IH]; intros i j Ho.
  - simpl in Ho. destruct Ho as (Hi & Hj & Hm & _).
    change ([] ++ [(length a, length b, 0)]) with [(length a, length b, 0)].
    cbv zeta. rewrite opcodes_from_cons.
    apply Hstep; try done.
    + rewrite Nat.add_0_r, drop_all. done.
    + rewrite Nat.add_0_r, drop_all. done.
  - change (((ai, bj, size) :: mb) ++ [(length a, length b, 0)])
      with ((ai, bj, size) :: (mb ++ [(length a, length b, 0)])) in *.
    simpl in Ho. destruct Ho as (Hi & Hj & Hm & Ho).
    cbv zeta. rewrite opcodes_from_cons.
    destruct (IH _ _ Ho) as [Ha Hb].
    by apply Hstep.
Qed.

End Tiling.

Section DiffLines.
Variables a b : list string.

Lemma removed_lines_app (x y : list diff_line) :
  removed_lines (x ++ y) = removed_lines x ++ removed_lines y.
Proof. unfold removed_lines. by rewrite map_app, concat_app. Qed.

Lemma added_lines_app (x y : list diff_line) :
  added_lines (x ++ y) = added_lines x ++ added_lines y.
Proof. unfold added_lines. by rewrite map_app, concat_app. Qed.

Lemma lines_of_map (l : list string) :
  removed_lines (map Context l) = [] /\ added_lines (map Context l) = [] /\
  removed_lines (map Removed l) = l /\ added_lines (map Removed l) = [] /\
  removed_lines (map Added l) = [] /\ added_lines (map Added l) = l.
Proof.
  unfold removed_lines, added_lines.
  induction l as [|x l (H1 & H2 & H3 & H4 & H5 & H6)]; simpl; [done|].
  repeat split; try done; by f_equal.
Qed.

Lemma opcode_lines_spec (c : opcode) :
  removed_lines (opcode_lines a b c) = op_removed a c /\
  added_lines (opcode_lines a b c) = op_added b c.
Proof.
  destruct c as [[[[t i1] i2] j1] j2]. unfold opcode_lines, op_removed, op_added.
  destruct (lines_of_map (slice a i1 i2)) as (A1 & A2 & A3 & A4 & A5 & A6).
  destruct (lines_of_map (slice b j1 j2)) as (B1 & B2 & B3 & B4 & B5 & B6).
  destruct t; rewrite ?removed_lines_app, ?added_lines_app,
    ?A1, ?A2, ?A3, ?A4, ?A5, ?A6, ?B1, ?B2, ?B3, ?B4, ?B5, ?B6, ?app_nil_r;
    done.
Qed.

Lemma concat_opcode_lines_spec (g : list opcode) :
  removed_lines (concat (map (opcode_lines a b) g)) = removed_of a g /\
  added_lines (concat (map (opcode_lines a b) g)) = added_of b g.
Proof.
  induction g as [|c g [IH1 IH2]]; [done|]. simpl.
  rewrite removed_lines_app, added_lines_app, IH1, IH2.
  by destruct (opcode_lines_spec c) as [-> ->].
Qed.

Lemma group_lines_spec (g : list opcode) :
  removed_lines (group_lines a b g) = removed_of a g /\
  added_lines (group_lines a b g) = added_of b g.
Proof.
  unfold group_lines. destruct g as [|[[[[t f1] f2] f3] f4] g]; [done|].
  destruct (last _) as [[[[[t' l1] l2] l3] l4]|] eqn:E.
  - change (removed_lines (Hunk ?x ?y :: ?l)) with (removed_lines l).
    change (added_lines (Hunk ?x ?y :: ?l)) with (added_lines l).
    apply concat_opcode_lines_spec.
  - by apply last_None in E.
Qed.

Lemma groups_lines_spec (gs : list (list opcode)) :
  removed_lines (concat (map (group_lines a b) gs))
    = concat (map (removed_of a) gs) /\
  added_lines (concat (map (group_lines a b) gs))
    = concat (map (added_of b) gs).
Proof.
  induction gs as [|g gs [IH1 IH2]]; [done|]. simpl.
  rewrite removed_lines_app, added_lines_app, IH1, IH2.
  by destruct (group_lines_spec g) as [-> ->].
Qed.

Lemma group_loop_spec (n : nat) (codes g : list opcode) :
  concat (map (removed_of a) (group_loop n codes g))
    = removed_of a g ++ removed_of a codes /\
  concat (map (added_of b) (group_loop n codes g))
    = added_of b g ++ added_of b codes.
Proof.
  revert g. induction codes as [|[[[[t i1] i2] j1] j2] codes IH]; intros g.
  - assert (removed_of a [] = []) as -> by done.
    assert (added_of b [] = []) as -> by done.
    rewrite !app_nil_r.
    destruct g as [|[[[[t f1] f2] f3] f4] [|c g]]; [done| |].
    + destruct t; unfold removed_of, added_of; simpl;
        by rewrite ?app_nil_r.
    + destruct t; unfold removed_of, added_of; simpl;
        by rewrite ?app_nil_r.
  - cbn [group_loop].
    destruct (is_equal t && _) eqn:E.
    + apply andb_true_iff in E as [Et _]. destruct t; try done.
      simpl. destruct (IH [(Equal, Nat.max i1 (i2 - n), i2,
                            Nat.max j1 (j2 - n), j2)]) as [-> ->].
      rewrite removed_of_app, added_of_app.
      unfold removed_of, added_of. simpl. by rewrite !app_nil_r.
    + destruct (IH (g ++ [(t, i1, i2, j1, j2)])) as [-> ->].
      rewrite removed_of_app, added_of_app, <- !app_assoc.
      unfold removed_of, added_of. simpl. by rewrite !app_nil_r.
Qed.

Lemma fix_first_spec (n : nat) (codes : list opcode) :
  removed_of a (fix_first n codes) = removed_of a codes /\
  added_of b (fix_first n codes) = added_of b codes.
Proof.
  destruct codes as [|[[[[t i1] i2] j1] j2] codes]; [done|].
  by destruct t.
Qed.

Lemma fix_last_spec (n : nat) (codes : list opcode) :
  removed_of a (fix_last n codes) = removed_of a codes /\
  added_of b (fix_last n codes) = added_of b codes.
Proof.
  induction codes as [|[[[[t i1] i2] j1] j2] codes [IH1 IH2]]; [done|].
  destruct codes as [|c codes]; [by destruct t|].
  destruct t;
    change (fix_last n (?x :: c :: codes))
      with (x :: fix_last n (c :: codes));
    unfold removed_of, added_of in *; cbn [map concat];
    by rewrite IH1, IH2.
Qed.

(** The removed and added lines of the diff are those of the opcodes. *)
Lemma unified_diff_lines_spec (fromfile tofile : string) :
  removed_lines (unified_diff_lines a b fromfile tofile)
    = removed_of a (get_opcodes a b) /\
  added_lines (unified_diff_lines a b fromfile tofile)
    = added_of b (get_opcodes a b).
Proof.
  unfold unified_diff_lines, get_grouped_opcodes.
  set (codes := match get_opcodes a b with
                | [] => [(Equal, 0, 1, 0, 1)]
                | _ => get_opcodes a b
                end).
  assert (Hc : removed_of a codes = removed_of a (get_opcodes a b) /\
               added_of b codes = added_of b (get_opcodes a b)).
  { subst codes. by destruct (get_opcodes a b). }
  destruct Hc as [<- <-].
  destruct (fix_first_spec 3 codes) as [<- <-].
  destruct (fix_last_spec 3 (fix_first 3 codes)) as [<- <-].
  destruct (group_loop_spec 3 (fix_last 3 (fix_first 3 codes)) [])
    as [H1 H2].
  simpl in H1, H2. rewrite <- H1, <- H2.
  destruct (groups_lines_spec
              (group_loop 3 (fix_last 3 (fix_first 3 codes)) []))
    as [<- <-].
  by destruct (group_loop 3 _ []).
Qed.

(** Whatever the matcher finds: the diff cuts [a] into kept and removed
    lines, and [b] into the same kept lines and the added lines. *)
Lemma unified_diff_lines_perm (fromfile tofile : string) :
  exists kept,
    Permutation a
      (kept ++ removed_lines (unified_diff_lines a b fromfile tofile)) /\
    Permutation b
      (kept ++ added_lines (unified_diff_lines a b fromfile tofile)).
Proof.
  destruct (unified_diff_lines_spec fromfile tofile) as [-> ->].
  pose proof (get_matching_blocks_ordered a b) as Ho.
  unfold get_opcodes.
  unfold get_matching_blocks in *.
  destruct (opcodes_tile a b _ 0 0 Ho) as [H1 H2].
  eexists. split; [exact H1 | exact H2].
Qed.

End DiffLines.

(** ** [diff_buggy] *)

Section Fuel.
Variables a b : list string.

(** The fuel of [get_matching_blocks] is enough: the queue is empty
    before it runs out, so more fuel gives the same blocks. *)
Lemma matching_loop_fuel (fuel extra : nat) queue blocks :
  Forall (region_ok a) queue -> total_weight queue <= fuel ->
  matching_loop a b (fuel + extra) queue blocks
  = matching_loop a b fuel queue blocks.
Proof.
  revert queue blocks.
  induction fuel as [|fuel IH]; intros queue blocks Hq Hw.
  - destruct queue as [|[[[alo ahi] blo] bhi] queue].
    + simpl. by destruct extra.
    + simpl in Hw. lia.
  - destruct queue as [|[[[alo ahi] blo] bhi] queue]; [done|].
    inversion Hq as [|? ? HQ Hq']; subst.
    unfold region_ok in HQ. destruct HQ as (Q1 & Q2 & Q3).
    cbn [Nat.add matching_loop].
    pose proof (find_longest_match_ok a b alo ahi blo bhi Q1 Q2 Q3) as Hf.
    destruct (find_longest_match a b alo ahi blo bhi) as [[i j] k].
    unfold in_region in Hf. simpl in Hf.
    destruct Hf as (F1 & F2 & F3 & F4 & F5). simpl in Hw.
    destruct (Nat.eqb_spec k 0) as [Hk|Hk]; [apply IH; [done | lia]|].
    apply IH.
    + destruct (Nat.ltb_spec alo i), (Nat.ltb_spec blo j),
        (Nat.ltb_spec (i + k) ahi), (Nat.ltb_spec (j + k) bhi); simpl;
        repeat (constructor; [unfold region_ok; lia|]); done.
    + destruct (Nat.ltb_spec alo i), (Nat.ltb_spec blo j),
        (Nat.ltb_spec (i + k) ahi), (Nat.ltb_spec (j + k) bhi); simpl; lia.
Qed.

End Fuel.

Lemma join_relative (prefix name : string) :
  prefix <> "" -> ends_with_sep prefix = false ->
  startswith name "/" = false ->
  join prefix [name] = prefix +:+ "/" +:+ name.
Proof.
  intros Hp He Hn. unfold join. simpl. unfold join_step.
  by rewrite Hn, He, (proj2 (is_empty_false prefix) Hp).
Qed.

Lemma diff_buggy_eq (self : project) (w : world) (buggy_text backup_text : string) :
  fs_lookup (fs w) (join (dir self) [buggy self]) = Some (File buggy_text) ->
  fs_lookup (fs w) (_buggy_backup self) = Some (File backup_text) ->
  diff_buggy self w =
  (Ok (unified_diff (lines_of (translate_newlines backup_text))
         (lines_of (translate_newlines buggy_text))
         (join "a" [buggy self]) (join "b" [buggy self])), w).
Proof.
  intros H1 H2. unfold diff_buggy. py_unfold. by rewrite H1, H2.
Qed.

(** C8 as stated fails: the third of six lines is changed from [B] to [A],
    and the diff removes three lines and adds three. *)
Lemma diff_buggy_single_change_counterexample :
  exists X Y,
    lines_of (translate_newlines "A
A
B
A
A
A
") = X ++ ["B
"] ++ Y /\
    lines_of (translate_newlines "A
A
A
A
A
A
") = X ++ ["A
"] ++ Y /\
    diff_buggy (Run.proj None) Run.w_diff =
    (Ok ["--- a/bug.c
"; "+++ b/bug.c
"; "@@ -1,6 +1,6 @@
"; "-A
"; "-A
"; "-B
"; " A
"; " A
"; " A
"; "+A
"; "+A
"; "+A
"], Run.w_diff).
Proof.
  exists ["A
"; "A
"], ["A
"; "A
"; "A
"].
  repeat split; vm_compute; reflexivity.
Qed.

(** C8, amended. When both files can be read, [diff_buggy] yields the text
    of the unified diff from the backup to the buggy file. The diff is empty
    when the buggy file has the lines of the backup; a diff that is not empty
    starts with the two header lines, which name [a/<buggy>] and
    [b/<buggy>] for a relative path [<buggy>]; and when exactly one line
    differs, the removed lines with the new version of that line are, up to
    order, the added lines with its old version: the old version is among the
    removed lines, the new version among the added lines, and any other line
    that is removed is added back. *)
Theorem diff_buggy_spec
    (self : project) (w : world) (buggy_text backup_text : string) :
  fs_lookup (fs w) (join (dir self) [buggy self]) = Some (File buggy_text) ->
  fs_lookup (fs w) (_buggy_backup self) = Some (File backup_text) ->
  let backup_lines := lines_of (translate_newlines backup_text) in
  let buggy_lines := lines_of (translate_newlines buggy_text) in
  let dl := unified_diff_lines backup_lines buggy_lines
              (join "a" [buggy self]) (join "b" [buggy self]) in
  diff_buggy self w = (Ok (map render dl), w) /\
  (buggy_lines = backup_lines -> dl = []) /\
  (dl <> [] ->
   exists rest, dl = FromFile (join "a" [buggy self])
                     :: ToFile (join "b" [buggy self]) :: rest) /\
  (startswith (buggy self) "/" = false ->
   join "a" [buggy self] = "a/" +:+ buggy self /\
   join "b" [buggy self] = "b/" +:+ buggy self) /\
  (forall X Y l l',
     backup_lines = X ++ l :: Y -> buggy_lines = X ++ l' :: Y ->
     Permutation (l' :: removed_lines dl) (l :: added_lines dl) /\
     (l <> l' -> In l (removed_lines dl) /\ In l' (added_lines dl))).
Proof.
  intros H1 H2. cbv zeta.
  set (backup_lines := lines_of (translate_newlines backup_text)).
  set (buggy_lines := lines_of (translate_newlines buggy_text)).
  set (dl := unified_diff_lines backup_lines buggy_lines _ _).
  split; [by apply diff_buggy_eq|]. split; [|split; [|split]].
  - intros E. subst dl. rewrite E.
    unfold unified_diff_lines. by rewrite get_grouped_opcodes_same.
  - subst dl. unfold unified_diff_lines.
    destruct (get_grouped_opcodes _ _ 3); [done|]. intros _. by eexists.
  - intros Hrel. split; by apply join_relative.
  - intros X Y l l' Ha Hb.
    destruct (unified_diff_lines_perm backup_lines buggy_lines
                (join "a" [buggy self]) (join "b" [buggy self]))
      as (kept & Pa & Pb).
    fold dl in Pa, Pb.
    assert (P : Permutation (l' :: removed_lines dl) (l :: added_lines dl)).
    { apply (Permutation_app_inv_l kept).
      rewrite <- !Permutation_middle, <- Pa, <- Pb, Ha, Hb.
      rewrite <- !Permutation_middle. apply perm_swap. }
    split; [done|]. intros Hne. split.
    + assert (Hin : In l (l' :: removed_lines dl)).
      { apply (Permutation_in l (Permutation_sym P)). by left. }
      destruct Hin as [E|Hin]; [by subst | done].
    + assert (Hin : In l' (l :: added_lines dl)).
      { apply (Permutation_in l' P). by left. }
      destruct Hin as [E|Hin]; [by subst | done].
Qed.

Lemma diff_buggy_spec_witness :
  let backup_lines := lines_of (translate_newlines "A
A
B
A
A
A
") in
  let buggy_lines := lines_of (translate_newlines "A
A
A
A
A
A
") in
  let dl := unified_diff_lines backup_lines buggy_lines
              (join "a" [buggy (Run.proj None)])
              (join "b" [buggy (Run.proj None)]) in
  diff_buggy (Run.proj None) Run.w_diff = (Ok (map render dl), Run.w_diff) /\
  (buggy_lines = backup_lines -> dl = []) /\
  (dl <> [] ->
   exists rest, dl = FromFile (join "a" [buggy (Run.proj None)])
                     :: ToFile (join "b" [buggy (Run.proj None)]) :: rest) /\
  (startswith (buggy (Run.proj None)) "/" = false ->
   join "a" [buggy (Run.proj None)] = "a/" +:+ buggy (Run.proj None) /\
   join "b" [buggy (Run.proj None)] = "b/" +:+ buggy (Run.proj None)) /\
  (forall X Y l l',
     backup_lines = X ++ l :: Y -> buggy_lines = X ++ l' :: Y ->
     Permutation (l' :: removed_lines dl) (l :: added_lines dl) /\
     (l <> l' -> In l (removed_lines dl) /\ In l' (added_lines dl))).
Proof.
  apply (diff_buggy_spec (Run.proj None) Run.w_diff).
  - vm_compute. reflexivity.
  - vm_compute. reflexivity.
Defined.

(** * Further properties of the code *)

Ltac dict_steps :=
  repeat first
    [ match goal with
      | H : ?l = Some _ |- context [?l] => rewrite H
      | H : ?l = None |- context [?l] => rewrite H
      end
    | rewrite lookup_insert_eq
    | rewrite lookup_insert_ne by done
    | rewrite lookup_empty
    | progress simpl ].

(** ** Files: lookups and copies *)

Lemma fs_lookup_Some (f : gmap string node) (p : string) (n : node) :
  fs_lookup f p = Some n -> p <> "" /\ f !! p = Some n.
Proof. unfold fs_lookup. by destruct p. Qed.

Lemma fs_lookup_nonempty (f : gmap string node) (p : string) :
  p <> "" -> fs_lookup f p = f !! p.
Proof. unfold fs_lookup. by destruct p. Qed.

Lemma backup_path_neq (p : string) : p +:+ ".backup" <> p.
Proof. by apply append_suffix_neq. Qed.

Lemma backup_path_nonempty (p : string) : is_empty (p +:+ ".backup") = false.
Proof. apply is_empty_false. by apply append_nonempty_r. Qed.

Lemma join_nonempty (d name : string) : name <> "" -> join d [name] <> "".
Proof.
  intros Hn. simpl. unfold join_step.
  destruct (startswith name "/"); [done|].
  destruct (is_empty d || ends_with_sep d).
  - by apply append_nonempty_r.
  - apply append_nonempty_r. by apply append_nonempty_r.
Qed.

Lemma join_absolute (a b : string) : isabs b = true -> join a [b] = b.
Proof. intros H. simpl. unfold join_step. unfold isabs in H. by rewrite H. Qed.

Lemma copyfile_eq (src dst : string) (w : world) :
  src <> dst -> is_empty dst = false ->
  copyfile src dst w =
  match fs_lookup (fs w) src with
  | Some (File c) =>
      match fs w !! dst with
      | Some Dir => (Raise (IsADirectoryError dst), w)
      | _ => (Ok tt, set_fs (<[dst := File c]> (fs w)) w)
      end
  | Some Dir => (Raise (IsADirectoryError src), w)
  | None => (Raise (FileNotFoundError src), w)
  end.
Proof.
  intros Hne Hd. unfold copyfile.
  destruct (String.eqb_spec src dst) as [E|_]; [done|].
  unfold bind, read_file, write_file. rewrite Hd.
  by destruct (fs_lookup (fs w) src) as [[c|]|].
Qed.

(** [copyfile] raises and leaves the world as it was, or writes the
    content of [src] to [dst]. *)
Lemma copyfile_cases (src dst : string) (w : world) :
  (exists e, copyfile src dst w = (Raise e, w)) \/
  (exists c, src <> dst /\ dst <> "" /\
     fs_lookup (fs w) src = Some (File c) /\ fs w !! dst <> Some Dir /\
     copyfile src dst w = (Ok tt, set_fs (<[dst := File c]> (fs w)) w)).
Proof.
  unfold copyfile.
  destruct (String.eqb_spec src dst) as [E|Hne]; [left; by eexists|].
  unfold bind, read_file, write_file.
  destruct (fs_lookup (fs w) src) as [[c|]|] eqn:Hs; try (left; by eexists).
  destruct dst as [|ch dst]; [left; by eexists|]. simpl.
  destruct (fs w !! String ch dst) as [[c'|]|] eqn:Hd;
    try (left; by eexists); right; exists c; by rewrite ?Hd.
Qed.

(** ** [Project.__init__] and [restore_buggy] *)

(** X1. [Project.__init__] returns a project exactly by copying the buggy
    file to [<dir>/<buggy>.backup]: the world is the one before with that
    one file written, the buggy file is as it was, and [stderr] is discarded
    unless the configuration is verbose. When it raises, the world is as it
    was, and what it raises is never [SameFileError]; a buggy file that is
    not there is a [FileNotFoundError]. *)
Theorem init_backup
    (cfg : config) (d b bc : string) (cc : option string)
    (ts : gmap string test_spec) (w : world) :
  let p := join d [b] in
  let rw := init cfg d b bc cc ts w in
  (forall self w', rw = (Ok self, w') ->
     exists c,
       fs_lookup (fs w) p = Some (File c) /\
       w' = set_fs (<[p +:+ ".backup" := File c]> (fs w)) w /\
       fs w' !! p = Some (File c) /\
       _buggy_backup self = p +:+ ".backup" /\
       stderr self = (if verbose cfg then Inherit else DEVNULL)) /\
  (forall e, rw.1 = Raise e -> rw.2 = w /\ e <> SameFileError) /\
  (fs_lookup (fs w) p = None -> rw.1 = Raise (FileNotFoundError p)).
Proof.
  cbv zeta.
  remember (init cfg d b bc cc ts w) as rw eqn:Hrw.
  unfold init in Hrw. cbn [dir buggy _buggy_backup] in Hrw.
  revert Hrw. generalize (join d [b]). intros p Hrw.
  unfold bind, ret in Hrw.
  rewrite (copyfile_eq p (p +:+ ".backup") w) in Hrw
    by (try apply backup_path_nonempty; intros E; symmetry in E;
        by apply backup_path_neq in E).
  subst rw.
  destruct (fs_lookup (fs w) p) as [[c|]|] eqn:Hp.
  - assert (Hok : forall self w',
      (Ok {| stderr := if verbose cfg then Inherit else DEVNULL; dir := d;
             buggy := b; build_cmd := bc; configure_cmd := cc;
             tests_spec := ts; _buggy_backup := p +:+ ".backup" |},
       set_fs (<[p +:+ ".backup" := File c]> (fs w)) w) = (Ok self, w') ->
      exists c0, Some (File c) = Some (File c0) /\
        w' = set_fs (<[p +:+ ".backup" := File c0]> (fs w)) w /\
        fs w' !! p = Some (File c0) /\
        _buggy_backup self = p +:+ ".backup" /\
        stderr self = (if verbose cfg then Inherit else DEVNULL)).
    { intros self w' E. injection E as <- <-. exists c. simpl.
      repeat split; try done.
      rewrite lookup_insert_ne by apply backup_path_neq.
      by apply fs_lookup_Some in Hp as [_ ?]. }
    destruct (fs w !! (p +:+ ".backup")) as [[c'|]|] eqn:Hb; simpl.
    + split; [exact Hok|]. split; [intros e [=]|intros [=]].
    + split; [intros ? ? [=]|]. split; [|intros [=]].
      by intros e [= <-].
    + split; [exact Hok|]. split; [intros e [=]|intros [=]].
  - split; [intros ? ? [=]|]. split; [|intros [=]].
    by intros e [= <-].
  - split; [intros ? ? [=]|]. split; [|done].
    by intros e [= <-].
Qed.

(** X2. The backup is the buggy file as it was at the latest construction:
    when a second project is made for the same file after the file was
    overwritten, the backup of the first project holds the new content, and
    [restore_buggy] of the first project then puts the new content back. *)
Theorem init_again_replaces_backup
    (cfg cfg' : config) (d b bc bc' : string) (cc cc' : option string)
    (ts ts' : gmap string test_spec) (w0 w1 : world) (self : project)
    (c' : string) :
  init cfg d b bc cc ts w0 = (Ok self, w1) ->
  let w2 := mutate self (Overwrite c') w1 in
  exists self' w3 w4,
    init cfg' d b bc' cc' ts' w2 = (Ok self', w3) /\
    _buggy_backup self' = _buggy_backup self /\
    fs w3 !! _buggy_backup self = Some (File c') /\
    restore_buggy self w3 = (Ok tt, w4) /\
    fs w4 !! join d [b] = Some (File c').
Proof.
  intros Hinit. cbv zeta.
  destruct (init_inv _ _ _ _ _ _ _ _ _ Hinit)
    as (c & Hd & Hb & Hbk & Hne & Hc & ->).
  unfold mutate. rewrite Hd, Hb. simpl.
  set (p := join d [b]) in *.
  set (w2 := set_fs _ _).
  assert (H2 : fs w2 = <[p := File c']> (<[p +:+ ".backup" := File c]> (fs w0)))
    by done.
  assert (Hinit2 : init cfg' d b bc' cc' ts' w2 =
    (Ok {| stderr := if verbose cfg' then Inherit else DEVNULL; dir := d;
           buggy := b; build_cmd := bc'; configure_cmd := cc';
           tests_spec := ts'; _buggy_backup := p +:+ ".backup" |},
     set_fs (<[p +:+ ".backup" := File c']> (fs w2)) w2)).
  { unfold init. cbn [dir buggy _buggy_backup]. fold p.
    unfold bind, ret.
    rewrite (copyfile_eq p (p +:+ ".backup") w2)
      by (try apply backup_path_nonempty; intros E; symmetry in E;
          by apply backup_path_neq in E).
    rewrite (fs_lookup_nonempty _ _ Hne), H2, lookup_insert_eq.
    rewrite lookup_insert_ne by (intros E; symmetry in E;
                                 by apply backup_path_neq in E).
    by rewrite lookup_insert_eq. }
  eexists _, _, _. split; [exact Hinit2|]. simpl.
  split; [by rewrite Hbk|].
  rewrite Hbk. fold p. rewrite lookup_insert_eq. split; [done|].
  split.
  - apply restore_buggy_eq; rewrite ?Hbk, ?Hd, ?Hb; fold p; simpl.
    + by rewrite lookup_insert_eq.
    + by apply append_nonempty_r.
    + done.
    + apply backup_path_neq.
    + rewrite lookup_insert_ne by apply backup_path_neq.
      by rewrite lookup_insert_eq.
  - simpl. rewrite Hd, Hb. fold p. by rewrite lookup_insert_eq.
Qed.

Lemma init_again_replaces_backup_witness :
  let w2 := mutate (Run.proj None) (Overwrite "int y;") Cases.w_backup in
  exists self' w3 w4,
    init Cases.cfg "/proj" "bug.c" "make" None {[ "t1" := Run.t1 ]} w2
      = (Ok self', w3) /\
    _buggy_backup self' = _buggy_backup (Run.proj None) /\
    fs w3 !! _buggy_backup (Run.proj None) = Some (File "int y;") /\
    restore_buggy (Run.proj None) w3 = (Ok tt, w4) /\
    fs w4 !! join "/proj" ["bug.c"] = Some (File "int y;").
Proof.
  apply (init_again_replaces_backup Cases.cfg Cases.cfg "/proj" "bug.c"
           "make" "make" None None {[ "t1" := Run.t1 ]} {[ "t1" := Run.t1 ]}
           Run.w0 Cases.w_backup (Run.proj None) "int y;").
  vm_compute. reflexivity.
Defined.

(** X3. Right after the construction of a project, [diff_buggy] yields the
    empty diff. *)
Theorem init_then_diff_empty
    (cfg : config) (d b bc : string) (cc : option string)
    (ts : gmap string test_spec) (w w' : world) (self : project) :
  init cfg d b bc cc ts w = (Ok self, w') ->
  diff_buggy self w' = (Ok [], w').
Proof.
  intros Hinit.
  destruct (init_inv _ _ _ _ _ _ _ _ _ Hinit)
    as (c & Hd & Hb & Hbk & Hne & Hc & ->).
  rewrite (diff_buggy_eq self _ c c).
  - by rewrite unified_diff_same.
  - rewrite Hd, Hb. simpl. rewrite (fs_lookup_nonempty _ _ Hne).
    by rewrite lookup_insert_ne by apply backup_path_neq.
  - rewrite Hbk. simpl.
    rewrite fs_lookup_nonempty by (by apply append_nonempty_r).
    by rewrite lookup_insert_eq.
Qed.

Lemma init_then_diff_empty_witness :
  diff_buggy (Run.proj None) Cases.w_backup = (Ok [], Cases.w_backup).
Proof.
  apply (init_then_diff_empty Cases.cfg "/proj" "bug.c" "make" None
           {[ "t1" := Run.t1 ]} Run.w0 Cases.w_backup (Run.proj None)).
  vm_compute. reflexivity.
Defined.

(** X4. [restore_buggy] writes the buggy file and nothing else: the backup
    and every other file are as they were; when it raises, the world is as it
    was; and with the backup gone it raises [FileNotFoundError] for the
    backup. *)
Theorem restore_buggy_frame (self : project) (w : world) :
  let rw := restore_buggy self w in
  fs rw.2 !! _buggy_backup self = fs w !! _buggy_backup self /\
  (forall p, p <> join (dir self) [buggy self] -> fs rw.2 !! p = fs w !! p) /\
  (forall e, rw.1 = Raise e -> rw.2 = w) /\
  (_buggy_backup self <> join (dir self) [buggy self] ->
   fs_lookup (fs w) (_buggy_backup self) = None ->
   rw.1 = Raise (FileNotFoundError (_buggy_backup self))).
Proof.
  cbv zeta. unfold restore_buggy.
  destruct (copyfile_cases (_buggy_backup self) (join (dir self) [buggy self]) w)
    as [[e He]|(c & Hne & Hd & Hs & _ & Hc)].
  - rewrite He. cbn [fst snd]. repeat split; try done.
    intros Hne Hb. revert He. unfold copyfile.
    destruct (String.eqb_spec (_buggy_backup self)
                (join (dir self) [buggy self])) as [|_]; [done|].
    unfold bind, read_file. rewrite Hb. by intros [= <-].
  - rewrite Hc. cbn [fst snd fs set_fs]. repeat split.
    + by rewrite lookup_insert_ne.
    + intros p Hp. by rewrite lookup_insert_ne.
    + intros e [=].
    + intros _ Hb. congruence.
Qed.

(** X5. After a [restore_buggy] that returned normally, [diff_buggy] yields
    the empty diff. *)
Theorem restore_then_diff_empty (self : project) (w w' : world) :
  restore_buggy self w = (Ok tt, w') ->
  diff_buggy self w' = (Ok [], w').
Proof.
  unfold restore_buggy. intros Hr.
  destruct (copyfile_cases (_buggy_backup self) (join (dir self) [buggy self]) w)
    as [[e He]|(c & Hne & Hd & Hs & _ & Hc)]; [congruence|].
  rewrite Hc in Hr. injection Hr as <-.
  rewrite (diff_buggy_eq self _ c c).
  - by rewrite unified_diff_same.
  - simpl. rewrite (fs_lookup_nonempty _ _ Hd). by rewrite lookup_insert_eq.
  - simpl. apply fs_lookup_Some in Hs as [Hb Hs].
    rewrite (fs_lookup_nonempty _ _ Hb). by rewrite lookup_insert_ne.
Qed.

Lemma restore_then_diff_empty_witness :
  diff_buggy (Run.proj None) (restore_buggy (Run.proj None) Run.w_diff).2
  = (Ok [], (restore_buggy (Run.proj None) Run.w_diff).2).
Proof.
  apply (restore_then_diff_empty (Run.proj None) Run.w_diff).
  vm_compute. reflexivity.
Defined.

(** ** [diff_buggy] *)

(** X6. [diff_buggy] changes nothing, whether it returns or raises; a buggy
    file that is not there is a [FileNotFoundError] for its path, and so is
    a backup that is not there when the buggy file could be read. *)
Theorem diff_buggy_read_only (self : project) (w : world) :
  let rw := diff_buggy self w in
  rw.2 = w /\
  (fs_lookup (fs w) (join (dir self) [buggy self]) = None ->
   rw.1 = Raise (FileNotFoundError (join (dir self) [buggy self]))) /\
  (forall c, fs_lookup (fs w) (join (dir self) [buggy self]) = Some (File c) ->
     fs_lookup (fs w) (_buggy_backup self) = None ->
     rw.1 = Raise (FileNotFoundError (_buggy_backup self))).
Proof.
  cbv zeta. unfold diff_buggy, readlines, bind, read_file, ret.
  destruct (fs_lookup (fs w) (join (dir self) [buggy self])) as [[c|]|];
    destruct (fs_lookup (fs w) (_buggy_backup self)) as [[c2|]|]; simpl;
    repeat split; try done; by intros ? [=].
Qed.

Section DiffComplete.
Variables a b : list string.

(** Opcodes that remove and add nothing: the two sequences are the same
    from where the opcodes start. *)
Lemma opcodes_nothing_changed (mb : list block) (i j : nat) :
  ordered_from a b i j (mb ++ [(length a, length b, 0)]) ->
  removed_of a (opcodes_from i j (mb ++ [(length a, length b, 0)])) = [] ->
  added_of b (opcodes_from i j (mb ++ [(length a, length b, 0)])) = [] ->
  drop i a = drop j b.
Proof.
  revert i j. induction mb as [|[[ai bj] size] mb IH]; intros i j Ho Hr Ha.
  - simpl in Ho. destruct Ho as (Hi & Hj & _ & _).
    change ([] ++ [(length a, length b, 0)]) with [(length a, length b, 0)]
      in Hr, Ha.
    rewrite opcodes_from_cons in Hr, Ha.
    rewrite removed_of_app in Hr. rewrite added_of_app in Ha.
    destruct (gap_ops_spec a b i (length a) j (length b) Hi Hj) as (G1 & G2 & _).
    apply app_eq_nil in Hr as [Hr _]. apply app_eq_nil in Ha as [Ha _].
    rewrite G1 in Hr. rewrite G2 in Ha.
    rewrite (slice_split a i (length a) Hi), (slice_split b j (length b) Hj).
    by rewrite Hr, Ha, !drop_all.
  - change (((ai, bj, size) :: mb) ++ [(length a, length b, 0)])
      with ((ai, bj, size) :: (mb ++ [(length a, length b, 0)])) in *.
    simpl in Ho. destruct Ho as (Hi & Hj & Hm & Ho).
    rewrite opcodes_from_cons in Hr, Ha.
    rewrite !removed_of_app in Hr. rewrite !added_of_app in Ha.
    destruct (gap_ops_spec a b i ai j bj Hi Hj) as (G1 & G2 & _).
    apply app_eq_nil in Hr as [Hr1 Hr]. apply app_eq_nil in Hr as [_ Hr].
    apply app_eq_nil in Ha as [Ha1 Ha]. apply app_eq_nil in Ha as [_ Ha].
    rewrite G1 in Hr1. rewrite G2 in Ha1.
    rewrite (slice_split a i ai Hi), (slice_split b j bj Hj), Hr1, Ha1.
    rewrite (slice_split a ai (ai + size)), (slice_split b bj (bj + size))
      by lia.
    rewrite (slice_matches a b ai bj size Hm).
    simpl. f_equal. by apply IH.
Qed.

(** A unified diff without lines: the sequences are the same. *)
Lemma unified_diff_lines_nil (fromfile tofile : string) :
  unified_diff_lines a b fromfile tofile = [] -> a = b.
Proof.
  intros E.
  destruct (unified_diff_lines_spec a b fromfile tofile) as [Hr Ha].
  rewrite E in Hr, Ha.
  pose proof (get_matching_blocks_ordered a b) as Ho.
  unfold get_opcodes, get_matching_blocks in *.
  apply (opcodes_nothing_changed _ 0 0 Ho); by symmetry.
Qed.

End DiffComplete.

(** X7. When both files can be read, the diff of [diff_buggy] is empty
    exactly when the buggy file and the backup have the same lines: no change
    of a line goes unreported. *)
Theorem diff_buggy_empty_iff
    (self : project) (w : world) (buggy_text backup_text : string) :
  fs_lookup (fs w) (join (dir self) [buggy self]) = Some (File buggy_text) ->
  fs_lookup (fs w) (_buggy_backup self) = Some (File backup_text) ->
  (diff_buggy self w).1 = Ok [] <->
  lines_of (translate_newlines buggy_text)
  = lines_of (translate_newlines backup_text).
Proof.
  intros H1 H2. rewrite (diff_buggy_eq self w _ _ H1 H2). simpl. split.
  - intros [= E]. unfold unified_diff in E. apply map_eq_nil in E.
    symmetry. by apply unified_diff_lines_nil in E.
  - intros ->. by rewrite unified_diff_same.
Qed.

Lemma diff_buggy_empty_iff_witness :
  (diff_buggy (Run.proj None) Run.w_diff).1 = Ok [] <->
  lines_of (translate_newlines "A
A
A
A
A
A
") = lines_of (translate_newlines "A
A
B
A
A
A
").
Proof.
  apply (diff_buggy_empty_iff (Run.proj None) Run.w_diff).
  - vm_compute. reflexivity.
  - vm_compute. reflexivity.
Defined.

(** X8. Whatever the two files hold, the diff of [diff_buggy] accounts for
    every line: with the lines it keeps, its removed lines make up the lines
    of the backup, and its added lines the lines of the buggy file, up to
    order. *)
Theorem diff_buggy_accounts
    (self : project) (w : world) (buggy_text backup_text : string) :
  fs_lookup (fs w) (join (dir self) [buggy self]) = Some (File buggy_text) ->
  fs_lookup (fs w) (_buggy_backup self) = Some (File backup_text) ->
  let backup_lines := lines_of (translate_newlines backup_text) in
  let buggy_lines := lines_of (translate_newlines buggy_text) in
  let dl := unified_diff_lines backup_lines buggy_lines
              (join "a" [buggy self]) (join "b" [buggy self]) in
  diff_buggy self w = (Ok (map render dl), w) /\
  exists kept,
    Permutation backup_lines (kept ++ removed_lines dl) /\
    Permutation buggy_lines (kept ++ added_lines dl).
Proof.
  intros H1 H2. cbv zeta. split; [by apply diff_buggy_eq|].
  apply unified_diff_lines_perm.
Qed.

Lemma diff_buggy_accounts_witness :
  let backup_lines := lines_of (translate_newlines "A
A
B
A
A
A
") in
  let buggy_lines := lines_of (translate_newlines "A
A
A
A
A
A
") in
  let dl := unified_diff_lines backup_lines buggy_lines
              (join "a" [buggy (Run.proj None)])
              (join "b" [buggy (Run.proj None)]) in
  diff_buggy (Run.proj None) Run.w_diff = (Ok (map render dl), Run.w_diff) /\
  exists kept,
    Permutation backup_lines (kept ++ removed_lines dl) /\
    Permutation buggy_lines (kept ++ added_lines dl).
Proof.
  apply (diff_buggy_accounts (Run.proj None) Run.w_diff).
  - vm_compute. reflexivity.
  - vm_compute. reflexivity.
Defined.

(** X9. With an absolute path as the buggy file, the directory of the
    project plays no part and the two header lines of a diff name that path
    itself, without [a/] and [b/]. *)
Theorem diff_buggy_absolute_path
    (self : project) (w : world) (buggy_text backup_text : string) :
  isabs (buggy self) = true ->
  fs_lookup (fs w) (buggy self) = Some (File buggy_text) ->
  fs_lookup (fs w) (_buggy_backup self) = Some (File backup_text) ->
  lines_of (translate_newlines buggy_text)
  <> lines_of (translate_newlines backup_text) ->
  exists rest,
    diff_buggy self w =
    (Ok (("--- " +:+ buggy self +:+ String "010" EmptyString)
         :: ("+++ " +:+ buggy self +:+ String "010" EmptyString) :: rest), w).
Proof.
  intros Ha H1 H2 Hne.
  rewrite <- (join_absolute (dir self) (buggy self) Ha) in H1.
  rewrite (diff_buggy_eq self w _ _ H1 H2).
  rewrite !join_absolute by done.
  unfold unified_diff.
  destruct (unified_diff_lines _ _ _ _) as [|l1 dl] eqn:E.
  { apply unified_diff_lines_nil in E. by symmetry in E. }
  revert E. unfold unified_diff_lines.
  destruct (get_grouped_opcodes _ _ 3); [done|].
  intros [= <- <-]. simpl. by eexists.
Qed.

Lemma diff_buggy_absolute_path_witness :
  exists rest,
    diff_buggy Cases.proj_abs Run.w_diff =
    (Ok (("--- " +:+ buggy Cases.proj_abs +:+ String "010" EmptyString)
         :: ("+++ " +:+ buggy Cases.proj_abs +:+ String "010" EmptyString)
         :: rest), Run.w_diff).
Proof.
  apply (diff_buggy_absolute_path Cases.proj_abs Run.w_diff "A
A
A
A
A
A
" "A
A
B
A
A
A
").
  - reflexivity.
  - vm_compute. reflexivity.
  - vm_compute. reflexivity.
  - vm_compute. discriminate.
Defined.

(** ** [import_compilation_db] and the files *)

Lemma heap_only_refl w : heap_only w w.
Proof. by repeat split. Qed.

Lemma heap_only_trans w1 w2 w3 :
  heap_only w1 w2 -> heap_only w2 w3 -> heap_only w1 w3.
Proof. intros (?&?&?&?&?) (?&?&?&?&?). repeat split; congruence. Qed.

Lemma heap_only_set_heap h w : heap_only w (set_heap h w).
Proof. by repeat split. Qed.

Lemma for_each_heap_only {A} (body : A -> M unit) :
  (forall x w, heap_only w (body x w).2) ->
  forall l w, heap_only w (for_each l body w).2.
Proof.
  intros Hb l. induction l as [|x l IH]; intros w; [apply heap_only_refl|].
  rewrite for_each_cons. pose proof (Hb x w) as F.
  destruct (body x w) as [[[]|e] w1]; simpl in F; [|exact F].
  eapply heap_only_trans; [exact F | apply IH].
Qed.

(** [import_item] reads and writes [dict] objects only, and what it raises
    is a [KeyError]. *)
Lemma import_item_heap_only self item w :
  heap_only w (import_item self item w).2 /\
  ((import_item self item w).1 = Ok tt \/
   exists k, (import_item self item w).1 = Raise (KeyError k)) /\
  (environ w !! "LLVM3_INCLUDE_PATH" = None ->
   exists k, (import_item self item w).1 = Raise (KeyError k)).
Proof.
  unfold import_item, bind, dict_getitem.
  destruct (deref w (Obj item) !! "directory") as [d|];
    [|split; [apply heap_only_refl|]; split; eauto].
  set (w1 := (dict_setitem (Obj item) "directory" (join (dir self) [d]) w).2).
  assert (F1 : heap_only w w1) by apply heap_only_set_heap.
  change (dict_setitem (Obj item) "directory" (join (dir self) [d]) w)
    with (Ok tt, w1).
  cbv iota beta.
  destruct (deref w1 (Obj item) !! "file") as [f|];
    [|split; [exact F1|]; split; eauto].
  set (w2 := (dict_setitem (Obj item) "file" (join (dir self) [f]) w1).2).
  assert (F2 : heap_only w w2).
  { eapply heap_only_trans; [exact F1|]. apply heap_only_set_heap. }
  change (dict_setitem (Obj item) "file" (join (dir self) [f]) w1)
    with (Ok tt, w2).
  cbv iota beta.
  destruct (deref w2 (Obj item) !! "command") as [c|];
    [|split; [exact F2|]; split; eauto].
  change (deref w2 Environ) with (environ w).
  destruct (environ w !! "LLVM3_INCLUDE_PATH") as [inc|];
    [|split; [exact F2|]; split; eauto].
  split; [|split; [by left | done]].
  eapply heap_only_trans; [exact F2|]. apply heap_only_set_heap.
Qed.

Lemma for_each_import_heap_only self items w :
  let rw := for_each items (import_item self) w in
  heap_only w rw.2 /\
  (rw.1 = Ok tt \/ exists k, rw.1 = Raise (KeyError k)) /\
  (environ w !! "LLVM3_INCLUDE_PATH" = None -> items <> [] ->
   exists k, rw.1 = Raise (KeyError k)).
Proof.
  cbv zeta. revert w. induction items as [|l items IH]; intros w.
  - split; [apply heap_only_refl|]. split; [by left | done].
  - rewrite for_each_cons.
    destruct (import_item_heap_only self l w) as (F & Hr & He).
    destruct (import_item self l w) as [[[]|e] w1]; simpl in *.
    + destruct (IH w1) as (F' & Hr' & _).
      split; [by eapply heap_only_trans|]. split; [done|].
      intros Hn _. destruct (He Hn) as [k Hk]. done.
    + split; [done|]. split; [done|]. intros Hn _. by apply He.
Qed.

Lemma import_compilation_db_unfold X self db w :
  import_compilation_db X self db w =
  let '(ys, h') := deepcopy_items db ∅ (heap w) in
  match for_each ys (import_item self) (set_heap h' w) with
  | (Ok _, w1) =>
      json_dump_file X ys (join (dir self) ["compile_commands.json"]) w1
  | (Raise e, w1) => (Raise e, w1)
  end.
Proof.
  unfold import_compilation_db. fold (import_item self).
  unfold bind at 1. unfold deepcopy.
  by destruct (deepcopy_items db ∅ (heap w)) as [ys h'].
Qed.

(** X10. [import_compilation_db] touches one file, [compile_commands.json]
    in the directory of the project, and only when it returns normally: when
    it raises, the files are as they were. It starts no process and logs
    nothing. *)
Theorem import_compilation_db_files
    (X : externals) (self : project) (compilation_db : list nat) (w : world) :
  let rw := import_compilation_db X self compilation_db w in
  let file := join (dir self) ["compile_commands.json"] in
  (forall e, rw.1 = Raise e -> fs rw.2 = fs w) /\
  (forall p, p <> file -> fs rw.2 !! p = fs w !! p) /\
  (rw.1 = Ok tt -> exists c, fs rw.2 !! file = Some (File c)) /\
  log rw.2 = log w /\ spawned rw.2 = spawned w.
Proof.
  cbv zeta. rewrite import_compilation_db_unfold.
  destruct (deepcopy_items compilation_db ∅ (heap w)) as [ys h'].
  destruct (for_each_import_heap_only self ys (set_heap h' w))
    as ((Hf & Hc & _ & Hl & Hs) & _ & _).
  destruct (for_each ys (import_item self) (set_heap h' w)) as [[[]|e] w1];
    simpl in Hf, Hc, Hl, Hs.
  2:{ simpl. repeat split; intros; rewrite ?Hf; done. }
  unfold json_dump_file, bind, get, write_file.
  destruct (is_empty _).
  { simpl. repeat split; intros; rewrite ?Hf; done. }
  destruct (fs w1 !! _) as [[c|]|] eqn:Hfile; simpl;
    repeat split; try done; rewrite ?Hf; try done.
  - intros p Hp. by rewrite lookup_insert_ne.
  - intros _. eexists. by rewrite lookup_insert_eq.
  - intros p Hp. by rewrite lookup_insert_ne.
  - intros _. eexists. by rewrite lookup_insert_eq.
Qed.

(** X11. With [LLVM3_INCLUDE_PATH] not set, [import_compilation_db] of a
    database that is not empty raises [KeyError] and writes no file. *)
Theorem import_compilation_db_without_include_path
    (X : externals) (self : project) (compilation_db : list nat) (w : world) :
  environ w !! "LLVM3_INCLUDE_PATH" = None ->
  compilation_db <> [] ->
  let rw := import_compilation_db X self compilation_db w in
  (exists k, rw.1 = Raise (KeyError k)) /\ fs rw.2 = fs w.
Proof.
  intros He Hdb. cbv zeta. rewrite import_compilation_db_unfold.
  assert (Hys : (deepcopy_items compilation_db ∅ (heap w)).1 <> []).
  { destruct compilation_db as [|x r]; [done|]. simpl.
    rewrite lookup_empty. by destruct (deepcopy_items r _ _). }
  destruct (deepcopy_items compilation_db ∅ (heap w)) as [ys h'].
  simpl in Hys.
  destruct (for_each_import_heap_only self ys (set_heap h' w))
    as ((Hf & _) & _ & Hk).
  destruct (Hk He Hys) as [k Ek].
  destruct (for_each ys (import_item self) (set_heap h' w)) as [r w1].
  simpl in *. subst r. simpl. split; [by exists k | done].
Qed.

Lemma import_compilation_db_without_include_path_witness :
  let rw := import_compilation_db Run.X (Run.proj None) [0]
              Cases.w_no_include in
  (exists k, rw.1 = Raise (KeyError k)) /\ fs rw.2 = fs Cases.w_no_include.
Proof.
  apply (import_compilation_db_without_include_path Run.X (Run.proj None) [0]
           Cases.w_no_include).
  - vm_compute. reflexivity.
  - discriminate.
Defined.

(** X12. A record that occurs twice in the database, as one object, is
    copied once and rewritten twice: its [command] ends in two [-I] flags,
    and its [directory] and [file] are joined to the directory of the project
    twice. *)
Theorem import_compilation_db_shared_record
    (X : externals) (self : project) (l : nat) (rec : dict)
    (d f c inc : string) (w : world) :
  heap w !! l = Some rec ->
  rec !! "directory" = Some d -> rec !! "file" = Some f ->
  rec !! "command" = Some c ->
  environ w !! "LLVM3_INCLUDE_PATH" = Some inc ->
  fs w !! join (dir self) ["compile_commands.json"] <> Some Dir ->
  exists w' out,
    import_compilation_db X self [l; l] w = (Ok tt, w') /\
    fs w' !! join (dir self) ["compile_commands.json"]
      = Some (File (json_dump X [out; out])) /\
    out !! "command" = Some (c +:+ " -I" +:+ inc +:+ " -I" +:+ inc) /\
    out !! "directory" = Some (join (dir self) [join (dir self) [d]]) /\
    out !! "file" = Some (join (dir self) [join (dir self) [f]]).
Proof.
  intros Hl Hd Hf Hc Hinc Hfile.
  rewrite import_compilation_db_unfold.
  set (y := fresh (dom (heap w))).
  assert (Hy : heap w !! y = None)
    by apply (not_elem_of_dom (D := gset nat)), is_fresh.
  assert (Hdc : deepcopy_items [l; l] ∅ (heap w)
                = ([y; y], <[y := rec]> (heap w))).
  { simpl. rewrite lookup_empty. fold y. rewrite lookup_insert_eq.
    by rewrite Hl. }
  rewrite Hdc.
  set (out1 := <["command" := c +:+ " -I" +:+ inc]>
                 (<["file" := join (dir self) [f]]>
                    (<["directory" := join (dir self) [d]]> rec))).
  assert (H1 : import_record (dir self) inc rec = Some out1).
  { unfold import_record. rewrite Hd. simpl. rewrite Hf. simpl.
    by rewrite Hc. }
  set (out2 := <["command" := (c +:+ " -I" +:+ inc) +:+ " -I" +:+ inc]>
                 (<["file" := join (dir self) [join (dir self) [f]]]>
                    (<["directory" := join (dir self) [join (dir self) [d]]]>
                       out1))).
  assert (H2 : import_record (dir self) inc out1 = Some out2).
  { assert (L1 : out1 !! "directory" = Some (join (dir self) [d]))
      by (unfold out1; by simplify_map_eq).
    assert (L2 : out1 !! "file" = Some (join (dir self) [f]))
      by (unfold out1; by simplify_map_eq).
    assert (L3 : out1 !! "command" = Some (c +:+ " -I" +:+ inc))
      by (unfold out1; by simplify_map_eq).
    unfold import_record. rewrite L1. simpl. rewrite L2. simpl.
    by rewrite L3. }
  set (w1 := set_heap (<[y := rec]> (heap w)) w).
  assert (E1 : import_item self y w1
               = (Ok tt, set_heap (<[y := out1]> (heap w1)) w1)).
  { apply (import_item_eq self y w1 rec out1 inc); try done.
    subst w1. simpl. by rewrite lookup_insert_eq. }
  set (w2 := set_heap (<[y := out1]> (heap w1)) w1) in *.
  assert (E2 : import_item self y w2
               = (Ok tt, set_heap (<[y := out2]> (heap w2)) w2)).
  { apply (import_item_eq self y w2 out1 out2 inc); try done.
    subst w2. simpl. by rewrite lookup_insert_eq. }
  rewrite for_each_cons, E1. cbv beta iota.
  rewrite for_each_cons, E2. cbv beta iota. cbn [for_each ret].
  unfold json_dump_file, bind, get, write_file.
  assert (Hne : is_empty (join (dir self) ["compile_commands.json"]) = false).
  { apply is_empty_false. by apply join_nonempty. }
  rewrite Hne. cbn [fs set_heap].
  exists (set_fs (<[join (dir self) ["compile_commands.json"] :=
                     File (json_dump X [out2; out2])]> (fs w))
            (set_heap (<[y := out2]> (heap w2)) w2)), out2.
  split.
  - change (fs w2) with (fs w).
    destruct (fs w !! join (dir self) ["compile_commands.json"]) as [[?|]|];
      try done; cbn [map deref heap set_heap];
      by rewrite lookup_insert_eq.
  - split; [cbn [fs set_fs]; by rewrite lookup_insert_eq|].
    unfold out2. repeat split; simplify_map_eq; [|done|done].
    by rewrite !append_assoc.
Qed.

Lemma import_compilation_db_shared_record_witness :
  exists w' out,
    import_compilation_db Run.X (Run.proj None) [0; 0] Cases.w_record
      = (Ok tt, w') /\
    fs w' !! join (dir (Run.proj None)) ["compile_commands.json"]
      = Some (File (json_dump Run.X [out; out])) /\
    out !! "command"
      = Some ("cc -c a.c" +:+ " -I" +:+ "/opt/llvm3/include"
              +:+ " -I" +:+ "/opt/llvm3/include") /\
    out !! "directory"
      = Some (join (dir (Run.proj None))
                [join (dir (Run.proj None)) ["/proj/src"]]) /\
    out !! "file"
      = Some (join (dir (Run.proj None))
                [join (dir (Run.proj None)) ["/proj/src/a.c"]]).
Proof.
  apply (import_compilation_db_shared_record Run.X (Run.proj None) 0 Run.rec1
           "/proj/src" "/proj/src/a.c" "cc -c a.c" "/opt/llvm3/include"
           Cases.w_record).
  - vm_compute. reflexivity.
  - vm_compute. reflexivity.
  - vm_compute. reflexivity.
  - vm_compute. reflexivity.
  - vm_compute. reflexivity.
  - vm_compute. discriminate.
Defined.

(** ** [configure] *)

(** X13. When there is no configure command, or the directory of the
    project is there and the command exits with code zero, [configure]
    returns normally: it has logged that it configures the source named by
    the last component of the directory, and has started the command, if
    any, once, through the shell, with [os.environ] and the [stderr] of the
    project. *)
Theorem configure_returns (X : externals) (self : project) (w : world) :
  (forall cmd, configure_cmd self = Some cmd ->
     fs_lookup (fs w) (dir self) = Some Dir /\
     (run_process X (configure_call self cmd w) (fs w)).2 = 0%Z) ->
  configure X self w = (Ok tt, after_configure X self w).
Proof.
  intros Hx. unfold configure, after_configure, configure_message.
  destruct (configure_cmd self) as [cmd|]; [|reflexivity].
  destruct (Hx cmd eq_refl) as [Hd Hexit]. unfold configure_call in *.
  py_unfold. unfold start_failure, chdir_error. simpl in *. rewrite Hd.
  destruct (run_process X _ _) as [f code]. simpl in *. subst code.
  simpl. unfold set_cwd. simpl. reflexivity.
Qed.

Lemma configure_returns_witness :
  configure Run.X (Run.proj (Some "./configure")) Run.w0
  = (Ok tt, after_configure Run.X (Run.proj (Some "./configure")) Run.w0).
Proof.
  apply (configure_returns Run.X (Run.proj (Some "./configure")) Run.w0).
  intros cmd H. injection H as <-. split; vm_compute; reflexivity.
Defined.

(** ** [build_in_env] and [build] *)

Lemma add_logs_nil (w : world) : add_logs [] w = w.
Proof. destruct w. unfold add_logs. simpl. by rewrite app_nil_r. Qed.

Lemma add_logs_cons lv msg l (w : world) :
  add_logs l (add_log lv msg w) = add_logs ((lv, msg) :: l) w.
Proof. unfold add_logs, add_log. simpl. by rewrite <- app_assoc. Qed.

Lemma for_each_report_line_ok (c : string) (lines rs : list string) :
  Forall2 (fun line r => relpath c (strip line) "." = Some r) lines rs ->
  forall w, cwd w = c ->
  for_each lines report_line w = (Ok tt, add_logs (file_warnings rs) w).
Proof.
  induction 1 as [|line r lines rs Hr H IH]; intros w Hc.
  - simpl. by rewrite add_logs_nil.
  - rewrite for_each_cons, report_line_eq, Hc, Hr.
    rewrite IH by done. by rewrite add_logs_cons.
Qed.

(** X14. What [build_in_env] logs in a directory that is there: when the
    messages file is absent or a regular file each of whose lines, stripped,
    is a path, [build_in_env] returns normally whatever the exit code, and
    the log has grown by the warning for a non-zero exit code, if any,
    followed by one warning for each line of the messages file, in order,
    naming the stripped path relative to the current directory; the files
    are as the child left them. *)
Theorem build_in_env_reports
    (X : externals) (dir_ cmd : string) (stderr_ : stderr_policy)
    (env : dict_ref) (w : world) (rd : string) (lines rs : list string) :
  fs_lookup (fs w) dir_ = Some Dir ->
  relpath (cwd w) dir_ "." = Some rd ->
  message_lines (fs (after_build X dir_ cmd stderr_ env w))
    (join (mkdtemp_name X (fs w)) ["messages"]) = Some lines ->
  Forall2 (fun line r => relpath (cwd w) (strip line) "." = Some r) lines rs ->
  build_in_env X dir_ cmd stderr_ env w =
  (Ok tt,
   add_logs (exit_warning (build_exit X dir_ cmd stderr_ env w) rd
             ++ file_warnings rs)
     (after_build X dir_ cmd stderr_ env w)).
Proof.
  intros Hdir Hd Hm Hl. rewrite build_in_env_eq by done. cbv zeta.
  rewrite Hd. unfold message_lines in Hm.
  assert (Hrep : forall w1,
    fs w1 = fs (after_build X dir_ cmd stderr_ env w) -> cwd w1 = cwd w ->
    report_messages (join (mkdtemp_name X (fs w)) ["messages"]) w1
    = (Ok tt, add_logs (file_warnings rs) w1)).
  { intros w1 Hf Hc. unfold report_messages. rewrite Hf.
    destruct (fs_lookup (fs (after_build X dir_ cmd stderr_ env w))
                (join (mkdtemp_name X (fs w)) ["messages"])) as [[c|]|];
      [| done |].
    - injection Hm as <-. by apply (for_each_report_line_ok (cwd w)).
    - injection Hm as <-. inversion Hl; subst. by rewrite add_logs_nil. }
  unfold exit_warning.
  destruct (Z.eqb _ 0).
  - by rewrite Hrep.
  - rewrite Hrep by done. by rewrite add_logs_cons.
Qed.

Lemma build_in_env_reports_witness :
  build_in_env Cases.X_reporting "/proj" "make" DEVNULL Environ Run.w0 =
  (Ok tt,
   add_logs (exit_warning
               (build_exit Cases.X_reporting "/proj" "make" DEVNULL Environ
                  Run.w0)
               "../../proj"
             ++ file_warnings ["../../proj/src/a.c"])
     (after_build Cases.X_reporting "/proj" "make" DEVNULL Environ Run.w0)).
Proof.
  apply (build_in_env_reports Cases.X_reporting "/proj" "make" DEVNULL
           Environ Run.w0 "../../proj" ["  /proj/src/a.c  
"] ["../../proj/src/a.c"]).
  - reflexivity.
  - vm_compute. reflexivity.
  - vm_compute. reflexivity.
  - constructor; [vm_compute; reflexivity | constructor].
Defined.

(** [build_in_env] leaves on the heap the objects that were there and the
    copy of the environment it made. *)
Lemma build_in_env_heap X dir_ cmd stderr_ env w :
  heap (build_in_env X dir_ cmd stderr_ env w).2 = heap (before_build X env w).
Proof.
  rewrite build_in_env_cases. cbv zeta.
  destruct (chdir_error _ _); [done|].
  assert (Hrep : forall w1,
    heap w1 = heap (before_build X env w) ->
    heap (report_messages (join (mkdtemp_name X (fs w)) ["messages"]) w1).2
    = heap (before_build X env w)).
  { intros w1 Hh.
    destruct (report_messages_spec
                (join (mkdtemp_name X (fs w)) ["messages"]) w1)
      as ((_ & _ & _ & Hh' & _) & _). by rewrite Hh'. }
  destruct (Z.eqb _ 0); [by apply Hrep|].
  destruct (relpath _ _ _); [by apply Hrep | done].
Qed.

(** X15. [build_in_env] works on a copy of the environment it is given:
    the [dict] objects that were there are as they were, the environment
    passed in and [os.environ] among them, and every child process it
    starts, which is one when the directory is there, gets the copy with the
    messages file added. *)
Theorem build_in_env_copies_env
    (X : externals) (dir_ cmd : string) (stderr_ : stderr_policy)
    (env : dict_ref) (w : world) :
  match env with Obj l => is_Some (heap w !! l) | Environ => True end ->
  let w' := (build_in_env X dir_ cmd stderr_ env w).2 in
  heap w ⊆ heap w' /\
  deref w' env = deref w env /\
  environ w' = environ w /\
  exists calls,
    spawned w' = spawned w ++ calls /\
    (fs_lookup (fs w) dir_ = Some Dir -> length calls = 1) /\
    Forall (fun call =>
      pc_env call =
        <["ANGELIX_COMPILER_MESSAGES" :=
            join (mkdtemp_name X (fs w)) ["messages"]]> (deref w env)) calls.
Proof.
  intros Henv. cbv zeta.
  pose proof (build_in_env_environ X dir_ cmd stderr_ env w) as He.
  assert (Hsub : heap w ⊆ heap (build_in_env X dir_ cmd stderr_ env w).2).
  { rewrite build_in_env_heap. unfold before_build. cbn [heap].
    rewrite insert_insert_eq. apply insert_subseteq.
    apply (not_elem_of_dom (D := gset nat)), is_fresh. }
  split; [done|]. split; [|split].
  - destruct env as [|l]; [exact He|]. simpl.
    destruct Henv as [d Hd]. rewrite Hd.
    by rewrite (lookup_weaken _ _ _ _ Hd Hsub).
  - exact He.
  - destruct (build_in_env_children X dir_ cmd stderr_ env w)
      as (calls & Hs & Hone & Hall).
    exists calls. split; [exact Hs|]. split; [exact Hone|].
    eapply Forall_impl; [exact Hall|]. by intros call ->.
Qed.

Lemma build_in_env_copies_env_witness :
  let w' := (build_in_env Run.X "/proj" "make" DEVNULL (Obj 0)
               Cases.w_record).2 in
  heap Cases.w_record ⊆ heap w' /\
  deref w' (Obj 0) = deref Cases.w_record (Obj 0) /\
  environ w' = environ Cases.w_record /\
  exists calls,
    spawned w' = spawned Cases.w_record ++ calls /\
    (fs_lookup (fs Cases.w_record) "/proj" = Some Dir -> length calls = 1) /\
    Forall (fun call =>
      pc_env call =
        <["ANGELIX_COMPILER_MESSAGES" :=
            join (mkdtemp_name Run.X (fs Cases.w_record)) ["messages"]]>
          (deref Cases.w_record (Obj 0))) calls.
Proof.
  apply (build_in_env_copies_env Run.X "/proj" "make" DEVNULL (Obj 0)
           Cases.w_record).
  vm_compute. eexists. reflexivity.
Defined.

Lemma build_eq (X : externals) (v : variant) (self : project) (w : world) :
  build X v self w =
  match compiler v with
  | None =>
      build_in_env X (dir self) (build_cmd self) (stderr self) Environ
        (add_log INFO (build_message v) w)
  | Some cc =>
      build_with_cc X (dir self) (build_cmd self) (stderr self) cc
        (add_log INFO (build_message v) w)
  end.
Proof. by destruct v. Qed.

(** [build_in_env] in a directory that is there raises, if anything, the
    exceptions of the messages file. *)
Lemma build_in_env_result_dir X dir_ cmd stderr_ env w :
  fs_lookup (fs w) dir_ = Some Dir ->
  let r := (build_in_env X dir_ cmd stderr_ env w).1 in
  r = Ok tt \/ r = Raise ValueError \/
  r = Raise (IsADirectoryError (join (mkdtemp_name X (fs w)) ["messages"])).
Proof.
  intros Hd. rewrite build_in_env_eq by done. cbv zeta.
  destruct (Z.eqb _ 0).
  - apply report_messages_spec.
  - destruct (relpath _ _ _); [apply report_messages_spec | auto].
Qed.

(** X16. In a project whose directory is there, [build] of every variant
    logs which source it builds and starts one child process: the build
    command of the project, through the shell, with the [stderr] of the
    project and an environment that is [os.environ] with the messages file
    added and, for the variants other than [Validation], [CC] set to the
    compiler of the variant. [os.environ] is afterwards as it was, and
    [build] does not raise [CompilationError] or [CalledProcessError]. *)
Theorem build_child
    (X : externals) (v : variant) (self : project) (w : world) :
  fs_lookup (fs w) (dir self) = Some Dir ->
  let rw := build X v self w in
  (rw.1 = Ok tt \/ rw.1 = Raise ValueError \/
   rw.1 = Raise (IsADirectoryError (join (mkdtemp_name X (fs w)) ["messages"])))
  /\ environ rw.2 = environ w /\
  (exists rest, log rw.2 = log w ++ (INFO, build_message v) :: rest) /\
  exists call,
    spawned rw.2 = spawned w ++ [call] /\
    pc_command call = Shell (build_cmd self) /\
    pc_stderr call = stderr self /\
    pc_env call !! "CC"
      = match compiler v with
        | Some cc => Some cc
        | None => environ w !! "CC"
        end /\
    pc_env call !! "ANGELIX_COMPILER_MESSAGES"
      = Some (join (mkdtemp_name X (fs w)) ["messages"]) /\
    (forall k, k <> "CC" -> k <> "ANGELIX_COMPILER_MESSAGES" ->
               pc_env call !! k = environ w !! k).
Proof.
  intros Hd. cbv zeta. rewrite build_eq.
  set (w1 := add_log INFO (build_message v) w).
  destruct (compiler v) as [cc|].
  - rewrite build_with_cc_eq.
    set (l := fresh (dom (heap w1))). set (w2 := cc_world cc w1).
    assert (Hd2 : fs_lookup (fs w2) (dir self) = Some Dir) by exact Hd.
    destruct (build_in_env_only_logged X (dir self) (build_cmd self)
                (stderr self) (Obj l) w2 Hd2)
      as (_ & _ & He & _ & Hs & rest & Hl).
    split; [apply (build_in_env_result_dir X _ _ _ (Obj l) w2 Hd2)|].
    split; [by rewrite He|]. split.
    + exists rest. rewrite Hl. simpl. by rewrite <- app_assoc.
    + eexists. split; [rewrite Hs; reflexivity|].
      unfold build_call. cbn [pc_command pc_env pc_stderr].
      subst l w2. rewrite deref_cc_world. simpl.
      split; [done|]. split; [done|]. split; [by simplify_map_eq|].
      split; [by simplify_map_eq|]. intros k H1 H2. by simplify_map_eq.
  - assert (Hd1 : fs_lookup (fs w1) (dir self) = Some Dir) by exact Hd.
    destruct (build_in_env_only_logged X (dir self) (build_cmd self)
                (stderr self) Environ w1 Hd1)
      as (_ & _ & He & _ & Hs & rest & Hl).
    split; [apply (build_in_env_result_dir X _ _ _ Environ w1 Hd1)|].
    split; [by rewrite He|]. split.
    + exists rest. rewrite Hl. simpl. by rewrite <- app_assoc.
    + eexists. split; [rewrite Hs; reflexivity|].
      unfold build_call. cbn [pc_command pc_env pc_stderr]. simpl.
      split; [done|]. split; [done|]. split; [by simplify_map_eq|].
      split; [by simplify_map_eq|]. intros k H1 H2. by simplify_map_eq.
Qed.

Lemma build_child_witness :
  let rw := build Run.X Backend (Run.proj None) Run.w0 in
  (rw.1 = Ok tt \/ rw.1 = Raise ValueError \/
   rw.1 = Raise (IsADirectoryError
                   (join (mkdtemp_name Run.X (fs Run.w0)) ["messages"])))
  /\ environ rw.2 = environ Run.w0 /\
  (exists rest, log rw.2 = log Run.w0 ++ (INFO, build_message Backend) :: rest)
  /\
  exists call,
    spawned rw.2 = spawned Run.w0 ++ [call] /\
    pc_command call = Shell (build_cmd (Run.proj None)) /\
    pc_stderr call = stderr (Run.proj None) /\
    pc_env call !! "CC"
      = match compiler Backend with
        | Some cc => Some cc
        | None => environ Run.w0 !! "CC"
        end /\
    pc_env call !! "ANGELIX_COMPILER_MESSAGES"
      = Some (join (mkdtemp_name Run.X (fs Run.w0)) ["messages"]) /\
    (forall k, k <> "CC" -> k <> "ANGELIX_COMPILER_MESSAGES" ->
               pc_env call !! k = environ Run.w0 !! k).
Proof.
  apply (build_child Run.X Backend (Run.proj None) Run.w0).
  reflexivity.
Defined.

(** ** [build_test]: the check of the artifact *)

(** The sub-build does not raise [CompilationError]. *)
Lemma sub_build_result X v self t w :
  (sub_build X v self t w).1 <> Raise CompilationError.
Proof.
  unfold sub_build.
  destruct (build_step t) as [[directory command]|]; [|done].
  destruct v; rewrite ?build_with_cc_eq;
    match goal with
    | |- context [build_in_env ?X ?d ?c ?s ?e ?w] =>
        destruct (build_in_env_result X d c s e w) as [H|[H|[H|[H|H]]]]
    end; by rewrite H.
Qed.

Lemma sub_build_none X v self t w :
  build_step t = None -> sub_build X v self t w = (Ok tt, w).
Proof. unfold sub_build. by intros ->. Qed.

(** X17. For the variants other than [Backend], [build_test] is decided by
    the executable alone: when the sub-build step returned normally,
    whatever its exit code, and the executable is there, [build_test]
    returns normally and adds nothing to what the sub-build did; a test
    without a sub-build step leaves the world as it was. *)
Theorem build_test_present
    (X : externals) (v : variant) (self : project) (test_case : string)
    (t : test_spec) (w : world) :
  v <> Backend ->
  tests_spec self !! test_case = Some t ->
  let sw := sub_build X v self t w in
  sw.1 = Ok tt ->
  present sw.2 (join (dir self) [executable t]) ->
  build_test X v self test_case w = (Ok tt, sw.2) /\
  (build_step t = None -> sw.2 = w).
Proof.
  intros Hv Ht. cbv zeta. intros Hs Hp.
  split; [|intros Hn; by rewrite sub_build_none].
  rewrite (build_test_eq X v self test_case t w Ht).
  destruct (sub_build X v self t w) as [[[]|e] w1]; [|done]. simpl in *.
  destruct (require_dependency_spec test_case
              (join (dir self) [executable t]) w1) as (_ & _ & Hok & _).
  destruct v; try done; by apply Hok.
Qed.

Lemma build_test_present_witness :
  let sw := sub_build Run.X Golden (Run.proj None) Run.t1 Cases.w_built in
  build_test Run.X Golden (Run.proj None) "t1" Cases.w_built = (Ok tt, sw.2) /\
  (build_step Run.t1 = None -> sw.2 = Cases.w_built).
Proof.
  apply (build_test_present Run.X Golden (Run.proj None) "t1" Run.t1
           Cases.w_built).
  - discriminate.
  - reflexivity.
  - reflexivity.
  - vm_compute. eexists. reflexivity.
Defined.

(** X18. [Backend.build_test] without the [.bc] file raises
    [CompilationError] before the patcher is started: no process is started
    after the sub-build and the files are as the sub-build left them, also
    when a [.patched.bc] file is there. *)
Theorem backend_build_test_missing_bitcode
    (X : externals) (self : project) (test_case : string)
    (t : test_spec) (w : world) :
  tests_spec self !! test_case = Some t ->
  let sw := sub_build X Backend self t w in
  let rw := build_test X Backend self test_case w in
  sw.1 = Ok tt ->
  ~ present sw.2 (join (dir self) [executable t] +:+ ".bc") ->
  rw.1 = Raise CompilationError /\
  spawned rw.2 = spawned sw.2 /\
  fs rw.2 = fs sw.2.
Proof.
  intros Ht. cbv zeta. intros Hs Hp.
  destruct (sub_build X Backend self t w) as [[[]|e] w1] eqn:Hsub; [|done].
  simpl in Hp.
  rewrite (backend_build_test_eq X self test_case t w w1 Ht Hsub).
  rewrite bool_decide_eq_false_2 by done.
  destruct (require_dependency_spec test_case
              (join (dir self) [executable t] +:+ ".bc") w1)
    as ((Hf & _ & _ & _ & Hsp & _) & _ & _ & Hraise & _).
  split; [|done].
  apply Hraise; [by apply append_nonempty_r | done].
Qed.

Lemma backend_build_test_missing_bitcode_witness :
  let sw := sub_build Run.X Backend (Run.proj None) Run.t1 Cases.w_stale in
  let rw := build_test Run.X Backend (Run.proj None) "t1" Cases.w_stale in
  rw.1 = Raise CompilationError /\
  spawned rw.2 = spawned sw.2 /\
  fs rw.2 = fs sw.2.
Proof.
  apply (backend_build_test_missing_bitcode Run.X (Run.proj None) "t1" Run.t1
           Cases.w_stale).
  - reflexivity.
  - reflexivity.
  - intros [x Hx]. vm_compute in Hx. discriminate Hx.
Defined.

(** X19. [build_test] does not raise [CompilationError] without saying
    why: the test case is in the test specification, the last entry of the
    log is the error that names the test case and the missing file, relative
    to the current directory, and that file is the executable, its [.bc] or
    its [.patched.bc], and is not there. *)
Theorem build_test_error_logged
    (X : externals) (v : variant) (self : project) (test_case : string)
    (w : world) :
  let rw := build_test X v self test_case w in
  rw.1 = Raise CompilationError ->
  exists t p r,
    tests_spec self !! test_case = Some t /\
    (p = join (dir self) [executable t] \/
     p = join (dir self) [executable t] +:+ ".bc" \/
     p = join (dir self) [executable t] +:+ ".patched.bc") /\
    ~ present rw.2 p /\
    relpath (cwd rw.2) p "." = Some r /\
    last (log rw.2)
    = Some (ERROR, "failed to build test " +:+ test_case +:+
                   " dependency " +:+ r).
Proof.
  cbv zeta.
  destruct (tests_spec self !! test_case) as [t|] eqn:Ht.
  2:{ destruct v; simpl;
        unfold Validation_build_test, Frontend_build_test, Backend_build_test,
          Golden_build_test, tests_spec_getitem;
        rewrite Ht; done. }
  assert (Hreq : forall p w1,
    (require_dependency test_case p w1).1 = Raise CompilationError ->
    let rw := require_dependency test_case p w1 in
    exists r, ~ present rw.2 p /\ relpath (cwd rw.2) p "." = Some r /\
      last (log rw.2)
      = Some (ERROR, "failed to build test " +:+ test_case +:+
                     " dependency " +:+ r)).
  { intros p w1. rewrite require_dependency_eq. cbv zeta.
    case_bool_decide as Hp; [done|].
    destruct (relpath (cwd w1) p ".") as [r|] eqn:Hr; [|done].
    intros _. exists r. simpl. split; [done|]. split; [done|].
    by rewrite last_snoc. }
  intros Hraise. exists t.
  rewrite (build_test_eq X v self test_case t w Ht) in Hraise |- *.
  pose proof (sub_build_result X v self t w) as Hs.
  destruct (sub_build X v self t w) as [[[]|e] w1] eqn:Hsub;
    simpl in Hs; [|simpl in Hraise; congruence].
  clear Hs.
  destruct v.
  1,2,4: cbv beta iota in Hraise |- *;
    destruct (Hreq _ _ Hraise) as (r & ? & ? & ?);
    exists (join (dir self) [executable t]), r; auto.
  revert Hraise.
  pose proof (backend_build_test_eq X self test_case t w w1 Ht Hsub) as E.
  rewrite (build_test_eq X Backend self test_case t w Ht), Hsub in E.
  rewrite E. case_bool_decide.
  - destruct (patch_start X self t w1) as [e|] eqn:Hstart.
    { unfold patch_start, start_failure in Hstart. simpl in Hstart.
      destruct (cannot_start X _ _) as [[|]|]; [| |done];
        injection Hstart as <-; by intros [=]. }
    intros Hraise. destruct (Hreq _ _ Hraise) as (r & ? & ? & ?).
    exists (join (dir self) [executable t] +:+ ".patched.bc"), r. auto.
  - intros Hraise. destruct (Hreq _ _ Hraise) as (r & ? & ? & ?).
    exists (join (dir self) [executable t] +:+ ".bc"), r. auto.
Qed.

Lemma build_test_error_logged_witness :
  let rw := build_test Run.X Validation (Run.proj None) "t1" Run.w0 in
  exists t p r,
    tests_spec (Run.proj None) !! "t1" = Some t /\
    (p = join (dir (Run.proj None)) [executable t] \/
     p = join (dir (Run.proj None)) [executable t] +:+ ".bc" \/
     p = join (dir (Run.proj None)) [executable t] +:+ ".patched.bc") /\
    ~ present rw.2 p /\
    relpath (cwd rw.2) p "." = Some r /\
    last (log rw.2)
    = Some (ERROR, "failed to build test " +:+ "t1" +:+
                   " dependency " +:+ r).
Proof.
  apply (build_test_error_logged Run.X Validation (Run.proj None) "t1" Run.w0).
  vm_compute. reflexivity.
Defined.

(** ** [export_compilation_db] *)

Lemma nonempty_items_component (l : list string) :
  Forall (fun c => sep_free c = true) l -> Forall component (nonempty_items l).
Proof.
  unfold nonempty_items. induction 1 as [|c l Hc H IH]; [constructor|].
  simpl. destruct c as [|ch c]; [exact IH|]. simpl.
  constructor; [by split | exact IH].
Qed.

(** What [relpath] returns is not empty and not an absolute path. *)
Lemma relpath_relative (c path start r : string) :
  relpath c path start = Some r -> r <> "" /\ isabs r = false.
Proof.
  unfold relpath. destruct (is_empty path); [done|]. cbv zeta.
  set (path_list := nonempty_items (split_sep (abspath c path))).
  set (start_list := nonempty_items (split_sep (abspath c start))).
  set (i := length (commonprefix start_list path_list)).
  assert (Hc : Forall component
                 (replicate (length start_list - i) ".." ++ drop i path_list)).
  { apply Forall_app. split.
    - apply Forall_replicate, dotdot_component.
    - apply Forall_drop. apply nonempty_items_component,
        split_sep_all_sep_free. }
  destruct (replicate _ _ ++ _) as [|x l]; [by intros [= <-]|].
  intros [= <-]. rewrite (join_components x l Hc).
  inversion Hc; subst. by apply join_sep_head.
Qed.

Lemma export_item_heap_only self item w :
  heap_only w (export_item self item w).2.
Proof.
  unfold export_item, bind, dict_getitem, os_path_relpath_from, dict_setitem.
  repeat (match goal with
          | |- context [match ?x !! ?k with _ => _ end] => destruct (x !! k)
          | |- context [match relpath ?a ?b ?c with _ => _ end] =>
              destruct (relpath a b c)
          end; cbn [fst snd]; try by repeat split).
Qed.

Lemma export_item_ok_inv self item w w' :
  export_item self item w = (Ok tt, w') ->
  exists rec rec',
    heap w !! item = Some rec /\
    export_record (cwd w) (dir self) rec = Some rec' /\
    w' = set_heap (<[item := rec']> (heap w)) w.
Proof.
  destruct (heap w !! item) as [rec|] eqn:Hh.
  2:{ unfold export_item. py_unfold. dict_steps. done. }
  destruct (export_record (cwd w) (dir self) rec) as [rec'|] eqn:He.
  { rewrite (export_item_eq self item w rec rec' Hh He).
    intros [= <-]. by exists rec, rec'. }
  unfold export_record in He.
  destruct (rec !! "directory") as [d|] eqn:Hd.
  2:{ unfold export_item. py_unfold. dict_steps. done. }
  simpl in He.
  destruct (relpath (cwd w) d (dir self)) as [d'|] eqn:Hd'.
  2:{ unfold export_item. py_unfold. dict_steps. done. }
  simpl in He.
  destruct (rec !! "file") as [f|] eqn:Hf.
  2:{ unfold export_item. py_unfold. dict_steps. done. }
  simpl in He.
  destruct (relpath (cwd w) f (dir self)) as [f'|] eqn:Hf'; [done|].
  unfold export_item. py_unfold. dict_steps. done.
Qed.

Lemma export_record_relative (c root : string) (rec rec' : dict) :
  export_record c root rec = Some rec' -> relative_record rec'.
Proof.
  unfold export_record.
  destruct (rec !! "directory") as [d|]; [|done]. simpl.
  destruct (relpath c d root) as [d'|] eqn:Hd; [|done]. simpl.
  destruct (rec !! "file") as [f|]; [|done]. simpl.
  destruct (relpath c f root) as [f'|] eqn:Hf; [|done]. simpl.
  intros [= <-]. exists d', f'.
  rewrite lookup_insert_eq, lookup_insert_ne, lookup_insert_eq by done.
  apply relpath_relative in Hd as [_ Hd]. apply relpath_relative in Hf as [_ Hf].
  done.
Qed.

(** The loop of [export_compilation_db] makes the records it visits
    relative and keeps relative those that are. *)
Lemma for_each_export_relative self ls w w' :
  for_each ls (export_item self) w = (Ok tt, w') ->
  (forall l rec, heap w !! l = Some rec -> relative_record rec ->
     exists rec', heap w' !! l = Some rec' /\ relative_record rec') /\
  Forall (fun l => exists rec, heap w' !! l = Some rec /\ relative_record rec)
    ls.
Proof.
  revert w. induction ls as [|x ls IH]; intros w.
  - intros [= <-]. split; [eauto | constructor].
  - rewrite for_each_cons.
    destruct (export_item self x w) as [[[]|e] w1] eqn:Hx; [|done].
    apply export_item_ok_inv in Hx as (rec & rec' & Hh & He & ->).
    intros Hloop. destruct (IH _ Hloop) as [Hkeep Hall].
    assert (Hstep : forall l r, heap w !! l = Some r -> relative_record r ->
      exists r', heap (set_heap (<[x := rec']> (heap w)) w) !! l = Some r'
                 /\ relative_record r').
    { intros l r Hl Hr. simpl. destruct (decide (l = x)) as [->|Hne].
      - exists rec'. rewrite lookup_insert_eq. split; [done|].
        by eapply export_record_relative.
      - exists r. by rewrite lookup_insert_ne. }
    split.
    + intros l r Hl Hr. destruct (Hstep l r Hl Hr) as (r' & Hl' & Hr').
      by apply (Hkeep l r').
    + constructor; [|done].
      apply (Hkeep x rec').
      * simpl. by rewrite lookup_insert_eq.
      * by eapply export_record_relative.
Qed.

Lemma alloc_records_heap_only (recs : list dict) (w : world) :
  heap_only w (alloc_records recs w).2 /\
  exists ls, (alloc_records recs w).1 = Ok ls.
Proof.
  destruct (alloc_records_spec recs w) as (ls & h' & -> & _).
  split; [apply heap_only_set_heap | by exists ls].
Qed.

Lemma export_compilation_db_unfold X self w :
  export_compilation_db X self w =
  match bear_build X self w with
  | (Ok _, wb) =>
      match json_load_file X (join (dir self) ["compile_commands.json"]) wb with
      | (Ok db, w1) =>
          match for_each db (export_item self) w1 with
          | (Ok _, w2) => (Ok db, w2)
          | (Raise e, w2) => (Raise e, w2)
          end
      | (Raise e, w1) => (Raise e, w1)
      end
  | (Raise e, wb) => (Raise e, wb)
  end.
Proof.
  unfold export_compilation_db, bear_build. fold (export_item self).
  unfold bind, logger_log, ret.
  destruct (build_in_env _ _ _ _ _ _) as [[[]|e] wb]; [|done].
  destruct (json_load_file _ _ _) as [[db|e] w1]; [|done].
  by destruct (for_each _ _ _) as [[[]|e] w2].
Qed.

(** X20. [export_compilation_db] reads the database and writes no file:
    the files, the log and the processes started are those of the
    intercepted build, so the database on disk keeps the paths the build
    wrote. A database file that is not there after a build that returned
    normally is a [FileNotFoundError], one that cannot be decoded a
    [JSONDecodeError]. *)
Theorem export_compilation_db_files
    (X : externals) (self : project) (w : world) :
  let bw := bear_build X self w in
  let rw := export_compilation_db X self w in
  let file := join (dir self) ["compile_commands.json"] in
  fs rw.2 = fs bw.2 /\ log rw.2 = log bw.2 /\ spawned rw.2 = spawned bw.2 /\
  (bw.1 = Ok tt -> fs_lookup (fs bw.2) file = None ->
   rw.1 = Raise (FileNotFoundError file)) /\
  (forall c, bw.1 = Ok tt -> fs_lookup (fs bw.2) file = Some (File c) ->
     json_load X c = None -> rw.1 = Raise JSONDecodeError).
Proof.
  cbv zeta. rewrite export_compilation_db_unfold.
  destruct (bear_build X self w) as [[[]|e] wb]; [|by simpl].
  cbn [fst snd].
  unfold json_load_file, bind, read_file.
  destruct (fs_lookup (fs wb) _) as [[c|]|] eqn:Hf; try by simpl.
  destruct (json_load X c) as [recs|] eqn:Hj.
  - destruct (alloc_records_heap_only recs wb) as [(F1&_&_&F2&F3) [ls Hl]].
    destruct (alloc_records recs wb) as [r w1]. simpl in *. subst r.
    pose proof (for_each_heap_only (export_item self)
                  (export_item_heap_only self) ls w1) as (G1&_&_&G2&G3).
    destruct (for_each ls (export_item self) w1) as [[[]|e] w2]; simpl in *;
      repeat split; congruence.
  - simpl. by repeat split.
Qed.

(** X21. Every record [export_compilation_db] returns has a [directory]
    and a [file], and both are relative paths, wherever the build ran the
    compiler. *)
Theorem export_compilation_db_relative
    (X : externals) (self : project) (w w' : world) (db : list nat) :
  export_compilation_db X self w = (Ok db, w') ->
  Forall (fun l => exists rec, heap w' !! l = Some rec /\ relative_record rec)
    db.
Proof.
  rewrite export_compilation_db_unfold.
  destruct (bear_build X self w) as [[[]|e] wb]; [|done].
  destruct (json_load_file _ _ _) as [[ls|e] w1]; [|done].
  destruct (for_each ls (export_item self) w1) as [[[]|e] w2] eqn:Hloop;
    [|done].
  intros [= <- <-]. by apply for_each_export_relative in Hloop as [_ H].
Qed.

Lemma export_compilation_db_relative_witness :
  Forall (fun l => exists rec,
            heap (export_compilation_db Run.X (Run.proj None) Run.w0).2 !! l
              = Some rec /\ relative_record rec)
    [1].
Proof.
  apply (export_compilation_db_relative Run.X (Run.proj None) Run.w0).
  vm_compute. reflexivity.
Defined.
